(** * loadcsvs.py: bulk loader of forex tick archives into a relational store

    A shallow embedding of [src/loadcsvs.py] and the properties of its
    specification.  Python strings are [string]; Python integers are [Z];
    exceptions are an explicit error type threaded through a state and
    error monad; the MySQL connection is a record holding the committed
    catalogue and the working copy of the open transaction. *)

From Stdlib Require Import String Ascii ZArith List Lia Bool DecimalString.
From stdpp Require Import gmap strings list fin_maps.

Local Open Scope Z_scope.

(* [simpl] unfolds string concatenation on constructors *)
#[local] Arguments String.append !_ _ / : simpl nomatch.

(** ** Python exceptions and results *)

Inductive exn : Type :=
  | IndexError        (* list index out of range *)
  | ValueError        (* strptime: no match, unconverted data, bad field *)
  | TypeError         (* strptime on a value that is no str *)
  | BadZipFile        (* zipfile.ZipFile on a file that is no archive *)
  | ProgrammingError  (* the store refuses a statement *)
  | InterfaceError    (* the store cannot be reached *)
  | IntegrityError    (* duplicate key under a plain INSERT *)
  | SystemExit (code : Z).

Inductive result (A : Type) : Type :=
  | Ok (a : A)
  | Raise (e : exn).
Arguments Ok {A} a.
Arguments Raise {A} e.

Definition is_ok {A} (r : result A) : bool :=
  match r with Ok _ => true | Raise _ => false end.

(** ** String primitives of the Python runtime *)

Module Str.

(** [c in s] for a one-character [c]. *)
Fixpoint occurs (c : ascii) (s : string) : bool :=
  match s with
  | EmptyString => false
  | String d s' => Ascii.eqb d c || occurs c s'
  end.

(** [s.split(sep)] for a one-character separator: never empty. *)
Fixpoint split (sep : ascii) (s : string) : list string :=
  match s with
  | EmptyString => [EmptyString]
  | String c s' =>
      if Ascii.eqb c sep then EmptyString :: split sep s'
      else match split sep s' with
           | [] => [String c EmptyString]
           | t :: ts => String c t :: ts
           end
  end.

(** [s.startswith(pre)]. *)
Fixpoint startswith (s pre : string) {struct pre} : bool :=
  match pre with
  | EmptyString => true
  | String c pre' =>
      match s with
      | EmptyString => false
      | String d s' => Ascii.eqb d c && startswith s' pre'
      end
  end.

(** [s.endswith(suf)]. *)
Fixpoint endswith (s suf : string) : bool :=
  String.eqb s suf ||
  match s with
  | EmptyString => false
  | String _ s' => endswith s' suf
  end.

(** [sub in s]. *)
Fixpoint contains (sub s : string) : bool :=
  startswith s sub ||
  match s with
  | EmptyString => false
  | String _ s' => contains sub s'
  end.

(** [s[:n]] for a non-negative [n]. *)
Fixpoint take (n : nat) (s : string) : string :=
  match n, s with
  | S n', String c s' => String c (take n' s')
  | _, _ => EmptyString
  end.

(** [s[n:]] for a non-negative [n]. *)
Fixpoint drop (n : nat) (s : string) : string :=
  match n, s with
  | S n', String _ s' => drop n' s'
  | _, _ => s
  end.

(** [s[:-n]]: the string without its last [n] characters. *)
Definition drop_last (n : nat) (s : string) : string :=
  take (String.length s - n) s.

(** [l[i]] with Python's IndexError (non-negative [i]). *)
Definition index {A} (l : list A) (i : nat) : result A :=
  match nth_error l i with
  | Some x => Ok x
  | None => Raise IndexError
  end.

End Str.

(** [os.path.basename] (posixpath): the text after the last slash. *)
Definition basename (p : string) : string :=
  List.last (Str.split "/" p) EmptyString.

(** [os.path.join(root, file)] (posixpath) for two components. *)
Definition path_join (root file : string) : string :=
  if Str.startswith file "/" then file
  else if String.eqb root "" || Str.endswith root "/" then root +:+ file
  else root +:+ "/" +:+ file.

(** ** Table Name Resolver *)

(** [os.path.basename(filename).split('.')[0].split('-')] *)
Definition name_parts (filename : string) : list string :=
  Str.split "-" (List.hd EmptyString (Str.split "." (basename filename))).

Definition get_table_name (filename : string) : result string :=
  let parts := name_parts filename in
  match Str.index parts 0 with
  | Raise e => Raise e
  | Ok forex_pair =>
      match Str.index parts 1 with
      | Raise e => Raise e
      | Ok p1 =>
          match Str.index parts 2 with
          | Raise e => Raise e
          | Ok p2 =>
              let year_month := p1 +:+ "_" +:+ p2 in
              Ok (forex_pair +:+ "_" +:+ year_month)
          end
      end
  end.

(** A filename token: free of the dash, the dot and the path separator. *)
Definition is_token (s : string) : bool :=
  negb (Str.occurs "-" s) && negb (Str.occurs "." s) && negb (Str.occurs "/" s).

(** ** Admission filter of the directory walk *)

Definition currencies : list string :=
  ["USD"; "EUR"; "GBP"; "JPY"; "AUD"; "CAD"; "CHF"; "NZD"].

(** [file.endswith('.zip') and any(cur in file for cur in [...])] *)
Definition admitted (file : string) : bool :=
  Str.endswith file ".zip" &&
  existsb (fun cur => Str.contains cur file) currencies.

(** ** Characters of a Python [str]

    A [str] is a sequence of code points; a [string] holds it in UTF-8.
    The names, formats and literals of the script are ASCII, where a
    character is its byte. *)

Module Unicode.

Local Open Scope N_scope.

(** the first code point of every run of ten decimal digits (general
    category Nd, Unicode 14): ASCII, Arabic-Indic, ..., fullwidth, ... *)
Definition decimal_blocks : list N :=
  [ 48; 1632; 1776; 1984; 2406; 2534; 2662; 2790; 2918; 3046; 3174; 3302;
    3430; 3558; 3664; 3792; 3872; 4160; 4240; 6112; 6160; 6470; 6608; 6784;
    6800; 6992; 7088; 7232; 7248; 42528; 43216; 43264; 43472; 43504; 43600;
    44016; 65296; 66720; 68912; 69734; 69872; 69942; 70096; 70384; 70736;
    70864; 71248; 71360; 71472; 71904; 72016; 72784; 73040; 73120; 92768;
    92864; 93008; 120782; 120792; 120802; 120812; 120822; 123200; 123632;
    125264; 130032 ].

(** the value of a decimal digit of any script, as [\d] and [int] know
    them *)
Definition decimal (c : N) : option Z :=
  match List.find (fun b => (b <=? c) && (c <? b + 10)) decimal_blocks with
  | Some b => Some (Z.of_N (c - b))
  | None => None
  end.

(** [str.isspace] of one character, the class [\s] *)
Definition is_space (c : N) : bool :=
  ((9 <=? c) && (c <=? 13)) || ((28 <=? c) && (c <=? 32))
  || (c =? 133) || (c =? 160) || (c =? 5760)
  || ((8192 <=? c) && (c <=? 8202)) || (c =? 8232) || (c =? 8233)
  || (c =? 8239) || (c =? 8287) || (c =? 12288).

End Unicode.

Module Utf8.

Local Open Scope N_scope.

Definition byte (b : ascii) : N := N_of_ascii b.

(** a continuation byte 10xxxxxx *)
Definition cont (b : ascii) : bool := (128 <=? byte b) && (byte b <? 192).

(** the character that begins with the byte [b1] before [s]: its code
    point and the number of bytes of [s] that belong to it.  The
    sequence must be the shortest one of a code point that is no
    surrogate; a byte that begins no such sequence stands alone, as the
    code point U+DC00 + byte of the runtime's surrogate escape. *)
Definition decode1 (b1 : ascii) (s : string) : N * nat :=
  let n1 := byte b1 in
  let stray := (56320 + n1, 0%nat) in
  if n1 <? 128 then (n1, 0%nat)
  else
    match s with
    | String b2 s2 =>
        if negb (cont b2) then stray
        else if (194 <=? n1) && (n1 <? 224)
        then ((n1 - 192) * 64 + (byte b2 - 128), 1%nat)
        else
          match s2 with
          | String b3 s3 =>
              if negb (cont b3) then stray
              else if (224 <=? n1) && (n1 <? 240)
              then
                let c := (n1 - 224) * 4096 + (byte b2 - 128) * 64 + (byte b3 - 128) in
                if (2048 <=? c) && negb ((55296 <=? c) && (c <? 57344))
                then (c, 2%nat) else stray
              else
                match s3 with
                | String b4 _ =>
                    if cont b4 && (240 <=? n1) && (n1 <? 245)
                    then
                      let c := (n1 - 240) * 262144 + (byte b2 - 128) * 4096
                               + (byte b3 - 128) * 64 + (byte b4 - 128) in
                      if (65536 <=? c) && (c <? 1114112)
                      then (c, 3%nat) else stray
                    else stray
                | EmptyString => stray
                end
          | EmptyString => stray
          end
    | EmptyString => stray
    end.

(** the first character of a text: its code point, its bytes, the rest *)
Definition head (s : string) : option (N * string * string) :=
  match s with
  | EmptyString => None
  | String b s' =>
      let '(c, k) := decode1 b s' in
      Some (c, String b (Str.take k s'), Str.drop k s')
  end.

(** the code points of a text; [skip] bytes are of the character before *)
Fixpoint chars_from (skip : nat) (s : string) : list N :=
  match s with
  | EmptyString => []
  | String b s' =>
      match skip with
      | S k => chars_from k s'
      | O => let '(c, k) := decode1 b s' in c :: chars_from k s'
      end
  end.

Definition chars (s : string) : list N := chars_from 0 s.

End Utf8.

(** ** Regular expressions of the runtime's [re] module

    [datetime.strptime] compiles the format into a regular expression and
    runs the backtracking matcher on the text.  [matches r s] lists every
    way [r] matches a prefix of [s] in the order the matcher tries them:
    captured groups, matched text, remaining text.  [re.match] returns the
    head of that list.  A class takes one character of the text, of any
    script; the expressions of [strptime] are compiled
    case-insensitively, which is without effect on the digits, blanks
    and punctuation of the formats used here. *)

Module Re.

(** character classes: [[lo-hi]], [\d] and [\s] *)
Inductive cls : Type :=
  | Range (lo hi : ascii)
  | Digit
  | Space.

Inductive t : Type :=
  | Eps
  | Lit (c : ascii)
  | Class (p : cls)
  | Seq (r1 r2 : t)
  | Alt (r1 r2 : t)
  | Repeat (p : cls) (lo hi : nat)   (* greedy [p]{lo,hi} *)
  | Plus (p : cls)                   (* greedy [p]+ *)
  | Group (name : ascii) (r : t).    (* (?P<name>r) *)

Definition captures : Type := list (ascii * string).
Definition hit : Type := (captures * string * string)%type.

Definition in_range (lo hi c : ascii) : bool :=
  (nat_of_ascii lo <=? nat_of_ascii c)%nat && (nat_of_ascii c <=? nat_of_ascii hi)%nat.

(** an ASCII digit *)
Definition digit : ascii -> bool := in_range "0" "9".

(** an ASCII blank: tab to carriage return, the four separators 28..31,
    and the space *)
Definition space (c : ascii) : bool :=
  let n := nat_of_ascii c in
  ((9 <=? n)%nat && (n <=? 13)%nat) || ((28 <=? n)%nat && (n <=? 32)%nat).

(** the code points of a class: [\d] and [\s] are those of Unicode *)
Definition mem (p : cls) (c : N) : bool :=
  match p with
  | Range lo hi => (N_of_ascii lo <=? c)%N && (c <=? N_of_ascii hi)%N
  | Digit => bool_decide (is_Some (Unicode.decimal c))
  | Space => Unicode.is_space c
  end.

(** one character of a class at the head of a text: its bytes, the rest *)
Definition one (p : cls) (s : string) : option (string * string) :=
  match Utf8.head s with
  | Some (c, m, s') => if mem p c then Some (m, s') else None
  | None => None
  end.

(** greedy repetition of a class: one more character first, then stop *)
Fixpoint greedy (p : cls) (lo hi : nat) (s : string)
  : list (string * string) :=
  match hi with
  | O => if (lo =? 0)%nat then [(EmptyString, s)] else []
  | S hi' =>
      match one p s with
      | Some (ch, s') =>
          List.map (fun '(m, r) => (ch +:+ m, r)) (greedy p (Nat.pred lo) hi' s')
      | None => []
      end ++ (if (lo =? 0)%nat then [(EmptyString, s)] else [])
  end.

Fixpoint matches (r : t) (s : string) : list hit :=
  match r with
  | Eps => [([], EmptyString, s)]
  | Lit c =>
      match s with
      | String d s' => if Ascii.eqb d c then [([], String d EmptyString, s')] else []
      | EmptyString => []
      end
  | Class p =>
      match one p s with
      | Some (m, s') => [([], m, s')]
      | None => []
      end
  | Seq r1 r2 =>
      List.flat_map
        (fun '(c1, m1, s1) =>
           List.map (fun '(c2, m2, s2) => (c1 ++ c2, m1 +:+ m2, s2)) (matches r2 s1))
        (matches r1 s)
  | Alt r1 r2 => matches r1 s ++ matches r2 s
  | Repeat p lo hi => List.map (fun '(m, r) => ([], m, r)) (greedy p lo hi s)
  | Plus p => List.map (fun '(m, r) => ([], m, r)) (greedy p 1 (String.length s) s)
  | Group name r => List.map (fun '(c, m, s') => ((name, m) :: c, m, s')) (matches r s)
  end.

(** [re.match(r, s)] *)
Definition match_ (r : t) (s : string) : option hit := List.head (matches r s).

Fixpoint group (name : ascii) (c : captures) : option string :=
  match c with
  | [] => None
  | (n, m) :: c' => if Ascii.eqb n name then Some m else group name c'
  end.

(** [needs c r]: every text matched by [r] holds the character [c] *)
Fixpoint needs (c : ascii) (r : t) : bool :=
  match r with
  | Lit d => Ascii.eqb d c
  | Seq r1 r2 => needs c r1 || needs c r2
  | Alt r1 r2 => needs c r1 && needs c r2
  | Group _ r' => needs c r'
  | _ => false
  end.

End Re.

(** ** A cell of the timestamp column

    [pandas] hands a cell of a frame over as a [str], or as a value of
    another type where it read the column as numbers or found the cell
    empty (int64, float64, NaN).  A text stands for the cell that holds
    it. *)

Inductive cell : Type :=
  | Text (s : string)
  | NonText.

Coercion Text : string >-> cell.

(** ** [datetime]: construction, parsing and formatting *)

Record datetime : Type := mk_datetime {
  year : Z; month : Z; day : Z;
  hour : Z; minute : Z; second : Z;
  microsecond : Z
}.

Definition is_leap (y : Z) : bool :=
  (y mod 4 =? 0) && (negb (y mod 100 =? 0) || (y mod 400 =? 0)).

Definition days_in_month (y m : Z) : Z :=
  if m =? 2 then (if is_leap y then 29 else 28)
  else if (m =? 4) || (m =? 6) || (m =? 9) || (m =? 11) then 30
  else 31.

Definition within (lo x hi : Z) : bool := (lo <=? x) && (x <=? hi).

(** [datetime(year, month, day, hour, minute, second, microsecond)] *)
Definition datetime_new (y m d H M S us : Z) : result datetime :=
  if within 1 y 9999 && within 1 m 12 && within 1 d (days_in_month y m)
     && within 0 H 23 && within 0 M 59 && within 0 S 59 && within 0 us 999999
  then Ok (mk_datetime y m d H M S us)
  else Raise ValueError.

Module Strptime.

Import Re.

(** The directive table of [_strptime.TimeRE]. *)
Definition directive (d : ascii) : option Re.t :=
  if Ascii.eqb d "d" then
    Some (Group "d" (Alt (Seq (Lit "3") (Class (Range "0" "1")))
                    (Alt (Seq (Class (Range "1" "2")) (Class Digit))
                    (Alt (Seq (Lit "0") (Class (Range "1" "9")))
                    (Alt (Class (Range "1" "9"))
                         (Seq (Lit " ") (Class (Range "1" "9"))))))))
  else if Ascii.eqb d "f" then
    Some (Group "f" (Repeat (Range "0" "9") 1 6))
  else if Ascii.eqb d "H" then
    Some (Group "H" (Alt (Seq (Lit "2") (Class (Range "0" "3")))
                    (Alt (Seq (Class (Range "0" "1")) (Class Digit))
                         (Class Digit))))
  else if Ascii.eqb d "m" then
    Some (Group "m" (Alt (Seq (Lit "1") (Class (Range "0" "2")))
                    (Alt (Seq (Lit "0") (Class (Range "1" "9")))
                         (Class (Range "1" "9")))))
  else if Ascii.eqb d "M" then
    Some (Group "M" (Alt (Seq (Class (Range "0" "5")) (Class Digit))
                         (Class Digit)))
  else if Ascii.eqb d "S" then
    Some (Group "S" (Alt (Seq (Lit "6") (Class (Range "0" "1")))
                    (Alt (Seq (Class (Range "0" "5")) (Class Digit))
                         (Class Digit))))
  else if Ascii.eqb d "Y" then
    Some (Group "Y" (Seq (Class Digit) (Seq (Class Digit)
                    (Seq (Class Digit) (Class Digit)))))
  else None.

(** skip the rest of a run of blanks of the format *)
Fixpoint skip_space (fmt : string) : string :=
  match fmt with
  | String c fmt' => if space c then skip_space fmt' else fmt
  | EmptyString => fmt
  end.

(** [TimeRE.pattern]: a run of blanks becomes [\s+], a directive its
    expression, any other character itself.  The fuel is the length of
    the format. *)
Fixpoint pattern_fuel (fuel : nat) (fmt : string) : option Re.t :=
  match fuel with
  | O => Some Eps
  | S fuel' =>
      match fmt with
      | EmptyString => Some Eps
      | String "%" (String d fmt') =>
          match directive d, pattern_fuel fuel' fmt' with
          | Some r, Some k => Some (Seq r k)
          | _, _ => None
          end
      | String "%" EmptyString => None
      | String c fmt' =>
          if space c then
            option_map (Seq (Plus Space)) (pattern_fuel fuel' (skip_space fmt'))
          else option_map (Seq (Lit c)) (pattern_fuel fuel' fmt')
      end
  end.

Definition pattern (fmt : string) : option Re.t :=
  pattern_fuel (String.length fmt) fmt.

(** [int(s)] on the text of a group: blanks in front, as before the
    digit of a day of the month, then decimal digits of any script.
    ([int] raises on any other text; the expressions capture none.) *)
Fixpoint int_acc (acc : Z) (cs : list N) : Z :=
  match cs with
  | [] => acc
  | c :: cs' =>
      match Unicode.decimal c with
      | Some v => int_acc (10 * acc + v) cs'
      | None => acc
      end
  end.

Fixpoint lstrip (cs : list N) : list N :=
  match cs with
  | c :: cs' => if Unicode.is_space c then lstrip cs' else cs
  | [] => []
  end.

Definition int (s : string) : Z := int_acc 0 (lstrip (Utf8.chars s)).

Fixpoint zeros (n : nat) : string :=
  match n with O => EmptyString | S n' => String "0" (zeros n') end.

Definition field (name : ascii) (default : Z) (c : captures) : Z :=
  match group name c with Some m => int m | None => default end.

(** the fraction group, right-padded to six digits *)
Definition fraction (c : captures) : Z :=
  match group "f" c with
  | Some m => int (m +:+ zeros (6 - String.length m))
  | None => 0
  end.

(** [datetime.strptime(data_string, format)]: a value that is no [str]
    is refused before anything is matched *)
Definition strptime (data_string : cell) (format : string) : result datetime :=
  match data_string with
  | NonText => Raise TypeError
  | Text data_string =>
      match pattern format with
      | None => Raise ValueError
      | Some format_regex =>
          match match_ format_regex data_string with
          | None => Raise ValueError
          | Some (found, _, rest) =>
              if negb (String.eqb rest EmptyString) then Raise ValueError
              else datetime_new (field "Y" 1900 found) (field "m" 1 found)
                                (field "d" 1 found) (field "H" 0 found)
                                (field "M" 0 found) (field "S" 0 found)
                                (fraction found)
          end
      end
  end.

End Strptime.

(** ** Timestamp Normalizer *)

Definition parse_timestamp (timestamp_str : cell) : result datetime :=
  match Strptime.strptime timestamp_str "%Y%m%d %H:%M:%S.%f" with
  | Ok dt => Ok dt
  | Raise ValueError => Strptime.strptime timestamp_str "%Y%m%d %H:%M:%S"
  | Raise e => Raise e
  end.

(** ** [strftime] and the literal of the store *)

Definition digit_char (k : Z) : ascii := ascii_of_nat (48 + Z.to_nat k).

(** the [w] low-order decimal digits of [n]: the zero-padded decimal of a
    field that fits its width, as every field of a [datetime] does *)
Fixpoint zpad (w : nat) (n : Z) : string :=
  match w with
  | O => EmptyString
  | S w' => zpad w' (n / 10) +:+ String (digit_char (n mod 10)) EmptyString
  end.

(** [str(n)] for a non-negative [n]: its decimal digits, without padding *)
Fixpoint str_int_fuel (fuel : nat) (n : Z) : string :=
  match fuel with
  | O => EmptyString
  | S fuel' =>
      (if n <? 10 then EmptyString else str_int_fuel fuel' (n / 10))
      +:+ String (digit_char (n mod 10)) EmptyString
  end.

Definition str_int (n : Z) : string :=
  str_int_fuel (S (Z.to_nat (Z.log2 n))) n.

(** the directives as the C library of the platform writes them: glibc
    pads the month, the day and the time of the day to two digits and
    writes the year as it is, without padding; [%f] is written by
    [datetime] itself, in six digits *)
Definition strftime_directive (d : ascii) (dt : datetime) : string :=
  if Ascii.eqb d "Y" then str_int (year dt)
  else if Ascii.eqb d "m" then zpad 2 (month dt)
  else if Ascii.eqb d "d" then zpad 2 (day dt)
  else if Ascii.eqb d "H" then zpad 2 (hour dt)
  else if Ascii.eqb d "M" then zpad 2 (minute dt)
  else if Ascii.eqb d "S" then zpad 2 (second dt)
  else if Ascii.eqb d "f" then zpad 6 (microsecond dt)
  else String "%" (String d EmptyString).

(** [dt.strftime(fmt)] for the directives above *)
Fixpoint strftime (dt : datetime) (fmt : string) : string :=
  match fmt with
  | EmptyString => EmptyString
  | String "%" (String d fmt') => strftime_directive d dt +:+ strftime dt fmt'
  | String c fmt' => String c (strftime dt fmt')
  end.

Definition format_datetime_with_ms (dt : datetime) : string :=
  Str.drop_last 3 (strftime dt "%Y-%m-%d %H:%M:%S.%f").

(** ** Well-formed timestamp texts *)

(** a text of ASCII digits *)
Fixpoint all_digits (s : string) : bool :=
  match s with
  | EmptyString => true
  | String c s' => Re.digit c && all_digits s'
  end.

(** a date of the calendar with a time of the day *)
Definition valid_clock (y m d H M S : Z) : bool :=
  within 1 y 9999 && within 1 m 12 && within 1 d (days_in_month y m)
  && within 0 H 23 && within 0 M 59 && within 0 S 59.

(** the text YYYYMMDD HH:MM:SS of a wall-clock time *)
Definition stamp (y m d H M S : Z) : string :=
  zpad 4 y +:+ zpad 2 m +:+ zpad 2 d +:+ " " +:+
  zpad 2 H +:+ ":" +:+ zpad 2 M +:+ ":" +:+ zpad 2 S.

(** the groups captured from that text *)
Definition clock_captures (y m d H M S : Z) : Re.captures :=
  [("Y"%char, zpad 4 y); ("m"%char, zpad 2 m); ("d"%char, zpad 2 d);
   ("H"%char, zpad 2 H); ("M"%char, zpad 2 M); ("S"%char, zpad 2 S)].

(** the literal Y-MM-DD HH:MM:SS.f of a wall-clock time and a fraction,
    the year in its own digits: four from the year 1000 on *)
Definition literal (y m d H M S : Z) (f : string) : string :=
  str_int y +:+ "-" +:+ zpad 2 m +:+ "-" +:+ zpad 2 d +:+ " " +:+
  zpad 2 H +:+ ":" +:+ zpad 2 M +:+ ":" +:+ zpad 2 S +:+ "." +:+ f.

(** ** The store

    One table per pair and month.  A table keeps its declaration and its
    rows in insertion order; PRIMARY KEY (timestamp) is enforced by the
    insert statement, not by the representation. *)

Record tick : Type := mk_tick {
  timestamp : datetime;
  bid : string;     (* the cell as read from the payload *)
  ask : string
}.

Inductive sql_type : Type :=
  | DATETIME (fsp : nat)
  | DECIMAL (digits scale : nat).

Record column : Type := mk_column {
  col_name : string; col_type : sql_type; col_not_null : bool
}.

Record schema : Type := mk_schema {
  columns : list column;
  primary_key : list string;
  indexes : list (string * string)
}.

(** the declaration of [CREATE TABLE IF NOT EXISTS] in [process_zip_file] *)
Definition tick_schema : schema :=
  {| columns := [ mk_column "timestamp" (DATETIME 6) true;
                  mk_column "bid" (DECIMAL 10 5) true;
                  mk_column "ask" (DECIMAL 10 5) true ];
     primary_key := ["timestamp"];
     indexes := [("idx_bid", "bid"); ("idx_ask", "ask");
                 ("idx_timestamp", "timestamp")] |}.

Record table : Type := mk_table { t_schema : schema; t_rows : list tick }.

#[export] Instance datetime_eq_dec : EqDecision datetime.
Proof. solve_decision. Defined.

Definition has_key (ts : datetime) (rows : list tick) : bool :=
  existsb (fun r => bool_decide (timestamp r = ts)) rows.

(** what a multi-row INSERT does when a row collides with the primary key *)
Inductive on_duplicate : Type := Reject | Ignore.

(** [INSERT [IGNORE] INTO t (timestamp, bid, ask) VALUES ...], row by row;
    a plain INSERT fails as a whole on the first collision *)
Fixpoint insert_rows (mode : on_duplicate) (values rows : list tick)
  : result (list tick) :=
  match values with
  | [] => Ok rows
  | v :: values' =>
      if has_key (timestamp v) rows then
        match mode with
        | Ignore => insert_rows mode values' rows
        | Reject => Raise IntegrityError
        end
      else insert_rows mode values' (rows ++ [v])
  end.

(** the primary-key invariant of a table *)
Definition pk_unique (rows : list tick) : Prop :=
  NoDup (List.map timestamp rows).

Definition rows_at (ts : datetime) (rows : list tick) : list tick :=
  List.filter (fun r => bool_decide (timestamp r = ts)) rows.

(** the row of a table with a given key *)
Definition find_row (ts : datetime) (rows : list tick) : option tick :=
  List.find (fun r => bool_decide (timestamp r = ts)) rows.

(** [CREATE TABLE IF NOT EXISTS] on a catalogue *)
Definition ensure (table_name : string) (cat : gmap string table)
  : gmap string table :=
  match cat !! table_name with
  | Some _ => cat
  | None => <[table_name := mk_table tick_schema []]> cat
  end.

(** [INSERT IGNORE] of a list of rows on a catalogue *)
Definition load (table_name : string) (values : list tick)
  (cat : gmap string table) : gmap string table :=
  match cat !! table_name with
  | Some tb =>
      match insert_rows Ignore values (t_rows tb) with
      | Ok rows' => <[table_name := mk_table (t_schema tb) rows']> cat
      | Raise _ => cat
      end
  | None => cat
  end.

(** ** The world of the script *)

(** a row of a frame of [read_csv]: the cells of the four named columns *)
Record csv_row : Type := mk_row {
  c_pair : string; c_timestamp : cell; c_bid : string; c_ask : string
}.

(** an entry of an archive, its payload as [read_csv] cuts it into rows *)
Record zip_info : Type := mk_entry { filename : string; payload : list csv_row }.

Record filesystem : Type := mk_fs {
  fs_exists : string -> bool;                          (* os.path.exists *)
  fs_walk : string -> list (string * list string);     (* os.walk: root, files *)
  fs_zip : string -> option (list zip_info)            (* the archive at a path *)
}.

(** the connection: the committed catalogue and that of the open
    transaction *)
Record connection : Type := mk_conn {
  committed : gmap string table;
  working : gmap string table
}.

Inductive event : Type :=
  | EvCreateTable (t : string)
  | EvOpenZip (path : string)
  | EvReadEntry (name : string)
  | EvInsert (t : string) (rows : nat)
  | EvCommit.

(** the server behind the connection: whether it can be reached, and
    which texts its parser takes as the name of a table or database when
    the script splices them unquoted into a statement *)
Record server : Type := mk_server {
  reachable : bool;
  accepts : string -> bool
}.

Record world : Type := mk_world {
  fs : filesystem;
  srv : server;
  conn : connection;
  stdout : list string;
  log : list event
}.

Definition set_conn (c : connection) (w : world) : world :=
  mk_world (fs w) (srv w) c (stdout w) (log w).
Definition add_line (l : string) (w : world) : world :=
  mk_world (fs w) (srv w) (conn w) (stdout w ++ [l]) (log w).
Definition add_event (e : event) (w : world) : world :=
  mk_world (fs w) (srv w) (conn w) (stdout w) (log w ++ [e]).

(** ** State and exceptions *)

Definition M (A : Type) : Type := world -> world * result A.

#[export] Instance M_ret : MRet M := fun A a w => (w, Ok a).
#[export] Instance M_bind : MBind M := fun A B k m w =>
  match m w with
  | (w', Ok a) => k a w'
  | (w', Raise e) => (w', Raise e)
  end.

Definition raise {A} (e : exn) : M A := fun w => (w, Raise e).
Definition lift {A} (r : result A) : M A := fun w => (w, r).
Definition print (line : string) : M unit := fun w => (add_line line w, Ok tt).
Definition emit (e : event) : M unit := fun w => (add_event e w, Ok tt).

Fixpoint for_each {A} (l : list A) (body : A -> M unit) : M unit :=
  match l with
  | [] => mret tt
  | x :: l' => body x;; for_each l' body
  end.

Definition str_nat (n : nat) : string := NilZero.string_of_uint (Nat.to_uint n).

(** ** Store Writer *)

(** [cursor.execute(f"CREATE TABLE IF NOT EXISTS {table_name} (...)")]:
    refused when the spliced text is no name for the server; a DDL
    statement commits the open transaction *)
Definition execute_create_table (table_name : string) : M unit := fun w =>
  if accepts (srv w) table_name then
    let cat' := ensure table_name (working (conn w)) in
    (add_event (EvCreateTable table_name) (set_conn (mk_conn cat' cat') w), Ok tt)
  else (w, Raise ProgrammingError).

(** [cursor.executemany("INSERT IGNORE INTO ...", values)]: without
    values no statement is sent *)
Definition executemany_insert_ignore (table_name : string) (values : list tick)
  : M unit := fun w =>
  match values with
  | [] => (w, Ok tt)
  | _ :: _ =>
      match working (conn w) !! table_name with
      | None => (w, Raise ProgrammingError)
      | Some tb =>
          match insert_rows Ignore values (t_rows tb) with
          | Raise e => (w, Raise e)
          | Ok rows' =>
              let cat' :=
                <[table_name := mk_table (t_schema tb) rows']> (working (conn w)) in
              (add_event (EvInsert table_name (length values))
                 (set_conn (mk_conn (committed (conn w)) cat') w), Ok tt)
          end
      end
  end.

(** [conn.commit()] *)
Definition commit : M unit := fun w =>
  (add_event EvCommit
     (set_conn (mk_conn (working (conn w)) (working (conn w))) w), Ok tt).

(** the connection is closed or lost: the open transaction is rolled back *)
Definition disconnect (w : world) : world :=
  set_conn (mk_conn (committed (conn w)) (committed (conn w))) w.

(** ** Row Batch Reader *)

Definition chunk_size : nat := Z.to_nat 100000.

Fixpoint chunks_fuel {A} (fuel n : nat) (l : list A) : list (list A) :=
  match fuel, l with
  | S fuel', _ :: _ => firstn n l :: chunks_fuel fuel' n (skipn n l)
  | _, _ => []
  end.

(** the chunks of at most [n] rows, in order *)
Definition chunks {A} (n : nat) (l : list A) : list (list A) :=
  chunks_fuel (length l) n l.

(** [pd.read_csv(..., header=None, names=[...], chunksize=n)] on a payload
    cut into rows: the frames of at most [n] rows; with the names given,
    a payload without rows yields one frame without rows *)
Definition read_csv (rows : list csv_row) (n : nat) : result (list (list csv_row)) :=
  match rows with
  | [] => Ok [[]]
  | _ => Ok (chunks n rows)
  end.

(** [chunk['timestamp'].apply(parse_timestamp)], row after row, and the
    list of value tuples: the pair column is dropped, the bid and ask
    cells are kept as read *)
Fixpoint to_values (chunk : list csv_row) : result (list tick) :=
  match chunk with
  | [] => Ok []
  | row :: chunk' =>
      match parse_timestamp (c_timestamp row) with
      | Raise e => Raise e
      | Ok dt =>
          match to_values chunk' with
          | Raise e => Raise e
          | Ok values => Ok (mk_tick dt (c_bid row) (c_ask row) :: values)
          end
      end
  end.

(** ** The pipeline of one archive *)

Definition process_chunk (table_name : string) (chunk : list csv_row) : M unit :=
  values ← lift (to_values chunk);
  executemany_insert_ignore table_name values;;
  commit;;
  print ("Inserted " +:+ str_nat (length values) +:+ " records into " +:+ table_name).

Definition process_entry (table_name : string) (file_info : zip_info) : M unit :=
  if Str.endswith (filename file_info) ".csv" then
    emit (EvReadEntry (filename file_info));;
    frames ← lift (read_csv (payload file_info) chunk_size);
    for_each frames (process_chunk table_name)
  else mret tt.

(** [zipfile.ZipFile(zip_path, 'r')] and its [infolist()] *)
Definition open_zip (zip_path : string) : M (list zip_info) := fun w =>
  match fs_zip (fs w) zip_path with
  | Some infolist => (add_event (EvOpenZip zip_path) w, Ok infolist)
  | None => (w, Raise BadZipFile)
  end.

Definition process_zip_file (zip_path : string) : M string :=
  table_name ← lift (get_table_name zip_path);
  print ("Processing " +:+ zip_path +:+ " into table " +:+ table_name);;
  execute_create_table table_name;;
  infolist ← open_zip zip_path;
  for_each infolist (process_entry table_name);;
  print ("Finished processing " +:+ table_name);;
  mret table_name.

(** ** Directory Walker *)

Record db_config : Type := mk_config {
  host : string; user : string; password : string; database : string
}.

(** [mysql.connector.connect(...)] and [conn.cursor()] *)
Definition connect : M unit := fun w =>
  if reachable (srv w) then (w, Ok tt) else (w, Raise InterfaceError).

(** [CREATE DATABASE IF NOT EXISTS {db_name}] and [USE {db_name}]: the
    catalogue of the connection is the one of that database *)
Definition create_database_if_not_exists (db_name : string) : M unit :=
  fun w =>
    if accepts (srv w) db_name
    then print ("Using database: " +:+ db_name) w
    else (w, Raise ProgrammingError).

(** the inner loop of the walk over the files of one directory *)
Fixpoint visit_files (root : string) (files : list string)
  (processed_tables : list string) : M (list string) :=
  match files with
  | [] => mret processed_tables
  | file :: files' =>
      if admitted file then
        table_name ← process_zip_file (path_join root file);
        visit_files root files' (processed_tables ++ [table_name])
      else visit_files root files' processed_tables
  end.

Fixpoint visit_dirs (dirs : list (string * list string))
  (processed_tables : list string) : M (list string) :=
  match dirs with
  | [] => mret processed_tables
  | (root, files) :: dirs' =>
      processed ← visit_files root files processed_tables;
      visit_dirs dirs' processed
  end.

(** [os.walk(data_dir)] *)
Definition walk (data_dir : string) : M (list (string * list string)) :=
  fun w => (w, Ok (fs_walk (fs w) data_dir)).

(** [cursor.close(); conn.close()] *)
Definition close : M unit := fun w => (disconnect w, Ok tt).

Definition process_data_directory (data_dir : string) (cfg : db_config)
  : M (list string) :=
  connect;;
  create_database_if_not_exists (database cfg);;
  dirs ← walk data_dir;
  processed_tables ← visit_dirs dirs [];
  close;;
  mret processed_tables.

(** ** Entry point *)

Record arguments : Type := mk_args {
  arg_config : db_config;
  arg_data_dir : string
}.

(** [os.path.exists(path)] *)
Definition path_exists (path : string) : M bool :=
  fun w => (w, Ok (fs_exists (fs w) path)).

(** what [argparse] makes of the command line [sys.argv]: the namespace
    of the five options, each as given or at its default; or the help,
    printed on [-h] and [--help]; or an argument it does not accept *)
Inductive command_line : Type :=
  | Options (args : arguments)
  | Help (text : string)
  | Unrecognized.

(** [parser.parse_args()]: the help ends the process with status 0, an
    error with status 2 after a message on the error stream *)
Definition parse_arguments (argv : command_line) : M arguments := fun w =>
  match argv with
  | Options args => (w, Ok args)
  | Help text => (add_line text w, Raise (SystemExit 0))
  | Unrecognized => (w, Raise (SystemExit 2))
  end.

Definition main (argv : command_line) : M unit :=
  args ← parse_arguments argv;
  let data_dir := arg_data_dir args in
  present ← path_exists data_dir;
  (if negb present
   then print ("Error: Data directory " +:+ data_dir +:+ " does not exist.");;
        raise (SystemExit 1)
   else mret tt);;
  print ("Starting forex data import from " +:+ data_dir);;
  processed_tables ← process_data_directory data_dir (arg_config args);
  print ("Import completed. Processed " +:+ str_nat (length processed_tables)
         +:+ " tables:");;
  for_each processed_tables (fun table => print ("- " +:+ table)).

(** the exit status of the interpreter: 0 on return, the code of
    [sys.exit], 1 on any other exception; the connection is dropped *)
Definition run (argv : command_line) (w : world) : world * Z :=
  match main argv w with
  | (w', Ok _) => (disconnect w', 0)
  | (w', Raise (SystemExit code)) => (disconnect w', code)
  | (w', Raise _) => (disconnect w', 1)
  end.

(** ** Notions used in the statements *)

(** the rows of the delimited-text entries of an archive, in order *)
Definition csv_rows (infolist : list zip_info) : list csv_row :=
  List.flat_map
    (fun e => if Str.endswith (filename e) ".csv" then payload e else [])
    infolist.

(** every exception but [sys.exit] *)
Definition proper (e : exn) : Prop :=
  match e with SystemExit _ => False | _ => True end.

(** the primary key holds in every table, committed or not *)
Definition pk_ok (w : world) : Prop :=
  map_Forall (fun _ tb => pk_unique (t_rows tb)) (committed (conn w)) /\
  map_Forall (fun _ tb => pk_unique (t_rows tb)) (working (conn w)).

(** what a step of the script may do to the world: the file system is
    only read, output and events are appended, tables are never dropped
    and keep their primary key *)
Definition evolves (w w' : world) : Prop :=
  fs w' = fs w /\
  (exists evs, log w' = log w ++ evs) /\
  (exists lines, stdout w' = stdout w ++ lines) /\
  (forall t, is_Some (committed (conn w) !! t) /\ is_Some (working (conn w) !! t) ->
             is_Some (committed (conn w') !! t) /\ is_Some (working (conn w') !! t)) /\
  (pk_ok w -> pk_ok w').

Definition sane {A} (m : M A) : Prop :=
  forall w w' r, m w = (w', r) ->
    evolves w w' /\ match r with Ok _ => True | Raise e => proper e end.

(** a connection without uncommitted work *)
Definition settled (w : world) : Prop := committed (conn w) = working (conn w).

(** a plain decimal literal: digits with at most one dot among them *)
Fixpoint decimal_digits (dot_seen : bool) (s : string) : bool :=
  match s with
  | EmptyString => true
  | String c s' =>
      if Re.digit c then decimal_digits dot_seen s'
      else Ascii.eqb c "." && negb dot_seen && decimal_digits true s'
  end.

Definition is_number (s : string) : bool :=
  negb (String.eqb s "") && negb (String.eqb s ".") && decimal_digits false s.

(** ** Sample inputs *)

(** the defaults of [parse_arguments] *)
Definition default_args : arguments :=
  mk_args (mk_config "localhost" "root" "" "forex_data") "./data".

Fixpoint assoc {V} (k : string) (l : list (string * V)) : option V :=
  match l with
  | [] => None
  | (k', v) :: l' => if String.eqb k' k then Some v else assoc k l'
  end.

(** a data directory ./data with the given files, some of them archives *)
Definition sample_fs (files : list string) (zips : list (string * list zip_info))
  : filesystem :=
  mk_fs (fun p => String.eqb p "./data")
        (fun p => if String.eqb p "./data" then [("./data", files)] else [])
        (fun p => assoc p zips).

(** a name of letters, digits, underscores and dollars, 64 at most *)
Definition plain_name (s : string) : bool :=
  negb (String.eqb s "") && (String.length s <=? 64)%nat &&
  (fix go (s : string) : bool :=
     match s with
     | EmptyString => true
     | String c s' =>
         (Re.in_range "a" "z" c || Re.in_range "A" "Z" c || Re.in_range "0" "9" c
          || Ascii.eqb c "_" || Ascii.eqb c "$") && go s'
     end) s.

Definition sample_server : server := mk_server true plain_name.

(** a world with an empty store and nothing printed *)
Definition blank (f : filesystem) : world :=
  mk_world f sample_server (mk_conn ∅ ∅) [] [].

Definition tick_110 : csv_row :=
  mk_row "EURUSD" "20240801 00:00:00.110" "1.08423" "1.08431".
Definition tick_500 : csv_row :=
  mk_row "EURUSD" "20240801 00:00:00.500" "1.08420" "1.08429".
Definition tick_1105 : csv_row :=
  mk_row "EURUSD" "20240801 00:00:00.1105" "1.08423" "1.08431".
Definition tick_abc : csv_row :=
  mk_row "EURUSD" "20240801 00:00:01.000" "abc" "1.08431".
Definition tick_bad : csv_row :=
  mk_row "EURUSD" "2024-08-01 00:00:02" "1.08420" "1.08429".
(** a row whose timestamp cell pandas found empty *)
Definition tick_nan : csv_row :=
  mk_row "EURUSD" NonText "1.08420" "1.08429".

Definition eurusd : string := "./data/EURUSD-2024-08.zip".

(** ** Further notions: words, catalogues, outcomes *)

(** a token without underscore: the identifier built from three such
    tokens can be taken apart again *)
Definition is_word (s : string) : bool :=
  is_token s && negb (Str.occurs "_" s).

(** [cat'] holds every table of [cat] with its declaration and its rows,
    in order, possibly followed by more rows *)
Definition extends (cat cat' : gmap string table) : Prop :=
  forall t tb, cat !! t = Some tb ->
    exists more, cat' !! t = Some (mk_table (t_schema tb) (t_rows tb ++ more)).

(** a step loses nothing: what was committed stays committed, and the
    open transaction holds at least what is committed *)
Definition grows (w w' : world) : Prop :=
  forall base,
    extends base (committed (conn w)) ->
    extends (committed (conn w)) (working (conn w)) ->
    extends base (committed (conn w')) /\
    extends (committed (conn w')) (working (conn w')).

(** a computation whose steps are related by [R] and whose exceptions
    are in [E] *)
Definition respects {A} (R : world -> world -> Prop) (E : exn -> Prop)
  (m : M A) : Prop :=
  forall w w' r, m w = (w', r) ->
    R w w' /\ match r with Ok _ => True | Raise e => E e end.

(** the paths of the admitted files of a walk, in the order of the walk *)
Definition admitted_paths (dirs : list (string * list string)) : list string :=
  List.flat_map
    (fun '(root, files) => List.map (path_join root) (List.filter admitted files))
    dirs.

(** the batches of an archive inserted one after the other *)
Definition load_batches (table_name : string) (batches : list (list tick))
  (cat : gmap string table) : gmap string table :=
  List.fold_left (fun c batch => load table_name batch c) batches cat.

(** the timestamps of a table of a catalogue *)
Definition keys_of (table_name : string) (cat : gmap string table)
  : list datetime :=
  match cat !! table_name with
  | Some tb => List.map timestamp (t_rows tb)
  | None => []
  end.
(** ** Facts about the string primitives *)

Section StrFacts.

Lemma app_assoc_s (a b c : string) : (a +:+ b) +:+ c = a +:+ (b +:+ c).
Proof. induction a as [|x a IH]; simpl; [reflexivity | f_equal; exact IH]. Qed.

Lemma app_nil_r_s (a : string) : a +:+ "" = a.
Proof. induction a as [|x a IH]; simpl; [reflexivity | f_equal; exact IH]. Qed.

Lemma split_not_nil sep s : Str.split sep s <> [].
Proof.
  destruct s as [|c s]; simpl; [discriminate|].
  destruct (Ascii.eqb c sep); [discriminate|].
  destruct (Str.split sep s); discriminate.
Qed.

Lemma split_absent sep s : Str.occurs sep s = false -> Str.split sep s = [s].
Proof.
  induction s as [|c s IH]; simpl; [reflexivity|].
  intros H. apply orb_false_iff in H as [Hc Hs].
  rewrite Hc, (IH Hs). reflexivity.
Qed.

Lemma split_app sep a b :
  Str.occurs sep a = false ->
  Str.split sep (a +:+ String sep b) = a :: Str.split sep b.
Proof.
  induction a as [|c a IH]; simpl.
  - intros _. now rewrite Ascii.eqb_refl.
  - intros H. apply orb_false_iff in H as [Hc Ha].
    rewrite Hc, (IH Ha). reflexivity.
Qed.

Lemma last_cons_ne {A} (x : A) l d : l <> [] -> List.last (x :: l) d = List.last l d.
Proof. destruct l; [congruence | reflexivity]. Qed.

Lemma last_split_app sep a b :
  List.last (Str.split sep (a +:+ String sep b)) "" =
  List.last (Str.split sep b) "".
Proof.
  induction a as [|c a IH]; simpl.
  - rewrite Ascii.eqb_refl. apply last_cons_ne, split_not_nil.
  - destruct (Ascii.eqb c sep).
    + rewrite last_cons_ne by apply split_not_nil. exact IH.
    + destruct (Str.split sep (a +:+ String sep b)) as [|t ts] eqn:E.
      * now apply split_not_nil in E.
      * destruct ts as [|t' ts'].
        -- simpl in IH. pose proof (split_not_nil sep b) as Hb.
           (* a single token cannot arise: the separator occurs *)
           exfalso. clear IH Hb.
           revert t E. induction a as [|c' a IHa]; simpl; intros t E.
           ++ rewrite Ascii.eqb_refl in E.
              destruct (Str.split sep b) eqn:Eb; [now apply split_not_nil in Eb | discriminate].
           ++ destruct (Ascii.eqb c' sep).
              ** destruct (Str.split sep (a +:+ String sep b)) eqn:E'; [now apply split_not_nil in E' | discriminate].
              ** destruct (Str.split sep (a +:+ String sep b)) as [|u us] eqn:E'; [now apply split_not_nil in E'|].
                 injection E as _ Hus. subst us. eapply IHa. reflexivity.
        -- exact IH.
Qed.

Lemma basename_plain name : Str.occurs "/" name = false -> basename name = name.
Proof. intros H. unfold basename. now rewrite split_absent. Qed.

Lemma basename_dir dir name :
  Str.occurs "/" name = false -> basename (dir +:+ "/" +:+ name) = name.
Proof.
  intros H. unfold basename.
  change (dir +:+ "/" +:+ name) with (dir +:+ String "/" name).
  rewrite last_split_app. now rewrite split_absent.
Qed.

End StrFacts.

(** ** Table Name Resolver: properties *)

Section TableName.

Lemma occurs_app c a b : Str.occurs c (a +:+ b) = Str.occurs c a || Str.occurs c b.
Proof.
  induction a as [|x a IH]; simpl; [reflexivity|].
  now rewrite IH, orb_assoc.
Qed.

Lemma is_token_spec s :
  is_token s = true ->
  Str.occurs "-" s = false /\ Str.occurs "." s = false /\ Str.occurs "/" s = false.
Proof.
  unfold is_token. intros H.
  apply andb_true_iff in H as [H H3]. apply andb_true_iff in H as [H1 H2].
  now rewrite !negb_true_iff in *.
Qed.

Lemma get_table_name_parts filename :
  get_table_name filename =
  match name_parts filename with
  | p0 :: p1 :: p2 :: _ => Ok (p0 +:+ "_" +:+ p1 +:+ "_" +:+ p2)
  | _ => Raise IndexError
  end.
Proof.
  unfold get_table_name.
  destruct (name_parts filename) as [|p0 [|p1 [|p2 rest]]]; reflexivity.
Qed.

Lemma name_parts_of_stem pair year month ext :
  is_token pair = true -> is_token year = true -> is_token month = true ->
  Str.occurs "/" ext = false ->
  name_parts (pair +:+ "-" +:+ year +:+ "-" +:+ month +:+ "." +:+ ext)
  = [pair; year; month].
Proof.
  intros Hp Hy Hm He.
  apply is_token_spec in Hp as (Hp1 & Hp2 & Hp3).
  apply is_token_spec in Hy as (Hy1 & Hy2 & Hy3).
  apply is_token_spec in Hm as (Hm1 & Hm2 & Hm3).
  unfold name_parts.
  rewrite basename_plain
    by (rewrite !occurs_app; simpl; now rewrite Hp3, Hy3, Hm3, He).
  replace (pair +:+ "-" +:+ year +:+ "-" +:+ month +:+ "." +:+ ext)
    with ((pair +:+ "-" +:+ year +:+ "-" +:+ month) +:+ String "." ext)
    by (now rewrite !app_assoc_s).
  rewrite split_app
    by (rewrite !occurs_app; simpl; now rewrite Hp2, Hy2, Hm2).
  simpl List.hd.
  change (pair +:+ "-" +:+ year +:+ "-" +:+ month)
    with (pair +:+ String "-" (year +:+ String "-" month)).
  rewrite split_app by exact Hp1.
  rewrite split_app by exact Hy1.
  now rewrite split_absent.
Qed.

Lemma name_parts_basename dir name :
  Str.occurs "/" name = false ->
  name_parts (dir +:+ "/" +:+ name) = name_parts name.
Proof.
  intros H. unfold name_parts.
  now rewrite basename_dir, basename_plain.
Qed.

(** C4. A filename PAIR-YYYY-MM.ext, alone or below any directory, resolves
    to the identifier PAIR_YYYY_MM built from the three tokens exactly as
    they are written in the name. *)
Theorem get_table_name_valid (pair year month ext : string) :
  is_token pair = true -> is_token year = true -> is_token month = true ->
  Str.occurs "/" ext = false ->
  let name := pair +:+ "-" +:+ year +:+ "-" +:+ month +:+ "." +:+ ext in
  get_table_name name = Ok (pair +:+ "_" +:+ year +:+ "_" +:+ month) /\
  forall dir, get_table_name (dir +:+ "/" +:+ name)
              = Ok (pair +:+ "_" +:+ year +:+ "_" +:+ month).
Proof.
  intros Hp Hy Hm He name.
  assert (Hn : name_parts name = [pair; year; month])
    by now apply name_parts_of_stem.
  split.
  - now rewrite get_table_name_parts, Hn.
  - intros dir. rewrite get_table_name_parts, name_parts_basename, Hn; [reflexivity|].
    apply is_token_spec in Hp as (_ & _ & Hp3).
    apply is_token_spec in Hy as (_ & _ & Hy3).
    apply is_token_spec in Hm as (_ & _ & Hm3).
    unfold name. rewrite !occurs_app; simpl. now rewrite Hp3, Hy3, Hm3, He.
Qed.

Lemma get_table_name_valid_witness :
  get_table_name "GBPUSD-2024-08.zip" = Ok "GBPUSD_2024_08" /\
  get_table_name "./data/Aug2024/gbpusd-2024-8.zip" = Ok "gbpusd_2024_8".
Proof.
  split.
  - apply (get_table_name_valid "GBPUSD" "2024" "08" "zip"); reflexivity.
  - apply (proj2 (get_table_name_valid "gbpusd" "2024" "8" "zip"
                    eq_refl eq_refl eq_refl eq_refl) "./data/Aug2024").
Defined.

(** C3 (as the code has it). The resolver raises IndexError exactly when
    the basename, cut at its first dot, has fewer than three
    dash-separated tokens; with three or more tokens it succeeds, builds
    the identifier from the first three and ignores the others. *)
Theorem get_table_name_arity (filename : string) :
  (get_table_name filename = Raise IndexError
   <-> (length (name_parts filename) < 3)%nat) /\
  get_table_name filename =
    match name_parts filename with
    | p0 :: p1 :: p2 :: _ => Ok (p0 +:+ "_" +:+ p1 +:+ "_" +:+ p2)
    | _ => Raise IndexError
    end.
Proof.
  split; [|apply get_table_name_parts].
  rewrite get_table_name_parts.
  destruct (name_parts filename) as [|p0 [|p1 [|p2 rest]]]; simpl;
    split; intros H; try reflexivity; try lia; try discriminate.
Qed.

(** C3, refuted as stated: a name with four dash-separated tokens is
    resolved, not rejected. *)
Lemma get_table_name_four_tokens :
  ~ (forall filename,
       length (name_parts filename) <> 3%nat ->
       get_table_name filename = Raise IndexError).
Proof.
  intros H.
  specialize (H "EURUSD-2024-08-extra.zip").
  assert (E : get_table_name "EURUSD-2024-08-extra.zip" = Ok "EURUSD_2024_08")
    by reflexivity.
  rewrite E in H. discriminate H. vm_compute. lia.
Qed.

End TableName.

(** ** Admission filter: properties *)

Section Admission.


Lemma endswith_spec s suf :
  Str.endswith s suf = true <-> exists p, s = p +:+ suf.
Proof.
  induction s as [|c s IH].
  - change (Str.endswith "" suf) with (String.eqb "" suf || false).
    rewrite orb_false_r, String.eqb_eq. split.
    + intros <-. now exists "".
    + intros [p Hp]. destruct p; simpl in Hp; [assumption | discriminate].
  - change (Str.endswith (String c s) suf)
      with (String.eqb (String c s) suf || Str.endswith s suf).
    rewrite orb_true_iff, String.eqb_eq, IH. split.
    + intros [<- | [p ->]]; [now exists "" | now exists (String c p)].
    + intros [p Hp]. destruct p as [|d p]; simpl in Hp.
      * now left.
      * right. exists p. congruence.
Qed.



End Admission.

(** ** The matcher: soundness and first matches *)

#[local] Arguments digit_char : simpl never.
#[local] Arguments Re.in_range : simpl never.
#[local] Arguments Re.digit : simpl never.
#[local] Arguments Re.space : simpl never.
#[local] Arguments Unicode.decimal : simpl never.
#[local] Arguments Unicode.is_space : simpl never.
#[local] Arguments Utf8.decode1 : simpl never.
#[local] Arguments Utf8.byte : simpl never.

Section Characters.
Import Re.

Lemma take_drop k : forall s, Str.take k s +:+ Str.drop k s = s.
Proof.
  induction k as [|k IH]; intros s; [reflexivity|].
  destruct s as [|c s]; [reflexivity|]. cbn. now rewrite IH.
Qed.

Lemma head_sound s c m r : Utf8.head s = Some (c, m, r) -> s = m +:+ r.
Proof.
  destruct s as [|b s]; [discriminate|]. cbn [Utf8.head].
  destruct (Utf8.decode1 b s) as [c' k]. intros [= <- <- <-].
  cbn. now rewrite take_drop.
Qed.

Lemma one_sound p s m r : one p s = Some (m, r) -> s = m +:+ r.
Proof.
  unfold one. destruct (Utf8.head s) as [[[c m'] r']|] eqn:E; [|discriminate].
  destruct (mem p c); [|discriminate]. intros [= <- <-].
  eapply head_sound, E.
Qed.

(** an ASCII character is its byte *)
Lemma decode1_ascii b s :
  (Utf8.byte b <? 128)%N = true -> Utf8.decode1 b s = (Utf8.byte b, 0%nat).
Proof. intros H. unfold Utf8.decode1. now rewrite H. Qed.

Lemma one_ascii p b s :
  (Utf8.byte b <? 128)%N = true ->
  one p (String b s) = if mem p (Utf8.byte b) then Some (String b "", s) else None.
Proof.
  intros H. unfold one. cbn [Utf8.head]. now rewrite (decode1_ascii _ _ H).
Qed.

(** an ASCII digit: its code, its value, its classes *)
Lemma digit_code c :
  digit c = true ->
  (Utf8.byte c <? 128)%N = true /\
  Unicode.decimal (Utf8.byte c) = Some (Z.of_N (Utf8.byte c) - 48) /\
  Unicode.is_space (Utf8.byte c) = false /\
  (N_of_ascii "0" <=? Utf8.byte c)%N && (Utf8.byte c <=? N_of_ascii "9")%N = true /\
  0 <= Z.of_N (Utf8.byte c) - 48 < 10.
Proof.
  destruct c as [[] [] [] [] [] [] [] []]; intros H; vm_compute in H;
    try discriminate H; vm_compute; repeat split; discriminate.
Qed.

Lemma one_digit p c s :
  digit c = true -> p = Digit \/ p = Range "0" "9" ->
  one p (String c s) = Some (String c "", s).
Proof.
  intros H Hp. destruct (digit_code c H) as (A & D & _ & R & _).
  rewrite (one_ascii _ _ _ A). destruct Hp as [-> | ->]; cbn [mem].
  - rewrite D. reflexivity.
  - now rewrite R.
Qed.

Lemma one_space_digit c s : digit c = true -> one Space (String c s) = None.
Proof.
  intros H. destruct (digit_code c H) as (A & _ & S & _).
  rewrite (one_ascii _ _ _ A). cbn [mem]. now rewrite S.
Qed.

End Characters.

Section ReFacts.
Import Re.

Lemma greedy_sound p lo hi s m r :
  In (m, r) (greedy p lo hi s) -> s = m +:+ r.
Proof.
  revert lo s m r. induction hi as [|hi IH]; intros lo s m r; simpl.
  - destruct (lo =? 0)%nat; simpl; [intros [E|[]]; now inversion E | intros []].
  - rewrite in_app_iff. intros [H|H].
    + destruct (one p s) as [[ch s']|] eqn:E1; [|destruct H].
      apply in_map_iff in H as ([m' r'] & E & H). inversion E; subst.
      apply one_sound in E1 as ->. rewrite app_assoc_s. f_equal. eapply IH, H.
    + destruct (lo =? 0)%nat; simpl in H; [destruct H as [E|[]]; now inversion E | destruct H].
Qed.

(** every hit splits the input into matched text and remainder *)
Lemma matches_sound r : forall s c m rest,
  In (c, m, rest) (matches r s) -> s = m +:+ rest.
Proof.
  induction r as [|ch|p|r1 IH1 r2 IH2|r1 IH1 r2 IH2|p lo hi|p|name r IH];
    intros s c m rest; simpl.
  - intros [E|[]]. now inversion E.
  - destruct s as [|d s]; [intros []|].
    destruct (Ascii.eqb d ch); [|intros []]. intros [E|[]]. now inversion E.
  - destruct (one p s) as [[m' s']|] eqn:E1; [|intros []].
    intros [E|[]]. inversion E; subst. eapply one_sound, E1.
  - rewrite in_flat_map. intros ([[c1 m1] s1] & H1 & H2).
    apply in_map_iff in H2 as ([[c2 m2] s2] & E & H2). inversion E; subst.
    apply IH1 in H1. apply IH2 in H2. subst. now rewrite app_assoc_s.
  - rewrite in_app_iff. intros [H|H]; eauto.
  - intros H. apply in_map_iff in H as ([m' r'] & E & H). inversion E; subst.
    eapply greedy_sound, H.
  - intros H. apply in_map_iff in H as ([m' r'] & E & H). inversion E; subst.
    eapply greedy_sound, H.
  - intros H. apply in_map_iff in H as ([[c' m'] r'] & E & H). inversion E; subst.
    eapply IH, H.
Qed.

Lemma matches_needs ch r : forall s c m rest,
  needs ch r = true -> In (c, m, rest) (matches r s) -> Str.occurs ch m = true.
Proof.
  induction r as [|d|p|r1 IH1 r2 IH2|r1 IH1 r2 IH2|p lo hi|p|name r IH];
    intros s c m rest; simpl; try discriminate.
  - intros Hd. destruct s as [|e s]; [intros []|].
    destruct (Ascii.eqb e d) eqn:E; [|intros []]. intros [X|[]]. inversion X; subst.
    simpl. apply Ascii.eqb_eq in E. subst. now rewrite Hd.
  - intros Hn. rewrite in_flat_map. intros ([[c1 m1] s1] & H1 & H2).
    apply in_map_iff in H2 as ([[c2 m2] s2] & E & H2). inversion E; subst.
    rewrite occurs_app. apply orb_true_iff in Hn as [Hn|Hn].
    + now rewrite (IH1 _ _ _ _ Hn H1).
    + rewrite (IH2 _ _ _ _ Hn H2). apply orb_true_r.
  - intros Hn. apply andb_true_iff in Hn as [Hn1 Hn2].
    rewrite in_app_iff. intros [H|H]; eauto.
  - intros Hn H. apply in_map_iff in H as ([[c' m'] r'] & E & H). inversion E; subst.
    eapply IH; eauto.
Qed.

Lemma matches_absent ch r s :
  needs ch r = true -> Str.occurs ch s = false -> matches r s = [].
Proof.
  intros Hn Hs. destruct (matches r s) as [|[[c m] rest] l] eqn:E; [reflexivity|].
  assert (Hin : In (c, m, rest) (matches r s)) by (rewrite E; now left).
  pose proof (matches_sound _ _ _ _ _ Hin) as ->.
  pose proof (matches_needs _ _ _ _ _ _ Hn Hin) as Hm.
  rewrite occurs_app, Hm in Hs. discriminate.
Qed.

Lemma match_seq r1 r2 s c1 m1 s1 c2 m2 s2 :
  match_ r1 s = Some (c1, m1, s1) ->
  match_ r2 s1 = Some (c2, m2, s2) ->
  match_ (Seq r1 r2) s = Some (c1 ++ c2, m1 +:+ m2, s2).
Proof.
  unfold match_. simpl.
  destruct (matches r1 s) as [|h1 l1]; [discriminate|]. intros E1. inversion E1; subst.
  simpl. destruct (matches r2 s1) as [|h2 l2]; [discriminate|]. intros E2. inversion E2; subst.
  reflexivity.
Qed.

Lemma match_lit c s : match_ (Lit c) (String c s) = Some ([], String c "", s).
Proof. unfold match_. simpl. now rewrite Ascii.eqb_refl. Qed.

Lemma match_eps s : match_ Eps s = Some ([], "", s).
Proof. reflexivity. Qed.

End ReFacts.

Section Digits.
Import Re Strptime.

(** the codes of an ASCII text *)
#[local] Abbreviation codes s := (List.map Utf8.byte (list_ascii_of_string s)).

Lemma digit_char_spec k :
  0 <= k < 10 ->
  digit (digit_char k) = true /\ space (digit_char k) = false /\
  Unicode.decimal (Utf8.byte (digit_char k)) = Some k.
Proof.
  intros H.
  assert (C : k = 0 \/ k = 1 \/ k = 2 \/ k = 3 \/ k = 4 \/
              k = 5 \/ k = 6 \/ k = 7 \/ k = 8 \/ k = 9) by lia.
  repeat (destruct C as [-> | C]; [now vm_compute|]). subst. now vm_compute.
Qed.

Lemma mod10_bound n : 0 <= n mod 10 < 10.
Proof. apply Z.mod_pos_bound. lia. Qed.

Lemma length_app_s a b : String.length (a +:+ b) = (String.length a + String.length b)%nat.
Proof. induction a as [|c a IHa]; simpl; [reflexivity | now rewrite IHa]. Qed.

Lemma zpad_length w n : String.length (zpad w n) = w.
Proof.
  revert n. induction w as [|w IH]; intros n; simpl; [reflexivity|].
  rewrite length_app_s, IH. simpl. lia.
Qed.

Lemma all_digits_app a b : all_digits (a +:+ b) = all_digits a && all_digits b.
Proof. induction a as [|c a IH]; simpl; [reflexivity | now rewrite IH, andb_assoc]. Qed.

Lemma zpad_digits w n : all_digits (zpad w n) = true.
Proof.
  revert n. induction w as [|w IH]; intros n; simpl; [reflexivity|].
  rewrite all_digits_app, IH. cbn [all_digits andb].
  now rewrite (proj1 (digit_char_spec _ (mod10_bound n))).
Qed.

Lemma codes_app a b : codes (a +:+ b) = codes a ++ codes b.
Proof. induction a as [|c a IH]; cbn; [reflexivity | now rewrite IH]. Qed.

(** the characters of a text of ASCII digits are its bytes *)
Lemma chars_digits s : forall t,
  all_digits s = true -> Utf8.chars (s +:+ t) = codes s ++ Utf8.chars t.
Proof.
  unfold Utf8.chars. induction s as [|c s IH]; intros t Hs; [reflexivity|].
  cbn [all_digits] in Hs. apply andb_true_iff in Hs as [Hc Hs].
  cbn [String.append Utf8.chars_from].
  rewrite (decode1_ascii _ _ (proj1 (digit_code c Hc))). cbn.
  now rewrite IH.
Qed.

Lemma lstrip_digits s :
  all_digits s = true -> lstrip (codes s) = codes s.
Proof.
  destruct s as [|c s]; [reflexivity|]. cbn [all_digits].
  intros Hs. apply andb_true_iff in Hs as [Hc _]. cbn.
  destruct (digit_code c Hc) as (_ & _ & S & _). now rewrite S.
Qed.

(** [int] on a text of ASCII digits *)
Lemma int_digits s : all_digits s = true -> int s = int_acc 0 (codes s).
Proof.
  intros Hs. unfold int.
  rewrite <- (app_nil_r_s s) at 1. rewrite (chars_digits s "" Hs).
  cbn [Utf8.chars Utf8.chars_from]. rewrite app_nil_r.
  now rewrite lstrip_digits.
Qed.

Lemma int_acc_app s : forall a cs,
  all_digits s = true ->
  int_acc a (codes s ++ cs) = int_acc (int_acc a (codes s)) cs.
Proof.
  induction s as [|c s IH]; intros a cs Hs; [reflexivity|].
  cbn [all_digits] in Hs. apply andb_true_iff in Hs as [Hc Hs].
  destruct (digit_code c Hc) as (_ & D & _).
  cbn. rewrite D. now apply IH.
Qed.

Lemma int_acc_digit a c :
  digit c = true -> int_acc a [Utf8.byte c] = 10 * a + (Z.of_N (Utf8.byte c) - 48).
Proof. intros Hc. destruct (digit_code c Hc) as (_ & D & _). cbn. now rewrite D. Qed.

Lemma int_zpad w n : int (zpad w n) = n mod 10 ^ Z.of_nat w.
Proof.
  rewrite (int_digits _ (zpad_digits w n)). revert n.
  induction w as [|w IH]; intros n.
  - simpl. now rewrite Z.mod_1_r.
  - cbn [zpad]. rewrite codes_app, int_acc_app, IH by apply zpad_digits.
    cbn [list_ascii_of_string List.map int_acc].
    rewrite (proj2 (proj2 (digit_char_spec _ (mod10_bound n)))).
    rewrite Nat2Z.inj_succ, Z.pow_succ_r by lia.
    rewrite (Z.rem_mul_r n 10 (10 ^ Z.of_nat w)) by lia. lia.
Qed.

Lemma int_zpad_small w n : 0 <= n < 10 ^ Z.of_nat w -> int (zpad w n) = n.
Proof. intros H. rewrite int_zpad. now apply Z.mod_small. Qed.

Lemma int_acc_bound s : forall a,
  all_digits s = true -> 0 <= a ->
  0 <= int_acc a (codes s) < (a + 1) * 10 ^ Z.of_nat (String.length s).
Proof.
  induction s as [|c s IH]; intros a Hs Ha.
  - simpl. lia.
  - simpl in Hs. apply andb_true_iff in Hs as [Hc Hs].
    destruct (digit_code c Hc) as (_ & D & _ & _ & Hv).
    cbn [list_ascii_of_string List.map int_acc String.length]. rewrite D.
    rewrite Nat2Z.inj_succ, Z.pow_succ_r by lia.
    specialize (IH (10 * a + (Z.of_N (Utf8.byte c) - 48)) Hs ltac:(lia)).
    nia.
Qed.

Lemma int_bound s :
  all_digits s = true -> 0 <= int s < 10 ^ Z.of_nat (String.length s).
Proof.
  intros Hs. rewrite (int_digits s Hs).
  pose proof (int_acc_bound s 0 Hs ltac:(lia)). lia.
Qed.

Lemma zeros_digits n : all_digits (zeros n) = true.
Proof. induction n; simpl; [reflexivity | exact IHn]. Qed.

Lemma zeros_length n : String.length (zeros n) = n.
Proof. induction n; simpl; [reflexivity | now rewrite IHn]. Qed.

Lemma digit_char_code c :
  digit c = true -> digit_char (Z.of_N (Utf8.byte c) - 48) = c.
Proof.
  destruct c as [[] [] [] [] [] [] [] []]; intros H; vm_compute in H;
    try discriminate H; reflexivity.
Qed.

(** a text of digits is the padded decimal of its value *)
Lemma zpad_int : forall s,
  all_digits s = true -> zpad (String.length s) (int s) = s.
Proof.
  (* by induction from the right end, through the reversed view *)
  assert (G : forall n s, String.length s = n -> all_digits s = true ->
                          forall a, int_acc a (codes s) mod 10 ^ Z.of_nat n
                                    = int_acc 0 (codes s) /\
                                    zpad n (int_acc a (codes s)) = s).
  { induction n as [|n IH]; intros s Hl Hs a.
    - destruct s; [|discriminate]. simpl. now rewrite Z.mod_1_r.
    - (* split off the last character *)
      assert (E : exists s' c, s = s' +:+ String c "" /\ String.length s' = n).
      { clear IH Hs a. revert n Hl. induction s as [|d s IHs]; intros n Hl; [discriminate|].
        destruct s as [|e s].
        - exists "", d. simpl in *. split; [reflexivity | lia].
        - destruct n as [|n]; [discriminate|].
          destruct (IHs n) as (s' & c & E & L); [simpl in *; lia|].
          exists (String d s'), c. rewrite E. simpl. split; [reflexivity | lia]. }
      destruct E as (s' & c & -> & Hl').
      rewrite all_digits_app in Hs. apply andb_true_iff in Hs as [Hs' Hc].
      simpl in Hc. rewrite andb_true_r in Hc.
      destruct (digit_code c Hc) as (_ & _ & _ & _ & Hv).
      pose proof (digit_char_code c Hc) as Hdc.
      set (v := Z.of_N (Utf8.byte c) - 48) in *.
      rewrite !codes_app, !(int_acc_app s') by exact Hs'.
      cbn [list_ascii_of_string List.map]. rewrite !(int_acc_digit _ c Hc).
      fold v. cbn [zpad].
      destruct (IH s' Hl' Hs' a) as [IH1 IH2].
      destruct (IH s' Hl' Hs' 0) as [IH3 IH4].
      assert (Hm : forall x, (10 * x + v) mod 10 = v).
      { intros x. rewrite Z.add_comm, Z.mul_comm, Z.mod_add by lia.
        now apply Z.mod_small. }
      assert (Hd : forall x, (10 * x + v) / 10 = x).
      { intros x. rewrite Z.add_comm, Z.mul_comm, Z.div_add by lia.
        rewrite Z.div_small by lia. lia. }
      split.
      + rewrite Nat2Z.inj_succ, Z.pow_succ_r by lia.
        rewrite !(Z.rem_mul_r _ 10 (10 ^ Z.of_nat n)) by lia.
        rewrite !Hm, !Hd. rewrite IH1. lia.
      + rewrite Hm, Hd, Hdc, IH2. reflexivity. }
  intros s Hs. rewrite (int_digits s Hs). exact (proj2 (G _ s eq_refl Hs 0)).
Qed.

End Digits.

Ltac enum v k hi tac :=
  let b := eval compute in (k <=? hi) in
  lazymatch b with
  | true =>
      let H := fresh in
      destruct (Z.eq_dec v k) as [->|H];
      [ tac
      | let k' := eval compute in (k + 1) in
        assert (k' <= v) by lia; clear H; enum v k' hi tac ]
  | false => lia
  end.

Section Fields.
Import Re Strptime.

Lemma zpad2_cons v rest :
  zpad 2 v +:+ rest =
  String (digit_char ((v / 10) mod 10)) (String (digit_char (v mod 10)) rest).
Proof. reflexivity. Qed.

Lemma match_plus_space c s :
  digit c = true ->
  match_ (Plus Space) (String " " (String c s)) = Some ([], String " " "", String c s).
Proof.
  intros Hc. unfold match_.
  cbn [matches String.length greedy].
  rewrite (one_ascii Space " " _ eq_refl). change (mem Space (Utf8.byte " ")) with true.
  cbn [Nat.pred Nat.eqb]. rewrite (one_space_digit _ _ Hc). reflexivity.
Qed.

Lemma match_group name r s c m s' :
  match_ r s = Some (c, m, s') ->
  match_ (Group name r) s = Some ((name, m) :: c, m, s').
Proof.
  unfold match_. cbn [matches].
  destruct (matches r s) as [|h l]; [discriminate|].
  intros E. injection E as ->. reflexivity.
Qed.

Lemma match_year y rest r :
  directive "Y" = Some r ->
  match_ r (zpad 4 y +:+ rest) = Some ([("Y"%char, zpad 4 y)], zpad 4 y, rest).
Proof.
  intros E. vm_compute in E. injection E as <-.
  change (zpad 4 y +:+ rest) with
    (String (digit_char (((y / 10) / 10 / 10) mod 10))
       (String (digit_char (((y / 10) / 10) mod 10))
          (String (digit_char ((y / 10) mod 10))
             (String (digit_char (y mod 10)) rest)))).
  assert (D : forall k s, match_ (Class Digit) (String (digit_char (k mod 10)) s)
                          = Some ([], String (digit_char (k mod 10)) "", s)).
  { intros k s. unfold match_. cbn [matches].
    now rewrite (one_digit Digit _ _ (proj1 (digit_char_spec _ (mod10_bound k)))
                   (or_introl eq_refl)). }
  apply match_group.
  exact (match_seq _ _ _ _ _ _ _ _ _ (D _ _)
           (match_seq _ _ _ _ _ _ _ _ _ (D _ _)
              (match_seq _ _ _ _ _ _ _ _ _ (D _ _) (D _ _)))).
Qed.

Lemma match_month v rest r :
  directive "m" = Some r -> 1 <= v <= 12 ->
  match_ r (zpad 2 v +:+ rest) = Some ([("m"%char, zpad 2 v)], zpad 2 v, rest).
Proof.
  intros E H. vm_compute in E. injection E as <-.
  enum v 1 12 ltac:(reflexivity).
Qed.

Lemma match_day v rest r :
  directive "d" = Some r -> 1 <= v <= 31 ->
  match_ r (zpad 2 v +:+ rest) = Some ([("d"%char, zpad 2 v)], zpad 2 v, rest).
Proof.
  intros E H. vm_compute in E. injection E as <-.
  enum v 1 31 ltac:(reflexivity).
Qed.

Lemma match_hour v rest r :
  directive "H" = Some r -> 0 <= v <= 23 ->
  match_ r (zpad 2 v +:+ rest) = Some ([("H"%char, zpad 2 v)], zpad 2 v, rest).
Proof.
  intros E H. vm_compute in E. injection E as <-.
  enum v 0 23 ltac:(reflexivity).
Qed.

Lemma match_minute v rest r :
  directive "M" = Some r -> 0 <= v <= 59 ->
  match_ r (zpad 2 v +:+ rest) = Some ([("M"%char, zpad 2 v)], zpad 2 v, rest).
Proof.
  intros E H. vm_compute in E. injection E as <-.
  enum v 0 59 ltac:(reflexivity).
Qed.

Lemma match_second v rest r :
  directive "S" = Some r -> 0 <= v <= 59 ->
  match_ r (zpad 2 v +:+ rest) = Some ([("S"%char, zpad 2 v)], zpad 2 v, rest).
Proof.
  intros E H. vm_compute in E. injection E as <-.
  enum v 0 59 ltac:(reflexivity).
Qed.

Lemma greedy_all p : forall m lo hi,
  p = Digit \/ p = Range "0" "9" ->
  all_digits m = true -> (lo <= String.length m <= hi)%nat ->
  List.head (greedy p lo hi m) = Some (m, "").
Proof.
  induction m as [|c m IH]; intros lo hi Hp Hm Hl; simpl in Hl.
  - assert (lo = 0%nat) as -> by lia. destruct hi; reflexivity.
  - destruct hi as [|hi]; [lia|].
    simpl in Hm. apply andb_true_iff in Hm as [Hc Hm].
    cbn [greedy]. rewrite (one_digit p c m Hc Hp).
    specialize (IH (Nat.pred lo) hi Hp Hm ltac:(lia)).
    destruct (greedy p (Nat.pred lo) hi m) as [|[m' r'] l]; [discriminate|].
    simpl in IH. injection IH as -> ->. reflexivity.
Qed.

Lemma match_fraction frac r :
  directive "f" = Some r ->
  all_digits frac = true -> (1 <= String.length frac <= 6)%nat ->
  match_ r frac = Some ([("f"%char, frac)], frac, "").
Proof.
  intros E Hd Hl. vm_compute in E. injection E as <-.
  unfold match_. cbn [matches].
  pose proof (greedy_all (Range "0" "9") frac 1 6 (or_intror eq_refl) Hd Hl) as G.
  destruct (greedy (Range "0" "9") 1 6 frac) as [|[m' r'] l]; [discriminate|].
  simpl in G. injection G as -> ->. reflexivity.
Qed.

End Fields.

Section Parse.
Import Re Strptime.

Variables y m d H M S : Z.
Hypothesis Hvalid : valid_clock y m d H M S = true.

Lemma valid_clock_ranges :
  1 <= y <= 9999 /\ 1 <= m <= 12 /\ 1 <= d <= 31 /\
  0 <= H <= 23 /\ 0 <= M <= 59 /\ 0 <= S <= 59.
Proof.
  unfold valid_clock, within in Hvalid.
  repeat (apply andb_true_iff in Hvalid as [Hvalid ?]).
  assert (days_in_month y m <= 31).
  { unfold days_in_month.
    destruct (m =? 2); [destruct (is_leap y); lia|].
    destruct ((m =? 4) || (m =? 6) || (m =? 9) || (m =? 11)); lia. }
  lia.
Qed.

#[local] Abbreviation caps := (clock_captures y m d H M S).

Lemma stamp_app rest :
  stamp y m d H M S +:+ rest =
  zpad 4 y +:+ (zpad 2 m +:+ (zpad 2 d +:+ String " "
    (zpad 2 H +:+ String ":" (zpad 2 M +:+ String ":" (zpad 2 S +:+ rest))))).
Proof. unfold stamp. now rewrite !app_assoc_s. Qed.

(** the expression of %Y%m%d %H:%M:%S followed by [K], on the text of a
    valid wall-clock time followed by [rest] *)
Lemma match_clock rY rm rd rH rM rS K rest c mt s' :
  directive "Y" = Some rY -> directive "m" = Some rm ->
  directive "d" = Some rd -> directive "H" = Some rH ->
  directive "M" = Some rM -> directive "S" = Some rS ->
  match_ K rest = Some (c, mt, s') ->
  exists whole,
    match_ (Seq rY (Seq rm (Seq rd (Seq (Plus Space) (Seq rH (Seq (Lit ":")
             (Seq rM (Seq (Lit ":") (Seq rS K)))))))))
           (stamp y m d H M S +:+ rest)
    = Some (caps ++ c, whole, s').
Proof.
  intros EY Em Ed EH EM ES HK.
  destruct valid_clock_ranges as (Ry & Rm & Rd & RH & RM & RS).
  rewrite stamp_app. eexists.
  refine (match_seq _ _ _ _ _ _ _ _ _ (match_year y _ _ EY) _).
  refine (match_seq _ _ _ _ _ _ _ _ _ (match_month m _ _ Em Rm) _).
  refine (match_seq _ _ _ _ _ _ _ _ _ (match_day d _ _ Ed Rd) _).
  rewrite (zpad2_cons H).
  refine (match_seq _ _ _ _ _ _ _ _ _ (match_plus_space _ _ _) _).
  { apply (digit_char_spec _ (mod10_bound _)). }
  rewrite <- (zpad2_cons H).
  refine (match_seq _ _ _ _ _ _ _ _ _ (match_hour H _ _ EH RH) _).
  refine (match_seq _ _ _ _ _ _ _ _ _ (match_lit _ _) _).
  refine (match_seq _ _ _ _ _ _ _ _ _ (match_minute M _ _ EM RM) _).
  refine (match_seq _ _ _ _ _ _ _ _ _ (match_lit _ _) _).
  refine (match_seq _ _ _ _ _ _ _ _ _ (match_second S _ _ ES RS) _).
  exact HK.
Qed.

Lemma clock_fields c us :
  0 <= us <= 999999 ->
  datetime_new (field "Y" 1900 (caps ++ c)) (field "m" 1 (caps ++ c))
               (field "d" 1 (caps ++ c)) (field "H" 0 (caps ++ c))
               (field "M" 0 (caps ++ c)) (field "S" 0 (caps ++ c)) us
  = Ok (mk_datetime y m d H M S us).
Proof.
  intros Hus.
  destruct valid_clock_ranges as (Ry & Rm & Rd & RH & RM & RS).
  unfold field, clock_captures. cbn [app group Ascii.eqb Bool.eqb andb].
  rewrite !int_zpad_small by (cbn; lia).
  unfold datetime_new. fold (valid_clock y m d H M S). rewrite Hvalid.
  unfold within. cbn [andb].
  destruct (Z.leb_spec 0 us); [|lia]. destruct (Z.leb_spec us 999999); [|lia].
  reflexivity.
Qed.

Lemma all_digits_no_dot s : all_digits s = true -> Str.occurs "." s = false.
Proof.
  induction s as [|c s IH]; [reflexivity|]. cbn [all_digits Str.occurs].
  intros Hs. apply andb_true_iff in Hs as [Hc Hs]. rewrite (IH Hs), orb_false_r.
  destruct (Ascii.eqb c ".") eqn:E; [|reflexivity].
  apply Ascii.eqb_eq in E. subst. discriminate Hc.
Qed.

Lemma stamp_no_dot : Str.occurs "." (stamp y m d H M S) = false.
Proof.
  unfold stamp. rewrite !occurs_app.
  rewrite !(all_digits_no_dot _ (zpad_digits _ _)). reflexivity.
Qed.

(** the whole-second text under the whole-second format *)
Lemma strptime_seconds :
  strptime (stamp y m d H M S) "%Y%m%d %H:%M:%S" = Ok (mk_datetime y m d H M S 0).
Proof.
  unfold strptime.
  destruct (pattern "%Y%m%d %H:%M:%S") as [r|] eqn:E; [|now vm_compute in E].
  destruct (match_clock _ _ _ _ _ _ Eps "" [] "" ""
              eq_refl eq_refl eq_refl eq_refl eq_refl eq_refl (match_eps _))
    as [whole Hm].
  rewrite app_nil_r_s in Hm.
  vm_compute in E. injection E as <-.
  rewrite Hm. cbn [String.eqb negb].
  unfold fraction. rewrite app_nil_r. cbn [clock_captures group Ascii.eqb Bool.eqb andb].
  rewrite <- (app_nil_r caps). apply clock_fields. lia.
Qed.

(** the whole-second text is refused by the fractional format *)
Lemma strptime_seconds_fraction :
  strptime (stamp y m d H M S) "%Y%m%d %H:%M:%S.%f" = Raise ValueError.
Proof.
  unfold strptime.
  destruct (pattern "%Y%m%d %H:%M:%S.%f") as [r|] eqn:E; [|reflexivity].
  assert (Hn : needs "." r = true) by (vm_compute in E; now injection E as <-).
  unfold match_. now rewrite (matches_absent "." r _ Hn stamp_no_dot).
Qed.

Variable frac : string.
Hypothesis Hfrac : all_digits frac = true.
Hypothesis Hlen : (1 <= String.length frac <= 6)%nat.

(** the fractional text under the fractional format *)
Lemma strptime_fraction :
  strptime (stamp y m d H M S +:+ "." +:+ frac) "%Y%m%d %H:%M:%S.%f"
  = Ok (mk_datetime y m d H M S (int (frac +:+ zeros (6 - String.length frac)))).
Proof.
  unfold strptime.
  destruct (pattern "%Y%m%d %H:%M:%S.%f") as [r|] eqn:E; [|now vm_compute in E].
  assert (HK : match_ (Seq (Lit ".") (Seq (Group "f" (Repeat (Range "0" "9") 1 6)) Eps))
                 (String "." frac)
               = Some ([] ++ [("f"%char, frac)] ++ [], String "." "" +:+ frac +:+ "", "")).
  { refine (match_seq _ _ _ _ _ _ _ _ _ (match_lit _ _) _).
    refine (match_seq _ _ _ _ _ _ _ _ _ (match_fraction _ _ eq_refl Hfrac Hlen) (match_eps _)). }
  destruct (match_clock _ _ _ _ _ _ _ _ _ _ _
              eq_refl eq_refl eq_refl eq_refl eq_refl eq_refl HK)
    as [whole Hm].
  vm_compute in E. injection E as <-.
  change (stamp y m d H M S +:+ "." +:+ frac)
    with (stamp y m d H M S +:+ String "." frac).
  rewrite Hm. cbn [String.eqb negb].
  assert (F : fraction (caps ++ [] ++ [("f"%char, frac)] ++ [])
              = int (frac +:+ zeros (6 - String.length frac))) by reflexivity.
  rewrite F. apply clock_fields.
  pose proof (int_bound (frac +:+ zeros (6 - String.length frac))) as B.
  rewrite all_digits_app, Hfrac, zeros_digits in B. specialize (B eq_refl).
  rewrite length_app_s, zeros_length in B.
  replace (String.length frac + (6 - String.length frac))%nat with 6%nat in B by lia.
  change (10 ^ Z.of_nat 6) with 1000000 in B. lia.
Qed.

End Parse.

(** ** Timestamp Normalizer: properties *)

Section Normalizer.
Import Re Strptime.

Lemma datetime_new_raises y m d H M S us e :
  datetime_new y m d H M S us = Raise e -> e = ValueError.
Proof.
  unfold datetime_new.
  destruct (_ && _); [discriminate | now intros [= <-]].
Qed.

Lemma strptime_raises (s : string) fmt e :
  strptime s fmt = Raise e -> e = ValueError.
Proof.
  unfold strptime.
  destruct (pattern fmt) as [r|]; [|now intros [= <-]].
  destruct (match_ r s) as [[[found mt] rest]|]; [|now intros [= <-]].
  destruct (negb (String.eqb rest "")); [now intros [= <-]|].
  apply datetime_new_raises.
Qed.

(** the fractional format first, the whole-second format on its failure *)
Lemma parse_timestamp_fallback (s : string) :
  parse_timestamp s =
  match strptime s "%Y%m%d %H:%M:%S.%f" with
  | Ok dt => Ok dt
  | Raise _ => strptime s "%Y%m%d %H:%M:%S"
  end.
Proof.
  unfold parse_timestamp.
  destruct (strptime s "%Y%m%d %H:%M:%S.%f") as [dt|e] eqn:E; [reflexivity|].
  now rewrite (strptime_raises _ _ _ E).
Qed.

Lemma parse_timestamp_raises (s : string) e :
  parse_timestamp s = Raise e -> e = ValueError.
Proof.
  rewrite parse_timestamp_fallback.
  destruct (strptime s "%Y%m%d %H:%M:%S.%f"); [discriminate|].
  apply strptime_raises.
Qed.

(** a cell that is no text is refused with TypeError, a text with
    ValueError *)
Lemma parse_timestamp_cell c e :
  parse_timestamp c = Raise e ->
  match c with Text _ => e = ValueError | NonText => e = TypeError end.
Proof.
  destruct c as [s|]; [apply parse_timestamp_raises|].
  now intros [= <-].
Qed.

Lemma str_int_fuel_zpad : forall w fuel n,
  (1 <= w <= fuel)%nat -> 10 ^ (Z.of_nat w - 1) <= n < 10 ^ Z.of_nat w ->
  str_int_fuel fuel n = zpad w n.
Proof.
  induction w as [|w IH]; intros fuel n Hw Hn; [lia|].
  destruct fuel as [|fuel]; [lia|]. cbn [str_int_fuel zpad].
  destruct w as [|w].
  - change (10 ^ Z.of_nat 1) with 10 in Hn.
    destruct (Z.ltb_spec n 10); [reflexivity | lia].
  - assert (P : 0 < 10 ^ Z.of_nat w) by (apply Z.pow_pos_nonneg; lia).
    assert (E1 : 10 ^ Z.of_nat (S w) = 10 * 10 ^ Z.of_nat w)
      by (rewrite Nat2Z.inj_succ, Z.pow_succ_r by lia; reflexivity).
    assert (E2 : 10 ^ Z.of_nat (S (S w)) = 10 * 10 ^ Z.of_nat (S w))
      by (rewrite (Nat2Z.inj_succ (S w)), Z.pow_succ_r by lia; reflexivity).
    replace (Z.of_nat (S (S w)) - 1) with (Z.of_nat (S w)) in Hn by lia.
    destruct (Z.ltb_spec n 10); [lia|].
    rewrite (IH fuel (n / 10)); [reflexivity | lia |].
    replace (Z.of_nat (S w) - 1) with (Z.of_nat w) by lia.
    split.
    + apply Z.div_le_lower_bound; lia.
    + apply Z.div_lt_upper_bound; lia.
Qed.

(** the year in its own digits is the padded year from 1000 on *)
Lemma str_int_zpad w n :
  (1 <= w)%nat -> 10 ^ (Z.of_nat w - 1) <= n < 10 ^ Z.of_nat w ->
  str_int n = zpad w n.
Proof.
  intros Hw Hn. apply str_int_fuel_zpad; [|exact Hn].
  assert (P : 0 < 10 ^ (Z.of_nat w - 1)) by (apply Z.pow_pos_nonneg; lia).
  assert (L : Z.of_nat w - 1 <= Z.log2 n).
  { apply Z.log2_le_pow2; [lia|].
    transitivity (10 ^ (Z.of_nat w - 1)); [|lia].
    apply Z.pow_le_mono_l. lia. }
  lia.
Qed.

Lemma str_int_year y : 1000 <= y <= 9999 -> str_int y = zpad 4 y.
Proof. intros H. apply str_int_zpad; [lia|]. cbn. lia. Qed.

Lemma str_int_length n :
  1 <= n <= 9999 ->
  String.length (str_int n)
  = if n <? 10 then 1%nat else if n <? 100 then 2%nat
    else if n <? 1000 then 3%nat else 4%nat.
Proof.
  intros H.
  destruct (Z.ltb_spec n 10);
    [rewrite (str_int_zpad 1) by (cbn; lia); apply zpad_length|].
  destruct (Z.ltb_spec n 100);
    [rewrite (str_int_zpad 2) by (cbn; lia); apply zpad_length|].
  destruct (Z.ltb_spec n 1000);
    [rewrite (str_int_zpad 3) by (cbn; lia); apply zpad_length|].
  rewrite (str_int_zpad 4) by (cbn; lia). apply zpad_length.
Qed.

Lemma take_app a b k :
  Str.take (String.length a + k) (a +:+ b) = a +:+ Str.take k b.
Proof. induction a as [|c a IH]; simpl; [reflexivity | now rewrite IH]. Qed.

Lemma drop_last_app n a b :
  (n <= String.length b)%nat ->
  Str.drop_last n (a +:+ b) = a +:+ Str.drop_last n b.
Proof.
  intros H. unfold Str.drop_last. rewrite length_app_s.
  replace (String.length a + String.length b - n)%nat
    with (String.length a + (String.length b - n))%nat by lia.
  apply take_app.
Qed.

Lemma literal_split y m d H M S f :
  literal y m d H M S f = literal y m d H M S "" +:+ f.
Proof. unfold literal. rewrite !app_assoc_s. reflexivity. Qed.

Lemma strftime_literal y m d H M S us :
  strftime (mk_datetime y m d H M S us) "%Y-%m-%d %H:%M:%S.%f"
  = literal y m d H M S (zpad 6 us).
Proof.
  unfold literal. cbn [strftime strftime_directive Ascii.eqb Bool.eqb andb
                        year month day hour minute second microsecond].
  now rewrite app_nil_r_s.
Qed.

(** the literal of the helper: the first three of the six fraction digits *)
Lemma format_datetime_with_ms_digits y m d H M S s6 :
  all_digits s6 = true -> String.length s6 = 6%nat ->
  format_datetime_with_ms (mk_datetime y m d H M S (int s6))
  = literal y m d H M S (Str.take 3 s6).
Proof.
  intros Hd Hl. unfold format_datetime_with_ms.
  rewrite strftime_literal.
  rewrite <- Hl at 1. rewrite (zpad_int _ Hd).
  rewrite literal_split, drop_last_app by lia.
  rewrite (literal_split _ _ _ _ _ _ (Str.take 3 s6)).
  unfold Str.drop_last. now rewrite Hl.
Qed.

Lemma take3_fraction frac :
  (1 <= String.length frac <= 6)%nat ->
  Str.take 3 (frac +:+ zeros (6 - String.length frac))
  = Str.take 3 (frac +:+ "000").
Proof.
  destruct frac as [|a [|b [|c [|d [|e [|f [|g frac]]]]]]]; simpl; intros H;
    try reflexivity; lia.
Qed.

Lemma to_values_timestamps chunk : forall values,
  to_values chunk = Ok values ->
  Forall2 (fun row v => parse_timestamp (c_timestamp row) = Ok (timestamp v)
                        /\ bid v = c_bid row /\ ask v = c_ask row)
          chunk values.
Proof.
  induction chunk as [|row chunk IH]; intros values; cbn [to_values].
  - intros [= <-]. constructor.
  - destruct (parse_timestamp (c_timestamp row)) as [dt|e] eqn:E; [|discriminate].
    destruct (to_values chunk) as [vs|e]; [|discriminate].
    intros [= <-]. constructor; [now split | now apply IH].
Qed.

Lemma parse_fraction_text y m d H M S frac :
  valid_clock y m d H M S = true ->
  all_digits frac = true -> (1 <= String.length frac <= 6)%nat ->
  parse_timestamp (stamp y m d H M S +:+ "." +:+ frac)
  = Ok (mk_datetime y m d H M S (int (frac +:+ zeros (6 - String.length frac)))).
Proof.
  intros Hv Hd Hl. unfold parse_timestamp.
  now rewrite (strptime_fraction _ _ _ _ _ _ Hv _ Hd Hl).
Qed.

Lemma greedy_prefix p : forall m rest lo hi,
  p = Digit \/ p = Range "0" "9" ->
  all_digits m = true -> String.length m = hi -> (lo <= hi)%nat ->
  List.head (greedy p lo hi (m +:+ rest)) = Some (m, rest).
Proof.
  induction m as [|c m IH]; intros rest lo hi Hp Hm Hl Hlo; simpl in Hl; subst hi.
  - assert (lo = 0%nat) as -> by lia. reflexivity.
  - simpl in Hm. apply andb_true_iff in Hm as [Hc Hm].
    cbn [greedy String.append]. rewrite (one_digit p c _ Hc Hp).
    specialize (IH rest (Nat.pred lo) _ Hp Hm eq_refl ltac:(lia)).
    destruct (greedy p (Nat.pred lo) (String.length m) (m +:+ rest))
      as [|[m' r'] l]; [discriminate|].
    simpl in IH. injection IH as -> ->. reflexivity.
Qed.

Lemma take_digits k : forall s, all_digits s = true -> all_digits (Str.take k s) = true.
Proof.
  induction k as [|k IH]; intros s Hs; [reflexivity|].
  destruct s as [|c s]; [reflexivity|]. simpl in Hs.
  apply andb_true_iff in Hs as [Hc Hs]. cbn. now rewrite Hc, IH.
Qed.

Lemma take_length k : forall s,
  (k <= String.length s)%nat -> String.length (Str.take k s) = k.
Proof.
  induction k as [|k IH]; intros s Hs; [reflexivity|].
  destruct s as [|c s]; simpl in Hs; [lia|]. cbn. rewrite IH; lia.
Qed.

Lemma drop_length k : forall s,
  String.length (Str.drop k s) = (String.length s - k)%nat.
Proof.
  induction k as [|k IH]; intros s; [cbn; lia|].
  destruct s as [|c s]; [reflexivity|]. cbn. apply IH.
Qed.

(** of a longer fraction the directive takes six digits and leaves the
    rest *)
Lemma match_fraction_long frac r :
  directive "f" = Some r ->
  all_digits frac = true -> (6 <= String.length frac)%nat ->
  match_ r frac
  = Some ([("f"%char, Str.take 6 frac)], Str.take 6 frac, Str.drop 6 frac).
Proof.
  intros E Hd Hl. vm_compute in E. injection E as <-.
  unfold match_. cbn [matches].
  pose proof (greedy_prefix (Range "0" "9") (Str.take 6 frac) (Str.drop 6 frac) 1 6
                (or_intror eq_refl) (take_digits 6 _ Hd) (take_length 6 _ Hl)
                ltac:(lia)) as G.
  rewrite take_drop in G.
  destruct (greedy (Range "0" "9") 1 6 frac) as [|[m' r'] l]; [discriminate|].
  simpl in G. injection G as -> ->. reflexivity.
Qed.

Lemma nonempty_neqb s : (1 <= String.length s)%nat -> String.eqb s "" = false.
Proof. destruct s; simpl; [lia | reflexivity]. Qed.

(** a fraction of seven digits or more: the fractional format leaves the
    seventh digit unconverted, the whole-second format the dot *)
Lemma parse_long_fraction y m d H M S frac :
  valid_clock y m d H M S = true ->
  all_digits frac = true -> (7 <= String.length frac)%nat ->
  parse_timestamp (stamp y m d H M S +:+ "." +:+ frac) = Raise ValueError.
Proof.
  intros Hv Hd Hl.
  assert (F1 : strptime (stamp y m d H M S +:+ "." +:+ frac) "%Y%m%d %H:%M:%S.%f"
               = Raise ValueError).
  { unfold strptime.
    destruct (pattern "%Y%m%d %H:%M:%S.%f") as [r|] eqn:E; [|reflexivity].
    assert (HK : match_ (Seq (Lit ".") (Seq (Group "f" (Repeat (Range "0" "9") 1 6)) Eps))
                   (String "." frac)
                 = Some ([] ++ [("f"%char, Str.take 6 frac)] ++ [],
                         String "." "" +:+ Str.take 6 frac +:+ "", Str.drop 6 frac)).
    { refine (match_seq _ _ _ _ _ _ _ _ _ (match_lit _ _) _).
      refine (match_seq _ _ _ _ _ _ _ _ _
                (match_fraction_long _ _ eq_refl Hd ltac:(lia)) (match_eps _)). }
    destruct (match_clock y m d H M S Hv _ _ _ _ _ _ _ _ _ _ _
                eq_refl eq_refl eq_refl eq_refl eq_refl eq_refl HK)
      as [whole Hm].
    vm_compute in E. injection E as <-.
    change (stamp y m d H M S +:+ "." +:+ frac)
      with (stamp y m d H M S +:+ String "." frac).
    rewrite Hm. rewrite nonempty_neqb; [reflexivity|].
    rewrite drop_length. lia. }
  assert (F2 : strptime (stamp y m d H M S +:+ "." +:+ frac) "%Y%m%d %H:%M:%S"
               = Raise ValueError).
  { unfold strptime.
    destruct (pattern "%Y%m%d %H:%M:%S") as [r|] eqn:E; [|reflexivity].
    destruct (match_clock y m d H M S Hv _ _ _ _ _ _ Eps (String "." frac) [] "" _
                eq_refl eq_refl eq_refl eq_refl eq_refl eq_refl (match_eps _))
      as [whole Hm].
    vm_compute in E. injection E as <-.
    change (stamp y m d H M S +:+ "." +:+ frac)
      with (stamp y m d H M S +:+ String "." frac).
    rewrite Hm. reflexivity. }
  unfold parse_timestamp. now rewrite F1, F2.
Qed.

Lemma parse_seconds_text y m d H M S :
  valid_clock y m d H M S = true ->
  parse_timestamp (stamp y m d H M S) = Ok (mk_datetime y m d H M S 0).
Proof.
  intros Hv. unfold parse_timestamp.
  rewrite (strptime_seconds_fraction y m d H M S).
  now apply strptime_seconds.
Qed.

(** C8 (as the code has it).  A text YYYYMMDD HH:MM:SS of a valid
    wall-clock time followed by a dot and one to six digits parses, under
    the fractional format, to that time with the digits right-padded to
    microseconds; with a fraction of seven digits or more it is refused
    by both formats and raises ValueError; the same text without
    fraction parses through the fallback to the whole-second format; the
    fractional format is always tried first and the whole-second format
    only on its failure; a text that both formats refuse raises
    ValueError. *)
Theorem parse_timestamp_forms (y m d H M S : Z) (frac : string) :
  valid_clock y m d H M S = true ->
  all_digits frac = true -> (1 <= String.length frac)%nat ->
  ((String.length frac <= 6)%nat ->
   parse_timestamp (stamp y m d H M S +:+ "." +:+ frac)
   = Ok (mk_datetime y m d H M S (int (frac +:+ zeros (6 - String.length frac))))) /\
  ((7 <= String.length frac)%nat ->
   parse_timestamp (stamp y m d H M S +:+ "." +:+ frac) = Raise ValueError) /\
  strptime (stamp y m d H M S) "%Y%m%d %H:%M:%S.%f" = Raise ValueError /\
  parse_timestamp (stamp y m d H M S) = Ok (mk_datetime y m d H M S 0) /\
  (forall s : string,
      parse_timestamp s =
      match strptime s "%Y%m%d %H:%M:%S.%f" with
      | Ok dt => Ok dt
      | Raise _ => strptime s "%Y%m%d %H:%M:%S"
      end) /\
  (forall s : string,
      is_ok (strptime s "%Y%m%d %H:%M:%S.%f") = false ->
      is_ok (strptime s "%Y%m%d %H:%M:%S") = false ->
      parse_timestamp s = Raise ValueError).
Proof.
  intros Hv Hd Hl. repeat split.
  - intros Hl6. apply parse_fraction_text; [assumption | assumption | lia].
  - intros Hl7. now apply parse_long_fraction.
  - now apply strptime_seconds_fraction.
  - now apply parse_seconds_text.
  - apply parse_timestamp_fallback.
  - intros s H1 H2. rewrite parse_timestamp_fallback.
    destruct (strptime s "%Y%m%d %H:%M:%S.%f") as [dt1|e1]; [discriminate|].
    destruct (strptime s "%Y%m%d %H:%M:%S") as [dt2|e2] eqn:E; [discriminate|].
    now rewrite (strptime_raises _ _ _ E).
Qed.

Lemma parse_timestamp_forms_witness :
  parse_timestamp "20240801 00:00:00.110"
    = Ok (mk_datetime 2024 8 1 0 0 0 110000) /\
  parse_timestamp "20240801 00:00:00.1234567" = Raise ValueError /\
  parse_timestamp "20240801 00:00:00" = Ok (mk_datetime 2024 8 1 0 0 0 0) /\
  parse_timestamp "2024-08-01" = Raise ValueError.
Proof.
  pose proof (parse_timestamp_forms 2024 8 1 0 0 0 "110"
                eq_refl eq_refl ltac:(simpl; lia)) as (H1 & _ & _ & H3 & _ & H5).
  pose proof (parse_timestamp_forms 2024 8 1 0 0 0 "1234567"
                eq_refl eq_refl ltac:(simpl; lia)) as (_ & H2 & _).
  split; [exact (H1 ltac:(simpl; lia))|].
  split; [exact (H2 ltac:(simpl; lia))|].
  split; [exact H3 | apply H5; reflexivity].
Defined.

(** C8, refuted as stated: a fraction of seven digits is refused by both
    formats. *)
Lemma parse_timestamp_seven_digits :
  ~ (forall y m d H M S frac,
       valid_clock y m d H M S = true ->
       all_digits frac = true -> (1 <= String.length frac)%nat ->
       is_ok (parse_timestamp (stamp y m d H M S +:+ "." +:+ frac)) = true).
Proof.
  intros C.
  specialize (C 2024 8 1 0 0 0 "1234567" eq_refl eq_refl ltac:(simpl; lia)).
  vm_compute in C. discriminate C.
Qed.

(** C2 (as the code has it).  The helper [format_datetime_with_ms] renders
    a parsed timestamp as the literal of the same wall-clock time with
    exactly the first three fraction digits (zero-filled), so
    20240801 00:00:00.1105 gives 2024-08-01 00:00:00.110; the year is
    written in its own digits, which are the four digits of the text from
    the year 1000 on and fewer before; the value that [process_zip_file]
    hands to the store is the parsed datetime itself, whose microsecond
    field holds all six digits of the fraction. *)
Theorem timestamp_truncation (y m d H M S : Z) (frac : string) :
  valid_clock y m d H M S = true ->
  all_digits frac = true -> (1 <= String.length frac <= 6)%nat ->
  (exists dt,
      parse_timestamp (stamp y m d H M S +:+ "." +:+ frac) = Ok dt /\
      format_datetime_with_ms dt
        = literal y m d H M S (Str.take 3 (frac +:+ "000")) /\
      microsecond dt = int (frac +:+ zeros (6 - String.length frac))) /\
  (exists dt,
      parse_timestamp (stamp y m d H M S) = Ok dt /\
      format_datetime_with_ms dt = literal y m d H M S "000" /\
      microsecond dt = 0) /\
  (forall f,
      String.length (literal y m d H M S f)
      = (String.length (str_int y) + 16 + String.length f)%nat /\
      (1000 <= y ->
       literal y m d H M S f
       = zpad 4 y +:+ "-" +:+ zpad 2 m +:+ "-" +:+ zpad 2 d +:+ " " +:+
         zpad 2 H +:+ ":" +:+ zpad 2 M +:+ ":" +:+ zpad 2 S +:+ "." +:+ f) /\
      (y < 1000 -> (String.length (str_int y) < 4)%nat)) /\
  (forall chunk values,
      to_values chunk = Ok values ->
      Forall2 (fun row v => parse_timestamp (c_timestamp row) = Ok (timestamp v)
                            /\ bid v = c_bid row /\ ask v = c_ask row)
              chunk values).
Proof.
  intros Hv Hd Hl.
  pose proof (parse_fraction_text y m d H M S frac Hv Hd Hl) as P1.
  pose proof (parse_seconds_text y m d H M S Hv) as P2.
  destruct (valid_clock_ranges y m d H M S Hv) as (Ry & _).
  split; [|split; [|split]].
  - eexists. split; [exact P1|]. split; [|reflexivity].
    rewrite format_datetime_with_ms_digits.
    + now rewrite take3_fraction.
    + now rewrite all_digits_app, Hd, zeros_digits.
    + rewrite length_app_s, zeros_length. lia.
  - eexists. split; [exact P2|]. split; [|reflexivity].
    exact (format_datetime_with_ms_digits y m d H M S "000000" eq_refl eq_refl).
  - intros f. split; [|split].
    + unfold literal. rewrite !length_app_s, !zpad_length. cbn [String.length]. lia.
    + intros Hy. unfold literal. now rewrite str_int_year by lia.
    + intros Hy. rewrite str_int_length by lia.
      destruct (y <? 10); [lia|]. destruct (y <? 100); [lia|].
      destruct (Z.ltb_spec y 1000); lia.
  - apply to_values_timestamps.
Qed.

Lemma timestamp_truncation_witness :
  exists dt,
    parse_timestamp "20240801 00:00:00.1105" = Ok dt /\
    format_datetime_with_ms dt = "2024-08-01 00:00:00.110" /\
    microsecond dt = 110500.
Proof.
  exact (proj1 (timestamp_truncation 2024 8 1 0 0 0 "1105"
                  eq_refl eq_refl ltac:(simpl; lia))).
Defined.

End Normalizer.

(** ** Store Writer: properties *)

Section Store.

Lemma has_key_In ts rows :
  has_key ts rows = true <-> In ts (List.map timestamp rows).
Proof.
  unfold has_key. rewrite existsb_exists, in_map_iff. split.
  - intros (r & Hr & E). apply bool_decide_eq_true in E. now exists r.
  - intros (r & E & Hr). exists r. split; [exact Hr | now apply bool_decide_eq_true].
Qed.

Lemma has_key_app ts a b : has_key ts (a ++ b) = has_key ts a || has_key ts b.
Proof. unfold has_key. apply existsb_app. Qed.

(** INSERT IGNORE never fails: it appends the rows whose key is new, in
    order, and nothing else *)
Lemma insert_ignore_appends values : forall rows,
  exists added,
    insert_rows Ignore values rows = Ok (rows ++ added) /\
    (forall r, In r added -> In r values /\ has_key (timestamp r) rows = false) /\
    (forall v, In v values -> has_key (timestamp v) (rows ++ added) = true) /\
    (pk_unique rows -> pk_unique (rows ++ added)).
Proof.
  induction values as [|v values IH]; intros rows; cbn [insert_rows].
  - exists []. rewrite app_nil_r.
    split; [reflexivity|]. split; [intros r []|]. split; [intros v [] | auto].
  - destruct (has_key (timestamp v) rows) eqn:K.
    + destruct (IH rows) as (added & E & Hin & Hall & Hpk).
      exists added. split; [exact E|]. split; [|split; [|exact Hpk]].
      * intros r Hr. destruct (Hin r Hr). split; [now right | assumption].
      * intros v' [<- | Hv']; [|now apply Hall].
        now rewrite has_key_app, K.
    + destruct (IH (rows ++ [v])) as (added & E & Hin & Hall & Hpk).
      exists (v :: added). rewrite <- app_assoc in E, Hall, Hpk. cbn [app] in E, Hall, Hpk.
      split; [exact E|]. split; [|split].
      * intros r [<- | Hr]; [split; [now left | exact K]|].
        destruct (Hin r Hr) as [H1 H2]. split; [now right|].
        rewrite has_key_app in H2. now apply orb_false_iff in H2.
      * intros v' [<- | Hv']; [|now apply Hall].
        rewrite has_key_app. cbn [has_key existsb]. rewrite bool_decide_eq_true_2 by reflexivity.
        cbn. apply orb_true_r.
      * intros P. apply Hpk. unfold pk_unique in *.
        rewrite map_app. cbn [List.map].
        apply NoDup_app. split; [exact P|]. split.
        -- intros ts Hts Hv. apply list_elem_of_singleton in Hv. subst ts.
           apply list_elem_of_In, has_key_In in Hts. congruence.
        -- apply NoDup_singleton.
Qed.

Lemma insert_ignore_present v rows :
  has_key (timestamp v) rows = true -> insert_rows Ignore [v] rows = Ok rows.
Proof. intros K. cbn [insert_rows]. now rewrite K. Qed.

(** a plain INSERT of a present key fails, and fails as a whole *)
Lemma plain_insert_collides v values rows :
  has_key (timestamp v) rows = true ->
  insert_rows Reject (v :: values) rows = Raise IntegrityError.
Proof. intros K. cbn [insert_rows]. now rewrite K. Qed.

Lemma rows_at_absent ts rows : has_key ts rows = false -> rows_at ts rows = [].
Proof.
  unfold has_key, rows_at. induction rows as [|r rows IH]; [reflexivity|].
  cbn [existsb List.filter]. intros H. apply orb_false_iff in H as [H1 H2].
  rewrite H1. now apply IH.
Qed.

Lemma rows_at_unique ts rows :
  pk_unique rows -> has_key ts rows = true -> length (rows_at ts rows) = 1%nat.
Proof.
  unfold pk_unique. induction rows as [|r rows IH]; [discriminate|].
  cbn [List.map]. intros P K. apply NoDup_cons in P as [Hn P].
  cbn [has_key existsb] in K. unfold rows_at. cbn [List.filter].
  destruct (bool_decide (timestamp r = ts)) eqn:E.
  - apply bool_decide_eq_true in E. subst ts.
    fold (rows_at (timestamp r) rows). rewrite rows_at_absent; [reflexivity|].
    destruct (has_key (timestamp r) rows) eqn:K'; [|reflexivity].
    apply has_key_In, list_elem_of_In in K'. contradiction.
  - cbn [orb] in K. now apply IH.
Qed.

Lemma find_row_app ts rows added r :
  find_row ts rows = Some r -> find_row ts (rows ++ added) = Some r.
Proof.
  unfold find_row. induction rows as [|x rows IH]; [discriminate|].
  cbn [app List.find]. destruct (bool_decide (timestamp x = ts)); [trivial | exact IH].
Qed.

End Store.

(** ** The monad and the frame of every step *)

Section Frame.

Lemma bind_unfold {A B} (m : M A) (k : A -> M B) w :
  (m ≫= k) w =
  match m w with
  | (w', Ok a) => k a w'
  | (w', Raise e) => (w', Raise e)
  end.
Proof. reflexivity. Qed.

Lemma for_each_app {A} (body : A -> M unit) l1 l2 w w1 :
  for_each l1 body w = (w1, Ok tt) ->
  for_each (l1 ++ l2) body w = for_each l2 body w1.
Proof.
  revert w. induction l1 as [|x l1 IH]; intros w; cbn [for_each app].
  - now intros [= <-].
  - rewrite !bind_unfold. destruct (body x w) as [w0 [[]|e]]; [|discriminate].
    apply IH.
Qed.

Lemma for_each_app_raise {A} (body : A -> M unit) l1 l2 w w1 e :
  for_each l1 body w = (w1, Raise e) ->
  for_each (l1 ++ l2) body w = (w1, Raise e).
Proof.
  revert w. induction l1 as [|x l1 IH]; intros w; cbn [for_each app].
  - discriminate.
  - rewrite !bind_unfold. destruct (body x w) as [w0 [[]|e0]]; [apply IH | trivial].
Qed.

Lemma evolves_make w w' evs lines :
  fs w' = fs w -> log w' = log w ++ evs -> stdout w' = stdout w ++ lines ->
  (forall t, is_Some (committed (conn w) !! t) /\ is_Some (working (conn w) !! t) ->
             is_Some (committed (conn w') !! t) /\ is_Some (working (conn w') !! t)) ->
  (pk_ok w -> pk_ok w') ->
  evolves w w'.
Proof.
  intros F L O K P. split; [exact F|]. split; [now exists evs|].
  split; [now exists lines|]. split; assumption.
Qed.

Lemma evolves_refl w : evolves w w.
Proof. apply (evolves_make w w [] []); auto; now rewrite app_nil_r. Qed.

Lemma evolves_trans w1 w2 w3 : evolves w1 w2 -> evolves w2 w3 -> evolves w1 w3.
Proof.
  intros (F1 & [e1 L1] & [o1 O1] & K1 & P1) (F2 & [e2 L2] & [o2 O2] & K2 & P2).
  apply (evolves_make w1 w3 (e1 ++ e2) (o1 ++ o2)); auto.
  - congruence.
  - rewrite L2, L1. now rewrite app_assoc.
  - rewrite O2, O1. now rewrite app_assoc.
Qed.

Lemma sane_ret {A} (a : A) : sane (mret a).
Proof. intros w w' r [= <- <-]. split; [apply evolves_refl | exact I]. Qed.

Lemma sane_bind {A B} (m : M A) (k : A -> M B) :
  sane m -> (forall a, sane (k a)) -> sane (m ≫= k).
Proof.
  intros Hm Hk w w' r. rewrite bind_unfold.
  destruct (m w) as [w1 [a|e]] eqn:E; destruct (Hm _ _ _ E) as [E1 P1].
  - intros Ek. destruct (Hk a _ _ _ Ek) as [E2 P2].
    split; [eapply evolves_trans; eassumption | exact P2].
  - intros [= <- <-]. now split.
Qed.

Lemma sane_lift {A} (r : result A) :
  (forall e, r = Raise e -> proper e) -> sane (lift r).
Proof.
  intros H w w' r' [= <- <-]. split; [apply evolves_refl|].
  destruct r; [exact I | now apply H].
Qed.

Lemma sane_print line : sane (print line).
Proof.
  intros w w' r [= <- <-]. split; [|exact I].
  apply (evolves_make _ _ [] [line]); auto. cbn. now rewrite app_nil_r.
Qed.

Lemma sane_emit ev : sane (emit ev).
Proof.
  intros w w' r [= <- <-]. split; [|exact I].
  apply (evolves_make _ _ [ev] []); auto. cbn. now rewrite app_nil_r.
Qed.

Lemma ensure_keeps t t' (cat : gmap string table) :
  is_Some (cat !! t') -> is_Some (ensure t cat !! t').
Proof.
  unfold ensure. destruct (cat !! t) eqn:E; [trivial|].
  intros H. destruct (decide (t = t')) as [->|Hne].
  - rewrite lookup_insert_eq. eauto.
  - now rewrite lookup_insert_ne.
Qed.

Lemma ensure_present t (cat : gmap string table) : is_Some (ensure t cat !! t).
Proof.
  unfold ensure. destruct (cat !! t) eqn:E; [rewrite E; eauto|].
  rewrite lookup_insert_eq. eauto.
Qed.

Lemma load_keeps t values t' (cat : gmap string table) :
  is_Some (cat !! t') -> is_Some (load t values cat !! t').
Proof.
  unfold load. destruct (cat !! t) as [tb|] eqn:E; [|trivial].
  destruct (insert_rows Ignore values (t_rows tb)); [|trivial].
  intros H. destruct (decide (t = t')) as [->|Hne].
  - rewrite lookup_insert_eq. eauto.
  - now rewrite lookup_insert_ne.
Qed.

(** the primary key holds in every table of a catalogue *)
Lemma ensure_pk_unique t (cat : gmap string table) :
  map_Forall (fun _ tb => pk_unique (t_rows tb)) cat ->
  map_Forall (fun _ tb => pk_unique (t_rows tb)) (ensure t cat).
Proof.
  intros H. unfold ensure. destruct (cat !! t) eqn:E; [exact H|].
  apply map_Forall_insert; [exact E|]. split; [constructor | exact H].
Qed.

Lemma load_pk_unique t values (cat : gmap string table) :
  map_Forall (fun _ tb => pk_unique (t_rows tb)) cat ->
  map_Forall (fun _ tb => pk_unique (t_rows tb)) (load t values cat).
Proof.
  intros H. unfold load. destruct (cat !! t) as [tb|] eqn:E; [|exact H].
  destruct (insert_ignore_appends values (t_rows tb)) as (added & Ei & _ & _ & Hpk).
  rewrite Ei. apply map_Forall_insert_2; [|exact H].
  cbn. apply Hpk. exact (H _ _ E).
Qed.

Lemma sane_create t : sane (execute_create_table t).
Proof.
  intros w w' r. unfold execute_create_table.
  destruct (accepts (srv w) t); intros [= <- <-];
    [|split; [apply evolves_refl | exact I]].
  split; [|exact I].
  apply (evolves_make _ _ [EvCreateTable t] []); auto.
  - cbn. now rewrite app_nil_r.
  - cbn. intros t' [_ H]. split; now apply ensure_keeps.
  - intros [_ P]. split; cbn; now apply ensure_pk_unique.
Qed.

Lemma sane_connect : sane connect.
Proof.
  intros w w' r. unfold connect.
  destruct (reachable (srv w)); intros [= <- <-];
    (split; [apply evolves_refl | exact I]).
Qed.

Lemma sane_create_database db_name : sane (create_database_if_not_exists db_name).
Proof.
  intros w w' r. unfold create_database_if_not_exists.
  destruct (accepts (srv w) db_name); [apply sane_print|].
  intros [= <- <-]. split; [apply evolves_refl | exact I].
Qed.

Lemma load_nil t (cat : gmap string table) : load t [] cat = cat.
Proof.
  unfold load. destruct (cat !! t) as [tb|] eqn:E; [|reflexivity].
  cbn [insert_rows]. destruct tb. now apply insert_id.
Qed.

(** the statement on a table of the catalogue: with values it is sent and
    loads them, without values the world stays as it is *)
Lemma executemany_load t values w :
  is_Some (working (conn w) !! t) ->
  executemany_insert_ignore t values w =
  (match values with
   | [] => w
   | _ :: _ =>
       add_event (EvInsert t (length values))
         (set_conn (mk_conn (committed (conn w))
                            (load t values (working (conn w)))) w)
   end, Ok tt).
Proof.
  intros [tb E]. unfold executemany_insert_ignore, load.
  destruct values as [|v values]; [reflexivity|]. rewrite E.
  destruct (insert_ignore_appends (v :: values) (t_rows tb)) as (added & -> & _).
  reflexivity.
Qed.

Lemma executemany_ok t values w :
  is_Some (working (conn w) !! t) ->
  exists w',
    executemany_insert_ignore t values w = (w', Ok tt) /\
    fs w' = fs w /\ srv w' = srv w /\ stdout w' = stdout w /\
    conn w' = mk_conn (committed (conn w)) (load t values (working (conn w))).
Proof.
  intros Ht. rewrite (executemany_load _ _ _ Ht). eexists. split; [reflexivity|].
  destruct values as [|v values]; [|now repeat split].
  rewrite load_nil. repeat split. now destruct w as [? ? []].
Qed.

Lemma sane_executemany t values : sane (executemany_insert_ignore t values).
Proof.
  intros w w' r. destruct values as [|v values].
  { intros [= <- <-]. split; [apply evolves_refl | exact I]. }
  destruct (working (conn w) !! t) as [tb|] eqn:E.
  - rewrite executemany_load by (rewrite E; eauto). intros [= <- <-].
    split; [|exact I].
    apply (evolves_make _ _ [EvInsert t (length (v :: values))] []); auto.
    + cbn. now rewrite app_nil_r.
    + cbn. intros t' [H1 H2]. split; [exact H1 | now apply load_keeps].
    + intros [P1 P2]. split; cbn; [exact P1 | now apply load_pk_unique].
  - unfold executemany_insert_ignore. rewrite E. intros [= <- <-].
    split; [apply evolves_refl | exact I].
Qed.

Lemma sane_commit : sane commit.
Proof.
  intros w w' r [= <- <-]. split; [|exact I].
  apply (evolves_make _ _ [EvCommit] []); auto.
  - cbn. now rewrite app_nil_r.
  - cbn. intros t' [_ H]. now split.
  - intros [_ P]. now split.
Qed.

Lemma sane_close : sane close.
Proof.
  intros w w' r [= <- <-]. split; [|exact I].
  apply (evolves_make _ _ [] []); auto.
  - cbn. now rewrite app_nil_r.
  - cbn. now rewrite app_nil_r.
  - cbn. intros t' [H _]. now split.
  - intros [P _]. now split.
Qed.

Lemma sane_for_each {A} (body : A -> M unit) l :
  (forall x, sane (body x)) -> sane (for_each l body).
Proof.
  intros H. induction l as [|x l IH]; cbn [for_each].
  - apply sane_ret.
  - apply sane_bind; [apply H | intros _; exact IH].
Qed.

Lemma to_values_raises chunk e :
  to_values chunk = Raise e -> e = ValueError \/ e = TypeError.
Proof.
  induction chunk as [|row chunk IH]; cbn [to_values]; [discriminate|].
  destruct (parse_timestamp (c_timestamp row)) as [dt|e0] eqn:E.
  - destruct (to_values chunk) as [vs|e1]; [discriminate|].
    intros [= <-]. now apply IH.
  - intros [= <-]. apply parse_timestamp_cell in E.
    destruct (c_timestamp row); [now left | now right].
Qed.

Lemma sane_process_chunk t chunk : sane (process_chunk t chunk).
Proof.
  unfold process_chunk. apply sane_bind.
  - apply sane_lift. intros e E.
    now destruct (to_values_raises _ _ E) as [-> | ->].
  - intros values. apply sane_bind; [apply sane_executemany|]. intros _.
    apply sane_bind; [apply sane_commit|]. intros _. apply sane_print.
Qed.

Lemma sane_process_entry t e : sane (process_entry t e).
Proof.
  unfold process_entry. destruct (Str.endswith (filename e) ".csv"); [|apply sane_ret].
  apply sane_bind; [apply sane_emit|]. intros _.
  apply sane_bind.
  - apply sane_lift. intros e0. unfold read_csv.
    destruct (payload e); discriminate.
  - intros frames. apply sane_for_each. intros c. apply sane_process_chunk.
Qed.

Lemma sane_open_zip path : sane (open_zip path).
Proof.
  intros w w' r. unfold open_zip. destruct (fs_zip (fs w) path).
  - intros [= <- <-]. split; [|exact I].
    apply (evolves_make _ _ [EvOpenZip path] []); auto. cbn. now rewrite app_nil_r.
  - intros [= <- <-]. split; [apply evolves_refl | exact I].
Qed.

Lemma get_table_name_raises path e : get_table_name path = Raise e -> e = IndexError.
Proof.
  rewrite get_table_name_parts.
  destruct (name_parts path) as [|p0 [|p1 [|p2 rest]]]; now intros [= <-].
Qed.

Lemma sane_process_zip_file path : sane (process_zip_file path).
Proof.
  unfold process_zip_file. apply sane_bind.
  - apply sane_lift. intros e E. now rewrite (get_table_name_raises _ _ E).
  - intros t. apply sane_bind; [apply sane_print|]. intros _.
    apply sane_bind; [apply sane_create|]. intros _.
    apply sane_bind; [apply sane_open_zip|]. intros infolist.
    apply sane_bind; [apply sane_for_each; intros e; apply sane_process_entry|].
    intros _. apply sane_bind; [apply sane_print|]. intros _. apply sane_ret.
Qed.

Lemma sane_visit_files root files : forall processed,
  sane (visit_files root files processed).
Proof.
  induction files as [|file files IH]; intros processed; cbn [visit_files].
  - apply sane_ret.
  - destruct (admitted file); [|apply IH].
    apply sane_bind; [apply sane_process_zip_file|]. intros t. apply IH.
Qed.

Lemma sane_visit_dirs dirs : forall processed, sane (visit_dirs dirs processed).
Proof.
  induction dirs as [|[root files] dirs IH]; intros processed; cbn [visit_dirs].
  - apply sane_ret.
  - apply sane_bind; [apply sane_visit_files|]. intros p. apply IH.
Qed.

Lemma sane_walk data_dir : sane (walk data_dir).
Proof. intros w w' r [= <- <-]. split; [apply evolves_refl | exact I]. Qed.

Lemma sane_process_data_directory data_dir cfg :
  sane (process_data_directory data_dir cfg).
Proof.
  unfold process_data_directory.
  apply sane_bind; [apply sane_connect|]. intros _.
  apply sane_bind; [apply sane_create_database|]. intros _.
  apply sane_bind; [apply sane_walk|]. intros dirs.
  apply sane_bind; [apply sane_visit_dirs|]. intros p.
  apply sane_bind; [apply sane_close|]. intros _. apply sane_ret.
Qed.

(** the primary key is an invariant of every run, and holds in an empty
    store *)
Lemma process_data_directory_keeps_key data_dir cfg w w' r :
  process_data_directory data_dir cfg w = (w', r) -> pk_ok w -> pk_ok w'.
Proof.
  intros H. destruct (sane_process_data_directory _ _ _ _ _ H) as [E _].
  apply E.
Qed.

Lemma process_zip_file_keeps_key zip_path w w' r :
  process_zip_file zip_path w = (w', r) -> pk_ok w -> pk_ok w'.
Proof.
  intros H. destruct (sane_process_zip_file _ _ _ _ H) as [E _]. apply E.
Qed.

Lemma blank_pk_ok f : pk_ok (blank f).
Proof. split; apply map_Forall_empty. Qed.

End Frame.

(** ** The pipeline of one archive: properties *)

Section Pipeline.

Lemma insert_rows_app a : forall b rows,
  insert_rows Ignore (a ++ b) rows =
  match insert_rows Ignore a rows with
  | Ok rows' => insert_rows Ignore b rows'
  | Raise e => Raise e
  end.
Proof.
  induction a as [|v a IH]; intros b rows; cbn [app insert_rows]; [reflexivity|].
  destruct (has_key (timestamp v) rows); apply IH.
Qed.

Lemma load_app t a b (cat : gmap string table) :
  load t (a ++ b) cat = load t b (load t a cat).
Proof.
  unfold load at 1 3. destruct (cat !! t) as [tb|] eqn:E.
  - rewrite insert_rows_app.
    destruct (insert_ignore_appends a (t_rows tb)) as (added & Ea & _). rewrite Ea.
    unfold load. rewrite lookup_insert_eq. cbn [t_rows t_schema].
    destruct (insert_ignore_appends b (t_rows tb ++ added)) as (added' & Eb & _).
    rewrite Eb. now rewrite insert_insert_eq.
  - unfold load. now rewrite E.
Qed.

Lemma to_values_app a : forall b,
  to_values (a ++ b) =
  match to_values a with
  | Ok va => match to_values b with
             | Ok vb => Ok (va ++ vb)
             | Raise e => Raise e
             end
  | Raise e => Raise e
  end.
Proof.
  induction a as [|row a IH]; intros b; cbn [app to_values].
  - destruct (to_values b); reflexivity.
  - destruct (parse_timestamp (c_timestamp row)); [|reflexivity].
    rewrite IH. destruct (to_values a); [|reflexivity].
    destruct (to_values b); reflexivity.
Qed.

(** the conversion of a batch stops at its first row that does not
    parse, with the error of that row *)
Lemma to_values_first_bad good row more e :
  Forall (fun r => is_ok (parse_timestamp (c_timestamp r)) = true) good ->
  parse_timestamp (c_timestamp row) = Raise e ->
  to_values (good ++ row :: more) = Raise e.
Proof.
  intros Hg Hr. induction Hg as [|r good Hr1 Hg IH]; cbn [app to_values].
  - now rewrite Hr.
  - destruct (parse_timestamp (c_timestamp r)); [|discriminate]. now rewrite IH.
Qed.

Lemma to_values_good chunk :
  Forall (fun r => is_ok (parse_timestamp (c_timestamp r)) = true) chunk ->
  exists values,
    to_values chunk = Ok values /\
    Forall2 (fun r v => bid v = c_bid r /\ ask v = c_ask r) chunk values.
Proof.
  induction 1 as [|r chunk Hr Hc (values & E & F)]; cbn [to_values].
  - exists []. split; [reflexivity | constructor].
  - destruct (parse_timestamp (c_timestamp r)) as [dt|]; [|discriminate].
    rewrite E. eexists. split; [reflexivity|]. constructor; [now split | exact F].
Qed.

Lemma settled_conn w :
  settled w -> conn w = mk_conn (working (conn w)) (working (conn w)).
Proof. unfold settled. destruct (conn w) as [cm wk]. cbn. now intros ->. Qed.

Lemma process_chunk_ok t chunk values w :
  to_values chunk = Ok values ->
  is_Some (working (conn w) !! t) ->
  exists w',
    process_chunk t chunk w = (w', Ok tt) /\
    fs w' = fs w /\
    conn w' = mk_conn (load t values (working (conn w)))
                      (load t values (working (conn w))).
Proof.
  intros Hv Ht. unfold process_chunk.
  rewrite bind_unfold. unfold lift at 1. rewrite Hv.
  destruct (executemany_ok t values w Ht) as (w1 & R1 & F1 & _ & _ & C1).
  rewrite bind_unfold, R1.
  eexists. split; [reflexivity|]. cbn. rewrite C1. now split.
Qed.

Lemma process_chunk_bad t chunk e w :
  to_values chunk = Raise e -> process_chunk t chunk w = (w, Raise e).
Proof.
  intros Hv. unfold process_chunk. rewrite bind_unfold. unfold lift. now rewrite Hv.
Qed.

Lemma chunks_ok t : forall frames values w,
  to_values (concat frames) = Ok values ->
  is_Some (working (conn w) !! t) -> settled w ->
  exists w',
    for_each frames (process_chunk t) w = (w', Ok tt) /\
    fs w' = fs w /\
    conn w' = mk_conn (load t values (working (conn w)))
                      (load t values (working (conn w))).
Proof.
  induction frames as [|c frames IH]; intros values w Hv Ht Hs.
  - cbn in Hv. injection Hv as <-. exists w. split; [reflexivity|].
    split; [reflexivity|]. rewrite load_nil. now apply settled_conn.
  - cbn [concat] in Hv. rewrite to_values_app in Hv.
    destruct (to_values c) as [v1|] eqn:E1; [|discriminate].
    destruct (to_values (concat frames)) as [v2|] eqn:E2; [|discriminate].
    injection Hv as <-.
    destruct (process_chunk_ok t c v1 w E1 Ht) as (w1 & R1 & F1 & C1).
    destruct (IH v2 w1 eq_refl) as (w2 & R2 & F2 & C2).
    { rewrite C1. cbn. now apply load_keeps. }
    { unfold settled. now rewrite C1. }
    exists w2. cbn [for_each]. rewrite bind_unfold, R1.
    split; [exact R2|]. split; [congruence|].
    rewrite C2, C1. cbn. now rewrite load_app.
Qed.

Lemma chunks_bad t done bad rest values e w :
  to_values (concat done) = Ok values ->
  to_values bad = Raise e ->
  is_Some (working (conn w) !! t) -> settled w ->
  exists w',
    for_each (done ++ bad :: rest) (process_chunk t) w = (w', Raise e) /\
    fs w' = fs w /\
    conn w' = mk_conn (load t values (working (conn w)))
                      (load t values (working (conn w))).
Proof.
  intros Hv Hb Ht Hs.
  destruct (chunks_ok t done values w Hv Ht Hs) as (w1 & R1 & F1 & C1).
  exists w1. rewrite (for_each_app _ _ _ _ _ R1).
  cbn [for_each]. rewrite bind_unfold, (process_chunk_bad _ _ _ _ Hb).
  now split.
Qed.

Lemma chunk_size_pos : (0 < chunk_size)%nat.
Proof. unfold chunk_size. lia. Qed.

Lemma concat_chunks {A} n (l : list A) : (0 < n)%nat -> concat (chunks n l) = l.
Proof.
  intros Hn. unfold chunks.
  assert (G : forall fuel (l : list A), (length l <= fuel)%nat ->
                concat (chunks_fuel fuel n l) = l).
  { induction fuel as [|fuel IH]; intros k Hk.
    - destruct k; [reflexivity | cbn in Hk; lia].
    - destruct k as [|x k]; [reflexivity|].
      cbn [chunks_fuel concat]. rewrite IH.
      + apply firstn_skipn.
      + rewrite length_skipn. cbn [length] in *. lia. }
  now apply G.
Qed.

Lemma add_event_conn ev w : conn (add_event ev w) = conn w.
Proof. reflexivity. Qed.

Lemma read_csv_concat rows n :
  (0 < n)%nat -> exists frames, read_csv rows n = Ok frames /\ concat frames = rows.
Proof.
  intros Hn. unfold read_csv. destruct rows as [|row rows'] eqn:E.
  - now exists [[]].
  - eexists. split; [reflexivity|]. now apply concat_chunks.
Qed.

Lemma process_entry_ok t e values w :
  to_values (csv_rows [e]) = Ok values ->
  is_Some (working (conn w) !! t) -> settled w ->
  exists w',
    process_entry t e w = (w', Ok tt) /\
    fs w' = fs w /\
    conn w' = mk_conn (load t values (working (conn w)))
                      (load t values (working (conn w))).
Proof.
  intros Hv Ht Hs. unfold process_entry. cbn [csv_rows flat_map] in Hv.
  rewrite app_nil_r in Hv.
  destruct (Str.endswith (filename e) ".csv") eqn:E.
  - rewrite bind_unfold. cbn [emit]. rewrite bind_unfold. unfold lift.
    destruct (read_csv_concat (payload e) chunk_size chunk_size_pos)
      as (frames & -> & Hc).
    destruct (chunks_ok t frames values
                (add_event (EvReadEntry (filename e)) w)) as (w1 & R1 & F1 & C1).
    + now rewrite Hc.
    + exact Ht.
    + exact Hs.
    + exists w1. now split.
  - injection Hv as <-. exists w. split; [reflexivity|]. split; [reflexivity|].
    rewrite load_nil. now apply settled_conn.
Qed.

Lemma csv_rows_cons e l : csv_rows (e :: l) = csv_rows [e] ++ csv_rows l.
Proof. unfold csv_rows. cbn [flat_map]. now rewrite app_nil_r. Qed.

Lemma entries_ok t : forall before values w,
  to_values (csv_rows before) = Ok values ->
  is_Some (working (conn w) !! t) -> settled w ->
  exists w',
    for_each before (process_entry t) w = (w', Ok tt) /\
    fs w' = fs w /\
    conn w' = mk_conn (load t values (working (conn w)))
                      (load t values (working (conn w))).
Proof.
  induction before as [|e before IH]; intros values w Hv Ht Hs.
  - cbn in Hv. injection Hv as <-. exists w. split; [reflexivity|].
    split; [reflexivity|]. rewrite load_nil. now apply settled_conn.
  - rewrite csv_rows_cons, to_values_app in Hv.
    destruct (to_values (csv_rows [e])) as [v1|] eqn:E1; [|discriminate].
    destruct (to_values (csv_rows before)) as [v2|] eqn:E2; [|discriminate].
    injection Hv as <-.
    destruct (process_entry_ok t e v1 w E1 Ht Hs) as (w1 & R1 & F1 & C1).
    destruct (IH v2 w1 eq_refl) as (w2 & R2 & F2 & C2).
    { rewrite C1. cbn. now apply load_keeps. }
    { unfold settled. now rewrite C1. }
    exists w2. cbn [for_each]. rewrite bind_unfold, R1.
    split; [exact R2|]. split; [congruence|].
    rewrite C2, C1. cbn. now rewrite load_app.
Qed.

End Pipeline.

(** ** Store Writer: idempotence and frame *)

Section StoreWriter.

(** C1.  Inserting the same row twice into a table raises nothing and
    leaves exactly one row with its timestamp: the second INSERT IGNORE is
    a no-op on the catalogue, be it a second statement or a repetition
    inside one statement.  The table is any table that respects its
    primary key, as every table built by the script does. *)
Theorem insert_twice_is_noop (t : string) (v : tick) (w : world) (tb : table) :
  working (conn w) !! t = Some tb -> pk_unique (t_rows tb) ->
  exists w1 w2 tb1,
    executemany_insert_ignore t [v] w = (w1, Ok tt) /\
    executemany_insert_ignore t [v] w1 = (w2, Ok tt) /\
    working (conn w1) !! t = Some tb1 /\
    working (conn w2) = working (conn w1) /\
    length (rows_at (timestamp v) (t_rows tb1)) = 1%nat /\
    pk_unique (t_rows tb1) /\
    insert_rows Ignore [v; v] (t_rows tb) = Ok (t_rows tb1).
Proof.
  intros E P.
  destruct (insert_ignore_appends [v] (t_rows tb)) as (added & Ei & _ & Hall & Hpk).
  specialize (Hall v ltac:(now left)). specialize (Hpk P).
  set (tb1 := mk_table (t_schema tb) (t_rows tb ++ added)).
  assert (L1 : load t [v] (working (conn w)) = <[t := tb1]> (working (conn w))).
  { unfold load. now rewrite E, Ei. }
  assert (L2 : load t [v] (<[t := tb1]> (working (conn w)))
               = <[t := tb1]> (working (conn w))).
  { unfold load. rewrite lookup_insert_eq. cbn [t_rows t_schema tb1].
    rewrite (insert_ignore_present _ _ Hall). now rewrite insert_insert_eq. }
  assert (D : insert_rows Ignore [v; v] (t_rows tb) = Ok (t_rows tb1)).
  { change [v; v] with ([v] ++ [v]). rewrite insert_rows_app, Ei.
    now apply insert_ignore_present. }
  eexists _, _, tb1.
  split; [apply executemany_load; rewrite E; eauto|].
  split; [apply executemany_load; cbn; rewrite L1, lookup_insert_eq; eauto|].
  cbn [conn working set_conn add_event]. rewrite L1, L2, lookup_insert_eq.
  split; [reflexivity|]. split; [reflexivity|].
  split; [now apply rows_at_unique|]. split; [exact Hpk | exact D].
Qed.

Lemma insert_twice_is_noop_witness :
  let v := mk_tick (mk_datetime 2024 8 1 0 0 0 110000) "1.08423" "1.08431" in
  let w := mk_world (sample_fs [] []) sample_server
             (mk_conn ∅ {["EURUSD_2024_08" := mk_table tick_schema []]}) [] [] in
  exists w1 w2,
    executemany_insert_ignore "EURUSD_2024_08" [v] w = (w1, Ok tt) /\
    executemany_insert_ignore "EURUSD_2024_08" [v] w1 = (w2, Ok tt) /\
    working (conn w2) = working (conn w1).
Proof.
  intros v w.
  destruct (insert_twice_is_noop "EURUSD_2024_08" v w (mk_table tick_schema []))
    as (w1 & w2 & tb1 & H1 & H2 & _ & H4 & _).
  - reflexivity.
  - constructor.
  - exists w1, w2. split; [exact H1 | split; [exact H2 | exact H4]].
Defined.

(** C7.  INSERT IGNORE leaves every row that was in the table as it was:
    the table afterwards is the old table followed by the rows of the batch
    whose timestamp was new, a timestamp that was present still finds its
    old row, and no other table and nothing committed changes. *)
Theorem insert_ignore_preserves (t : string) (values : list tick) (w : world)
  (tb : table) :
  working (conn w) !! t = Some tb ->
  exists w' added,
    executemany_insert_ignore t values w = (w', Ok tt) /\
    working (conn w') !! t = Some (mk_table (t_schema tb) (t_rows tb ++ added)) /\
    (forall r, In r added ->
               In r values /\ has_key (timestamp r) (t_rows tb) = false) /\
    (forall ts r, find_row ts (t_rows tb) = Some r ->
                  find_row ts (t_rows tb ++ added) = Some r) /\
    (forall t', t' <> t -> working (conn w') !! t' = working (conn w) !! t') /\
    committed (conn w') = committed (conn w).
Proof.
  intros E.
  destruct (insert_ignore_appends values (t_rows tb)) as (added & Ei & Hin & _).
  assert (L : load t values (working (conn w))
              = <[t := mk_table (t_schema tb) (t_rows tb ++ added)]> (working (conn w))).
  { unfold load. now rewrite E, Ei. }
  destruct (executemany_ok t values w (ex_intro _ tb E))
    as (w' & R & _ & _ & _ & C).
  exists w', added.
  split; [exact R|].
  rewrite C. cbn. rewrite L, lookup_insert_eq.
  split; [reflexivity|]. split; [exact Hin|].
  split; [intros ts r; apply find_row_app|].
  split; [|reflexivity].
  intros t' Hne. now rewrite lookup_insert_ne.
Qed.

Lemma insert_ignore_preserves_witness :
  let old := mk_tick (mk_datetime 2024 8 1 0 0 0 110000) "1.08423" "1.08431" in
  let new := mk_tick (mk_datetime 2024 8 1 0 0 0 110000) "9.99999" "9.99999" in
  let w := mk_world (sample_fs [] []) sample_server
             (mk_conn ∅ {["EURUSD_2024_08" := mk_table tick_schema [old]]}) [] [] in
  exists w' added,
    executemany_insert_ignore "EURUSD_2024_08" [new] w = (w', Ok tt) /\
    find_row (timestamp new) ([old] ++ added) = Some old.
Proof.
  intros old new w.
  destruct (insert_ignore_preserves "EURUSD_2024_08" [new] w
              (mk_table tick_schema [old]) eq_refl)
    as (w' & added & H1 & _ & _ & H4 & _).
  exists w', added. split; [exact H1|]. apply H4. reflexivity.
Defined.

End StoreWriter.

(** ** The pipeline of one archive: failure and precision *)

Section Archive.

Lemma process_zip_file_unfold zip_path table_name w :
  get_table_name zip_path = Ok table_name ->
  accepts (srv w) table_name = true ->
  process_zip_file zip_path w =
  (infolist ← open_zip zip_path;
   for_each infolist (process_entry table_name);;
   print ("Finished processing " +:+ table_name);;
   mret table_name)
    (add_event (EvCreateTable table_name)
       (set_conn (mk_conn (ensure table_name (working (conn w)))
                          (ensure table_name (working (conn w))))
          (add_line ("Processing " +:+ zip_path +:+ " into table " +:+ table_name) w))).
Proof.
  intros E A. unfold process_zip_file.
  rewrite bind_unfold. unfold lift at 1. rewrite E.
  rewrite bind_unfold. cbn [print]. rewrite bind_unfold.
  unfold execute_create_table. cbn [srv add_line]. rewrite A.
  reflexivity.
Qed.

Lemma process_zip_file_refused zip_path table_name w :
  get_table_name zip_path = Ok table_name ->
  accepts (srv w) table_name = false ->
  process_zip_file zip_path w
  = (add_line ("Processing " +:+ zip_path +:+ " into table " +:+ table_name) w,
     Raise ProgrammingError).
Proof.
  intros E A. unfold process_zip_file.
  rewrite bind_unfold. unfold lift at 1. rewrite E.
  rewrite bind_unfold. cbn [print]. rewrite bind_unfold.
  unfold execute_create_table. cbn [srv add_line]. rewrite A.
  reflexivity.
Qed.

Lemma process_zip_file_returns zip_path w w' t :
  process_zip_file zip_path w = (w', Ok t) -> get_table_name zip_path = Ok t.
Proof.
  destruct (get_table_name zip_path) as [t0|e] eqn:E.
  - destruct (accepts (srv w) t0) eqn:A;
      [|rewrite (process_zip_file_refused _ _ _ E A); discriminate].
    rewrite (process_zip_file_unfold _ _ _ E A). rewrite bind_unfold.
    match goal with |- context [open_zip ?p ?x] =>
      destruct (open_zip p x) as [w1 [infolist|e]]; [|discriminate] end.
    rewrite bind_unfold.
    destruct (for_each infolist (process_entry t0) w1) as [w2 [[]|e]]; [|discriminate].
    cbn. now intros [= _ <-].
  - unfold process_zip_file. rewrite bind_unfold. unfold lift at 1. rewrite E.
    discriminate.
Qed.

Lemma to_values_parsed chunk values :
  to_values chunk = Ok values ->
  Forall (fun r => is_ok (parse_timestamp (c_timestamp r)) = true) chunk.
Proof.
  revert values. induction chunk as [|row chunk IH]; intros values; [constructor|].
  cbn [to_values].
  destruct (parse_timestamp (c_timestamp row)) as [dt|] eqn:E; [|discriminate].
  destruct (to_values chunk) as [vs|]; [|discriminate].
  intros _. constructor; [now rewrite E | now apply (IH vs)].
Qed.

Lemma to_values_unparsed chunk :
  Exists (fun r => is_ok (parse_timestamp (c_timestamp r)) = false) chunk ->
  exists e, to_values chunk = Raise e.
Proof.
  intros H. destruct (to_values chunk) as [values|e] eqn:E; [|now exists e].
  apply to_values_parsed in E. apply Exists_exists in H as (r & Hr & Hbad).
  rewrite Forall_forall in E. specialize (E r Hr). congruence.
Qed.

(** batches with a row that does not parse: the loop over them raises *)
Lemma chunks_abort t : forall frames e w,
  to_values (concat frames) = Raise e ->
  exists w' e', for_each frames (process_chunk t) w = (w', Raise e').
Proof.
  induction frames as [|c frames IH]; intros e w Hv; [discriminate|].
  cbn [concat] in Hv. rewrite to_values_app in Hv. cbn [for_each].
  rewrite bind_unfold.
  destruct (process_chunk t c w) as [w1 [[]|e1]] eqn:R; [|now exists w1, e1].
  destruct (to_values c) as [v1|e1] eqn:E1.
  - destruct (to_values (concat frames)) as [v2|e2] eqn:E2; [discriminate|].
    apply (IH e2 w1 eq_refl).
  - rewrite (process_chunk_bad _ _ _ _ E1) in R. discriminate.
Qed.

(** entries with a row that does not parse: the loop over them raises *)
Lemma entries_abort t : forall infolist w,
  Exists (fun r => is_ok (parse_timestamp (c_timestamp r)) = false)
         (csv_rows infolist) ->
  exists w' e, for_each infolist (process_entry t) w = (w', Raise e).
Proof.
  induction infolist as [|entry infolist IH]; intros w Hbad.
  - inversion Hbad.
  - cbn [for_each]. rewrite bind_unfold.
    destruct (process_entry t entry w) as [w1 [[]|e1]] eqn:R; [|now exists w1, e1].
    rewrite csv_rows_cons in Hbad. apply Exists_app in Hbad as [Hbad|Hbad];
      [|now apply IH].
    exfalso. unfold process_entry in R. cbn [csv_rows flat_map] in Hbad.
    rewrite app_nil_r in Hbad.
    destruct (Str.endswith (filename entry) ".csv"); [|inversion Hbad].
    rewrite bind_unfold in R. cbn [emit] in R. rewrite bind_unfold in R.
    unfold lift in R.
    destruct (read_csv_concat (payload entry) chunk_size chunk_size_pos)
      as (frames & E & Hc).
    rewrite E in R. rewrite <- Hc in Hbad.
    destruct (to_values_unparsed _ Hbad) as [e He].
    destruct (chunks_abort t frames e
                (add_event (EvReadEntry (filename entry)) w) He) as (w2 & e2 & R2).
    rewrite R2 in R. discriminate.
Qed.

(** C6 (as the code has it).  In an archive whose table the store takes,
    a row on whose timestamp [parse_timestamp] raises aborts the import:
    the call raises, whatever the archive holds besides.  At the first
    such row the call raises the error of that row, ValueError for a
    text of neither form and TypeError for a cell that is no text.  What
    is committed then is the target table of before the call (created if
    absent) followed by rows of the batches that precede the failing one,
    and only those: no row of the failing batch or of a later one is
    inserted, no row is skipped to let the rest through, and nothing is
    left uncommitted.  The script converts the timestamp alone: the bid
    and ask cells of rows whose timestamp parses enter the value tuples as
    they were read, whatever they hold. *)
Theorem bad_timestamp_aborts (zip_path table_name : string) (w : world) :
  get_table_name zip_path = Ok table_name ->
  accepts (srv w) table_name = true ->
  (forall infolist,
      fs_zip (fs w) zip_path = Some infolist ->
      Exists (fun r => is_ok (parse_timestamp (c_timestamp r)) = false)
             (csv_rows infolist) ->
      exists w' e, process_zip_file zip_path w = (w', Raise e)) /\
  (forall (before after : list zip_info) (entry : zip_info)
          (done rest : list (list csv_row)) (good more : list csv_row)
          (row : csv_row) (values : list tick) (e : exn),
      fs_zip (fs w) zip_path = Some (before ++ entry :: after) ->
      Str.endswith (filename entry) ".csv" = true ->
      read_csv (payload entry) chunk_size
      = Ok (done ++ (good ++ row :: more) :: rest) ->
      to_values (csv_rows before ++ concat done) = Ok values ->
      Forall (fun r => is_ok (parse_timestamp (c_timestamp r)) = true) good ->
      parse_timestamp (c_timestamp row) = Raise e ->
      match c_timestamp row with
      | Text _ => e = ValueError
      | NonText => e = TypeError
      end /\
      exists w',
        process_zip_file zip_path w = (w', Raise e) /\
        committed (conn w')
          = load table_name values (ensure table_name (working (conn w))) /\
        working (conn w') = committed (conn w') /\
        exists tb added,
          ensure table_name (working (conn w)) !! table_name = Some tb /\
          committed (conn w') !! table_name
            = Some (mk_table (t_schema tb) (t_rows tb ++ added)) /\
          (forall r, In r added -> In r values)) /\
  (forall chunk,
      Forall (fun r => is_ok (parse_timestamp (c_timestamp r)) = true) chunk ->
      exists values,
        to_values chunk = Ok values /\
        Forall2 (fun r v => bid v = c_bid r /\ ask v = c_ask r) chunk values).
Proof.
  intros Hn Ha. split; [|split; [|apply to_values_good]].
  { intros infolist Hz Hbad.
    rewrite (process_zip_file_unfold _ _ _ Hn Ha).
    set (w0 := add_event _ _).
    rewrite bind_unfold. unfold open_zip. change (fs w0) with (fs w). rewrite Hz.
    destruct (entries_abort table_name infolist
                (add_event (EvOpenZip zip_path) w0) Hbad) as (w' & e & R).
    exists w', e. now rewrite bind_unfold, R. }
  intros before after entry done rest good more row values e
         Hz Hcsv Hread Hv Hgood Hrow.
  split; [now apply parse_timestamp_cell|].
  rewrite to_values_app in Hv.
  destruct (to_values (csv_rows before)) as [v1|] eqn:E1; [|discriminate].
  destruct (to_values (concat done)) as [v2|] eqn:E2; [|discriminate].
  injection Hv as <-.
  rewrite (process_zip_file_unfold _ _ _ Hn Ha).
  set (w0 := add_event _ _).
  assert (P0 : is_Some (working (conn w0) !! table_name)) by apply ensure_present.
  assert (S0 : settled w0) by reflexivity.
  rewrite bind_unfold. unfold open_zip.
  change (fs w0) with (fs w). rewrite Hz.
  set (w1 := add_event (EvOpenZip zip_path) w0).
  destruct (entries_ok table_name before v1 w1 E1 P0 S0) as (w2 & R2 & F2 & C2).
  set (w3 := add_event (EvReadEntry (filename entry)) w2).
  destruct (chunks_bad table_name done (good ++ row :: more) rest v2 e w3 E2
              (to_values_first_bad _ _ _ _ Hgood Hrow)) as (w4 & R4 & F4 & C4).
  { change (conn w3) with (conn w2). rewrite C2. cbn. now apply load_keeps. }
  { unfold settled. change (conn w3) with (conn w2). now rewrite C2. }
  assert (R : for_each (before ++ entry :: after) (process_entry table_name) w1
              = (w4, Raise e)).
  { rewrite (for_each_app _ _ _ _ _ R2). cbn [for_each].
    rewrite bind_unfold. unfold process_entry at 1. rewrite Hcsv.
    rewrite bind_unfold. cbn [emit]. fold w3.
    rewrite bind_unfold. unfold lift. rewrite Hread. now rewrite R4. }
  exists w4. rewrite bind_unfold, R.
  split; [reflexivity|].
  assert (C : committed (conn w4)
              = load table_name (v1 ++ v2) (ensure table_name (working (conn w)))).
  { rewrite C4. change (conn w3) with (conn w2). rewrite C2. cbn.
    now rewrite load_app. }
  split; [exact C|]. split; [now rewrite C4|].
  destruct (ensure_present table_name (working (conn w))) as [tb Etb].
  destruct (insert_ignore_appends (v1 ++ v2) (t_rows tb)) as (added & Ei & Hin & _).
  exists tb, added. split; [exact Etb|]. split.
  - rewrite C. unfold load. rewrite Etb, Ei. apply lookup_insert_eq.
  - intros r Hr. now apply Hin.
Qed.

Lemma bad_timestamp_aborts_witness :
  let w := blank (sample_fs ["EURUSD-2024-08.zip"]
                    [(eurusd, [mk_entry "a.csv" [tick_110];
                               mk_entry "empty.csv" [];
                               mk_entry "b.csv" [tick_500; tick_bad; tick_nan];
                               mk_entry "c.csv" [tick_1105]])]) in
  exists w',
    process_zip_file eurusd w = (w', Raise ValueError) /\
    t_rows <$> committed (conn w') !! "EURUSD_2024_08"
      = Some [mk_tick (mk_datetime 2024 8 1 0 0 0 110000) "1.08423" "1.08431"].
Proof.
  intros w.
  destruct (proj1 (proj2 (bad_timestamp_aborts eurusd "EURUSD_2024_08" w
                            eq_refl eq_refl))
              [mk_entry "a.csv" [tick_110]; mk_entry "empty.csv" []]
              [mk_entry "c.csv" [tick_1105]]
              (mk_entry "b.csv" [tick_500; tick_bad; tick_nan])
              [] [] [tick_500] [tick_nan] tick_bad
              [mk_tick (mk_datetime 2024 8 1 0 0 0 110000) "1.08423" "1.08431"]
              ValueError)
    as (_ & w' & R & C & _).
  - reflexivity.
  - reflexivity.
  - reflexivity.
  - reflexivity.
  - repeat constructor.
  - reflexivity.
  - exists w'. split; [exact R|]. rewrite C. reflexivity.
Defined.

(** C6, refuted as stated: a row with a non-numeric bid does not abort the
    import; the script converts the timestamp only and hands the cell to
    INSERT IGNORE as it was read. *)
Lemma non_numeric_bid_is_loaded :
  let w := blank (sample_fs ["EURUSD-2024-08.zip"]
                    [(eurusd, [mk_entry "a.csv" [tick_abc]])]) in
  is_number (c_bid tick_abc) = false /\
  snd (process_zip_file eurusd w) = Ok "EURUSD_2024_08" /\
  List.map timestamp <$>
    (t_rows <$> committed (conn (fst (process_zip_file eurusd w))) !! "EURUSD_2024_08")
    = Some [mk_datetime 2024 8 1 0 0 1 0].
Proof. cbv zeta. split; [reflexivity|]. split; reflexivity. Qed.

(** C2, refuted as stated: the fraction .1105 reaches the store as 110500
    microseconds, the literal of six digits, not as the literal cut to
    three digits. *)
Lemma stored_timestamp_keeps_microseconds :
  let w := blank (sample_fs ["EURUSD-2024-08.zip"]
                    [(eurusd, [mk_entry "a.csv" [tick_1105]])]) in
  let stored := mk_datetime 2024 8 1 0 0 0 110500 in
  snd (process_zip_file eurusd w) = Ok "EURUSD_2024_08" /\
  List.map timestamp <$>
    (t_rows <$> committed (conn (fst (process_zip_file eurusd w))) !! "EURUSD_2024_08")
    = Some [stored] /\
  strftime stored "%Y-%m-%d %H:%M:%S.%f" = "2024-08-01 00:00:00.110500" /\
  strftime stored "%Y-%m-%d %H:%M:%S.%f" <> "2024-08-01 00:00:00.110" /\
  stored <> mk_datetime 2024 8 1 0 0 0 110000.
Proof.
  cbv zeta. split; [reflexivity|]. split; [reflexivity|]. split; [reflexivity|].
  split; discriminate.
Qed.

(** the two-row payload of the specification ends as a table of exactly
    two rows *)
Example two_rows_end_to_end :
  let w := blank (sample_fs ["EURUSD-2024-08.zip"]
                    [(eurusd, [mk_entry "EURUSD-2024-08.csv" [tick_110; tick_500]])]) in
  snd (process_zip_file eurusd w) = Ok "EURUSD_2024_08" /\
  t_rows <$> committed (conn (fst (process_zip_file eurusd w))) !! "EURUSD_2024_08"
    = Some [mk_tick (mk_datetime 2024 8 1 0 0 0 110000) "1.08423" "1.08431";
            mk_tick (mk_datetime 2024 8 1 0 0 0 500000) "1.08420" "1.08429"].
Proof. cbv zeta. split; reflexivity. Qed.

End Archive.

(** ** Directory Walker and entry point *)

Section Walker.

Lemma entries_without_csv t : forall infolist w,
  Forall (fun e => Str.endswith (filename e) ".csv" = false) infolist ->
  for_each infolist (process_entry t) w = (w, Ok tt).
Proof.
  induction infolist as [|e infolist IH]; intros w H; [reflexivity|].
  apply Forall_cons in H as [He H]. cbn [for_each].
  rewrite bind_unfold. unfold process_entry at 1. rewrite He.
  now apply IH.
Qed.

Lemma visit_files_extends root files : forall processed w w' result,
  visit_files root files processed w = (w', Ok result) ->
  exists more, result = processed ++ more.
Proof.
  induction files as [|file files IH]; intros processed w w' result; cbn [visit_files].
  - intros [= _ <-]. exists []. now rewrite app_nil_r.
  - destruct (admitted file); [|apply IH].
    rewrite bind_unfold.
    destruct (process_zip_file (path_join root file) w) as [w1 [t|e]]; [|discriminate].
    intros H. apply IH in H as [more ->]. exists (t :: more).
    now rewrite <- app_assoc.
Qed.

Lemma visit_dirs_extends dirs : forall processed w w' result,
  visit_dirs dirs processed w = (w', Ok result) ->
  exists more, result = processed ++ more.
Proof.
  induction dirs as [|[root files] dirs IH]; intros processed w w' result;
    cbn [visit_dirs].
  - intros [= _ <-]. exists []. now rewrite app_nil_r.
  - rewrite bind_unfold.
    destruct (visit_files root files processed w) as [w1 [p|e]] eqn:E; [|discriminate].
    intros H. apply IH in H as [more2 ->].
    apply visit_files_extends in E as [more1 ->].
    exists (more1 ++ more2). now rewrite app_assoc.
Qed.

Lemma visit_files_includes root files : forall processed w w' result file t,
  visit_files root files processed w = (w', Ok result) ->
  In file files -> admitted file = true ->
  get_table_name (path_join root file) = Ok t ->
  In t result.
Proof.
  induction files as [|f files IH]; intros processed w w' result file t;
    cbn [visit_files]; [intros _ []|].
  intros H [-> | Hin] Ha Ht.
  - rewrite Ha, bind_unfold in H.
    destruct (process_zip_file (path_join root file) w) as [w1 [t1|e]] eqn:E;
      [|discriminate].
    apply process_zip_file_returns in E. rewrite Ht in E. injection E as <-.
    apply visit_files_extends in H as [more ->].
    apply in_or_app. left. apply in_or_app. right. now left.
  - destruct (admitted f); [|eapply IH; eassumption].
    rewrite bind_unfold in H.
    destruct (process_zip_file (path_join root f) w) as [w1 [t1|e]]; [|discriminate].
    eapply IH; eassumption.
Qed.

Lemma visit_dirs_includes dirs : forall processed w w' result root files file t,
  visit_dirs dirs processed w = (w', Ok result) ->
  In (root, files) dirs -> In file files -> admitted file = true ->
  get_table_name (path_join root file) = Ok t ->
  In t result.
Proof.
  induction dirs as [|[r fs0] dirs IH]; intros processed w w' result root files file t;
    cbn [visit_dirs]; [intros _ []|].
  rewrite bind_unfold.
  destruct (visit_files r fs0 processed w) as [w1 [p|e]] eqn:E; [|discriminate].
  intros H [[= -> ->] | Hin] Hf Ha Ht.
  - apply visit_dirs_extends in H as [more ->]. apply in_or_app. left.
    eapply visit_files_includes; eassumption.
  - eapply IH; eassumption.
Qed.

Lemma process_data_directory_includes data_dir cfg w w' result root files file t :
  process_data_directory data_dir cfg w = (w', Ok result) ->
  In (root, files) (fs_walk (fs w) data_dir) -> In file files ->
  admitted file = true ->
  get_table_name (path_join root file) = Ok t ->
  In t result.
Proof.
  unfold process_data_directory.
  rewrite bind_unfold. unfold connect.
  destruct (reachable (srv w)); [|discriminate].
  rewrite bind_unfold. unfold create_database_if_not_exists.
  destruct (accepts (srv w) (database cfg)); [|discriminate].
  cbn [print]. rewrite bind_unfold. cbn [walk fs add_line].
  rewrite bind_unfold.
  match goal with |- context [visit_dirs ?d ?p ?x] =>
    destruct (visit_dirs d p x) as [w1 [p1|e]] eqn:E; [|discriminate] end.
  cbn. intros [= _ <-]. intros. eapply visit_dirs_includes; eassumption.
Qed.

(** C10 (as the code has it).  For an archive whose name resolves to a
    table identifier that the store takes, the table is created before the
    archive is opened: whatever happens afterwards, the first event of the
    call is the creation and the table is in the committed catalogue at
    its end.  If
    the archive has no entry with the delimited-text extension, the call
    succeeds with that identifier, reads no entry and inserts nothing: the
    table is the one of before or, if it was absent, the empty table of
    the full declaration; and a run that returns lists the identifier of
    every admitted archive it visited. *)
Theorem table_created_before_entries (zip_path table_name : string) (w : world) :
  get_table_name zip_path = Ok table_name ->
  accepts (srv w) table_name = true ->
  (forall w' r,
      process_zip_file zip_path w = (w', r) ->
      (exists evs, log w' = log w ++ EvCreateTable table_name :: evs) /\
      is_Some (committed (conn w') !! table_name)) /\
  (forall infolist,
      fs_zip (fs w) zip_path = Some infolist ->
      Forall (fun e => Str.endswith (filename e) ".csv" = false) infolist ->
      exists w',
        process_zip_file zip_path w = (w', Ok table_name) /\
        log w' = log w ++ [EvCreateTable table_name; EvOpenZip zip_path] /\
        committed (conn w') = ensure table_name (working (conn w)) /\
        (working (conn w) !! table_name = None ->
         committed (conn w') !! table_name = Some (mk_table tick_schema []))) /\
  (forall data_dir cfg w0 w1 result root files file,
      process_data_directory data_dir cfg w0 = (w1, Ok result) ->
      In (root, files) (fs_walk (fs w0) data_dir) -> In file files ->
      admitted file = true -> path_join root file = zip_path ->
      In table_name result).
Proof.
  intros Hn Hacc. split; [|split].
  - intros w' r. rewrite (process_zip_file_unfold _ _ _ Hn Hacc).
    set (w0 := add_event _ _). intros H.
    assert (S : sane (infolist ← open_zip zip_path;
                      for_each infolist (process_entry table_name);;
                      print ("Finished processing " +:+ table_name);;
                      mret table_name)).
    { apply sane_bind; [apply sane_open_zip|]. intros infolist.
      apply sane_bind; [apply sane_for_each; intros e; apply sane_process_entry|].
      intros _. apply sane_bind; [apply sane_print|]. intros _. apply sane_ret. }
    destruct (S _ _ _ H) as [(_ & [evs L] & _ & K & _) _]. split.
    + exists evs. rewrite L.
      change (log w0) with (log w ++ [EvCreateTable table_name]).
      now rewrite <- app_assoc.
    + apply (K table_name). split; apply ensure_present.
  - intros infolist Hz Hcsv. rewrite (process_zip_file_unfold _ _ _ Hn Hacc).
    set (w0 := add_event _ _).
    rewrite bind_unfold. unfold open_zip. change (fs w0) with (fs w). rewrite Hz.
    rewrite bind_unfold, (entries_without_csv _ _ _ Hcsv).
    subst w0. eexists. split; [reflexivity|].
    cbn [log conn committed add_event set_conn add_line].
    split; [now rewrite <- app_assoc|]. split; [reflexivity|].
    intros Habs. unfold ensure. rewrite Habs. apply lookup_insert_eq.
  - intros data_dir cfg w0 w1 result root files file H Hd Hf Ha Hp.
    eapply process_data_directory_includes; try eassumption. now rewrite Hp.
Qed.

Lemma table_created_before_entries_witness :
  let w := blank (sample_fs ["EURUSD-2024-08.zip"]
                    [(eurusd, [mk_entry "readme.txt" [tick_bad]])]) in
  exists w',
    process_zip_file eurusd w = (w', Ok "EURUSD_2024_08") /\
    log w' = [EvCreateTable "EURUSD_2024_08"; EvOpenZip eurusd] /\
    committed (conn w') !! "EURUSD_2024_08" = Some (mk_table tick_schema []).
Proof.
  intros w.
  destruct (proj1 (proj2 (table_created_before_entries eurusd "EURUSD_2024_08" w
                            eq_refl eq_refl))
              [mk_entry "readme.txt" [tick_bad]] eq_refl)
    as (w' & R & L & _ & T).
  - repeat constructor.
  - exists w'. split; [exact R|]. split; [exact L|]. apply T. reflexivity.
Defined.

(** C10, refuted as stated: an archive that passes the admission filter
    but whose name has no three tokens gets no table; the call raises
    before anything is created. *)
Lemma admitted_archive_without_table :
  let w := blank (sample_fs ["USD.zip"] [("./data/USD.zip", [])]) in
  admitted "USD.zip" = true /\
  fs_zip (fs w) (path_join "./data" "USD.zip") = Some [] /\
  snd (process_zip_file (path_join "./data" "USD.zip") w) = Raise IndexError /\
  committed (conn (fst (process_zip_file (path_join "./data" "USD.zip") w))) = ∅ /\
  log (fst (process_zip_file (path_join "./data" "USD.zip") w)) = [].
Proof. cbv zeta. repeat split; reflexivity. Qed.


Lemma visit_files_app root files1 : forall files2 processed w,
  visit_files root (files1 ++ files2) processed w
  = match visit_files root files1 processed w with
    | (w1, Ok p1) => visit_files root files2 p1 w1
    | (w1, Raise e) => (w1, Raise e)
    end.
Proof.
  induction files1 as [|file files1 IH]; intros files2 processed w; [reflexivity|].
  cbn [app visit_files]. destruct (admitted file); [|apply IH].
  rewrite !bind_unfold.
  destruct (process_zip_file (path_join root file) w) as [w1 [t|e]];
    [apply IH | reflexivity].
Qed.




End Walker.

Section EntryPoint.

Lemma print_lines tables : forall w,
  for_each tables (fun table => print ("- " +:+ table)) w
  = (mk_world (fs w) (srv w) (conn w)
       (stdout w ++ List.map (fun table => "- " +:+ table) tables) (log w),
     Ok tt).
Proof.
  induction tables as [|t tables IH]; intros w; cbn [for_each List.map].
  - rewrite app_nil_r. now destruct w.
  - rewrite bind_unfold. cbn [print]. rewrite IH. cbn.
    now rewrite <- app_assoc.
Qed.

Lemma main_unfold args w :
  fs_exists (fs w) (arg_data_dir args) = true ->
  main (Options args) w =
  (processed_tables ← process_data_directory (arg_data_dir args) (arg_config args);
   print ("Import completed. Processed " +:+ str_nat (length processed_tables)
          +:+ " tables:");;
   for_each processed_tables (fun table => print ("- " +:+ table)))
    (add_line ("Starting forex data import from " +:+ arg_data_dir args) w).
Proof.
  intros E. unfold main. rewrite bind_unfold. cbn [parse_arguments].
  rewrite bind_unfold. cbn [path_exists]. rewrite E.
  reflexivity.
Qed.

(** C9 (as the code has it).  When the command line parses and the data
    root directory does not exist, the process prints the error line and
    exits with status 1.  When the directory exists and the run returns,
    the process prints the summary (the count and one line per table
    identifier) and exits with status 0.  When it exists and an error
    propagates out of the run, the process exits with status 1 and prints
    no summary.  When the command line asks for the help or is not
    accepted, the process ends in the parser, with status 0 after the
    help and with status 2 otherwise, whether the directory exists or
    not. *)
Theorem main_exit_status (args : arguments) (w : world) :
  let data_dir := arg_data_dir args in
  let started := add_line ("Starting forex data import from " +:+ data_dir) w in
  (fs_exists (fs w) data_dir = false ->
   run (Options args) w
   = (disconnect (add_line ("Error: Data directory " +:+ data_dir
                            +:+ " does not exist.") w), 1)) /\
  (fs_exists (fs w) data_dir = true ->
   forall w1 tables,
     process_data_directory data_dir (arg_config args) started = (w1, Ok tables) ->
     snd (run (Options args) w) = 0 /\
     stdout (fst (run (Options args) w))
     = stdout w1 ++
       ("Import completed. Processed " +:+ str_nat (length tables) +:+ " tables:")
       :: List.map (fun table => "- " +:+ table) tables) /\
  (fs_exists (fs w) data_dir = true ->
   forall w1 e,
     process_data_directory data_dir (arg_config args) started = (w1, Raise e) ->
     snd (run (Options args) w) = 1 /\
     stdout (fst (run (Options args) w)) = stdout w1) /\
  (forall text, run (Help text) w = (disconnect (add_line text w), 0)) /\
  run Unrecognized w = (disconnect w, 2).
Proof.
  intros data_dir started. split; [|split; [|split; [|split]]].
  - intros E. unfold run, main. rewrite bind_unfold. cbn [parse_arguments].
    rewrite bind_unfold. cbn [path_exists].
    fold data_dir. rewrite E. reflexivity.
  - intros E w1 tables H. unfold run. rewrite (main_unfold _ _ E).
    fold data_dir started. rewrite bind_unfold, H.
    rewrite bind_unfold. cbn [print]. rewrite print_lines.
    split; [reflexivity|]. cbn. now rewrite <- app_assoc.
  - intros E w1 e H.
    destruct (sane_process_data_directory _ _ _ _ _ H) as [_ P].
    unfold run. rewrite (main_unfold _ _ E).
    fold data_dir started. rewrite bind_unfold, H.
    destruct e; try (now split); contradiction.
  - reflexivity.
  - reflexivity.
Qed.

Lemma main_exit_status_witness :
  let w := blank (sample_fs ["EURUSD-2024-08.zip"; "readme.zip"]
                    [(eurusd, [mk_entry "a.csv" [tick_110; tick_500]])]) in
  snd (run (Options default_args) w) = 0 /\
  stdout (fst (run (Options default_args) w))
  = ["Starting forex data import from ./data";
     "Using database: forex_data";
     "Processing ./data/EURUSD-2024-08.zip into table EURUSD_2024_08";
     "Inserted 2 records into EURUSD_2024_08";
     "Finished processing EURUSD_2024_08";
     "Import completed. Processed 1 tables:";
     "- EURUSD_2024_08"].
Proof.
  intros w.
  pose (p := process_data_directory "./data" (arg_config default_args)
               (add_line "Starting forex data import from ./data" w)).
  assert (Hp : p = (fst p, Ok ["EURUSD_2024_08"])) by (vm_compute; reflexivity).
  destruct (proj1 (proj2 (main_exit_status default_args w)) eq_refl
              (fst p) ["EURUSD_2024_08"] Hp) as [H1 H2].
  split; [exact H1|]. rewrite H2. vm_compute. reflexivity.
Defined.

(** C9, refuted as stated: the data root directory exists, an admitted
    archive has a name of one token, and the process exits with status 1;
    and where no directory exists at all, the process that is asked for
    the help exits with status 0. *)
Lemma existing_directory_nonzero_exit :
  ~ (forall args w,
       fs_exists (fs w) (arg_data_dir args) = true ->
       snd (run (Options args) w) = 0) /\
  ~ (forall argv w,
       (forall path, fs_exists (fs w) path = false) -> snd (run argv w) <> 0).
Proof.
  split.
  - intros C.
    specialize (C default_args
                  (blank (sample_fs ["USD.zip"] [("./data/USD.zip", [])])) eq_refl).
    vm_compute in C. discriminate C.
  - intros C.
    apply (C (Help "usage: loadcsvs.py [-h]")
             (blank (mk_fs (fun _ => false) (fun _ => []) (fun _ => None)))
             (fun _ => eq_refl)).
    reflexivity.
Qed.

End EntryPoint.

(** ** Table names: directories and collisions *)

Section TableNames.

Lemma startswith_slash file :
  Str.occurs "/" file = false -> Str.startswith file "/" = false.
Proof.
  destruct file as [|c file]; [reflexivity|]. cbn [Str.occurs Str.startswith].
  intros H. apply orb_false_iff in H as [-> _]. reflexivity.
Qed.

Lemma basename_path_join root file :
  Str.occurs "/" file = false -> basename (path_join root file) = file.
Proof.
  intros H. unfold path_join. rewrite (startswith_slash _ H).
  destruct (String.eqb root "") eqn:E0; cbn [orb].
  - apply String.eqb_eq in E0. subst root. now apply basename_plain.
  - destruct (Str.endswith root "/") eqn:E1.
    + apply endswith_spec in E1 as [p ->]. rewrite app_assoc_s.
      now apply basename_dir.
    + now apply basename_dir.
Qed.

(** X1.  The table of an archive depends on the name of the file alone,
    not on the directory in which the walk finds it: archives of the same
    name below different directories are loaded into one table. *)
Theorem table_name_ignores_directory (root root' file : string) :
  Str.occurs "/" file = false ->
  get_table_name (path_join root file) = get_table_name file /\
  get_table_name (path_join root file) = get_table_name (path_join root' file).
Proof.
  intros H.
  assert (G : forall r, get_table_name (path_join r file) = get_table_name file).
  { intros r. rewrite !get_table_name_parts. unfold name_parts.
    now rewrite basename_path_join, basename_plain. }
  split; [apply G | now rewrite !G].
Qed.

Lemma table_name_ignores_directory_witness :
  get_table_name (path_join "./data/Aug2024" "AUDJPY-2024-09.zip")
  = get_table_name (path_join "./data/Sep2024/" "AUDJPY-2024-09.zip").
Proof.
  exact (proj2 (table_name_ignores_directory "./data/Aug2024" "./data/Sep2024/"
                  "AUDJPY-2024-09.zip" eq_refl)).
Defined.

Lemma is_word_spec s :
  is_word s = true -> is_token s = true /\ Str.occurs "_" s = false.
Proof.
  unfold is_word. intros H. apply andb_true_iff in H as [H1 H2].
  now rewrite negb_true_iff in H2.
Qed.

Lemma split_identifier p y m :
  Str.occurs "_" p = false -> Str.occurs "_" y = false ->
  Str.occurs "_" m = false ->
  Str.split "_" (p +:+ "_" +:+ y +:+ "_" +:+ m) = [p; y; m].
Proof.
  intros Hp Hy Hm.
  change (p +:+ "_" +:+ y +:+ "_" +:+ m)
    with (p +:+ String "_" (y +:+ String "_" m)).
  rewrite split_app by exact Hp. rewrite split_app by exact Hy.
  now rewrite split_absent.
Qed.

(** X2.  Archives named after different pairs or months get different
    tables, as long as no token holds an underscore: the identifier
    determines the three tokens it was built from. *)
Theorem table_name_injective (p y m ext p' y' m' ext' : string) :
  is_word p = true -> is_word y = true -> is_word m = true ->
  is_word p' = true -> is_word y' = true -> is_word m' = true ->
  Str.occurs "/" ext = false -> Str.occurs "/" ext' = false ->
  get_table_name (p +:+ "-" +:+ y +:+ "-" +:+ m +:+ "." +:+ ext)
  = get_table_name (p' +:+ "-" +:+ y' +:+ "-" +:+ m' +:+ "." +:+ ext') ->
  p = p' /\ y = y' /\ m = m'.
Proof.
  intros Hp Hy Hm Hp' Hy' Hm' He He'.
  apply is_word_spec in Hp as [Tp Up]. apply is_word_spec in Hy as [Ty Uy].
  apply is_word_spec in Hm as [Tm Um]. apply is_word_spec in Hp' as [Tp' Up'].
  apply is_word_spec in Hy' as [Ty' Uy']. apply is_word_spec in Hm' as [Tm' Um'].
  rewrite !get_table_name_parts.
  rewrite (name_parts_of_stem p y m ext Tp Ty Tm He).
  rewrite (name_parts_of_stem p' y' m' ext' Tp' Ty' Tm' He').
  intros E.
  assert (E2 : Str.split "_" (p +:+ "_" +:+ y +:+ "_" +:+ m)
               = Str.split "_" (p' +:+ "_" +:+ y' +:+ "_" +:+ m'))
    by (f_equal; congruence).
  rewrite !split_identifier in E2 by assumption.
  now injection E2.
Qed.

Lemma table_name_injective_witness :
  get_table_name "EURUSD-2024-08.zip" = get_table_name "EURUSD-2024-08.tar.zip" /\
  ("EURUSD" = "EURUSD" /\ "2024" = "2024" /\ "08" = "08").
Proof.
  split; [reflexivity|].
  apply (table_name_injective "EURUSD" "2024" "08" "zip"
           "EURUSD" "2024" "08" "tar.zip"); reflexivity.
Defined.

End TableNames.

(** ** Timestamps: validity, round trip, truncation *)

Section Timestamps.
Import Re Strptime.

Lemma datetime_new_ok y m d H M S us dt :
  datetime_new y m d H M S us = Ok dt ->
  dt = mk_datetime y m d H M S us /\
  valid_clock y m d H M S = true /\ 0 <= us <= 999999.
Proof.
  unfold datetime_new. fold (valid_clock y m d H M S).
  destruct (valid_clock y m d H M S); cbn [andb]; [|discriminate].
  unfold within. destruct (Z.leb_spec 0 us); cbn [andb]; [|discriminate].
  destruct (Z.leb_spec us 999999); [|discriminate].
  intros [= <-]. repeat split; lia.
Qed.

Lemma strptime_ok (s : cell) fmt dt :
  strptime s fmt = Ok dt ->
  valid_clock (year dt) (month dt) (day dt) (hour dt) (minute dt) (second dt) = true
  /\ 0 <= microsecond dt <= 999999.
Proof.
  unfold strptime. destruct s as [s|]; [|discriminate].
  destruct (pattern fmt) as [r|]; [|discriminate].
  destruct (match_ r s) as [[[found mt] rest]|]; [|discriminate].
  destruct (negb (String.eqb rest "")); [discriminate|].
  intros H. apply datetime_new_ok in H as (-> & V & U). now split.
Qed.

(** X3.  Whatever the text, a timestamp that parses is a date of the
    calendar with a time of the day and at most 999999 microseconds: the
    parser never yields a 30th of February, a 24th hour or a 60th second. *)
Theorem parse_timestamp_valid (s : string) (dt : datetime) :
  parse_timestamp s = Ok dt ->
  valid_clock (year dt) (month dt) (day dt) (hour dt) (minute dt) (second dt) = true
  /\ 0 <= microsecond dt <= 999999.
Proof.
  rewrite parse_timestamp_fallback.
  destruct (strptime s "%Y%m%d %H:%M:%S.%f") as [dt1|e] eqn:E.
  - intros [= <-]. eapply strptime_ok, E.
  - apply strptime_ok.
Qed.

Lemma parse_timestamp_valid_witness :
  valid_clock 2024 2 29 23 59 59 = true /\ 0 <= 999999 <= 999999.
Proof.
  exact (parse_timestamp_valid "20240229 23:59:59.999999"
           (mk_datetime 2024 2 29 23 59 59 999999) eq_refl).
Defined.

Lemma zeros_app a b : zeros a +:+ zeros b = zeros (a + b).
Proof. induction a as [|a IH]; cbn; [reflexivity | now rewrite IH]. Qed.

Lemma int_zeros n : int (zeros n) = 0.
Proof.
  rewrite (int_digits _ (zeros_digits n)).
  induction n as [|n IH]; [reflexivity | exact IH].
Qed.

(** X4.  Zeros at the end of the fraction do not count: a fraction is read
    as the leading digits of the microseconds, so .5 and .500000 are the
    same instant, and a fraction of zeros is the whole second. *)
Theorem fraction_trailing_zeros (y m d H M S : Z) (frac : string) (k : nat) :
  valid_clock y m d H M S = true ->
  all_digits frac = true ->
  (1 <= String.length frac)%nat -> (String.length frac + k <= 6)%nat ->
  parse_timestamp (stamp y m d H M S +:+ "." +:+ frac +:+ zeros k)
  = parse_timestamp (stamp y m d H M S +:+ "." +:+ frac) /\
  parse_timestamp (stamp y m d H M S +:+ "." +:+ zeros (String.length frac))
  = parse_timestamp (stamp y m d H M S).
Proof.
  intros Hv Hd H1 H2. split.
  - rewrite (parse_fraction_text y m d H M S (frac +:+ zeros k) Hv).
    + rewrite (parse_fraction_text y m d H M S frac Hv Hd) by lia.
      rewrite app_assoc_s, zeros_app, length_app_s, zeros_length.
      replace (k + (6 - (String.length frac + k)))%nat
        with (6 - String.length frac)%nat by lia.
      reflexivity.
    + now rewrite all_digits_app, Hd, zeros_digits.
    + rewrite length_app_s, zeros_length. lia.
  - rewrite (parse_fraction_text y m d H M S (zeros (String.length frac)) Hv).
    + rewrite (parse_seconds_text y m d H M S Hv).
      now rewrite zeros_app, int_zeros.
    + apply zeros_digits.
    + rewrite zeros_length. lia.
Qed.

Lemma fraction_trailing_zeros_witness :
  parse_timestamp "20240801 00:00:00.5000" = parse_timestamp "20240801 00:00:00.5".
Proof.
  exact (proj1 (fraction_trailing_zeros 2024 8 1 0 0 0 "5" 3
                  eq_refl eq_refl ltac:(simpl; lia) ltac:(simpl; lia))).
Defined.

Lemma zpad6_split n : zpad 6 n = zpad 3 (n / 1000) +:+ zpad 3 n.
Proof.
  assert (E : n / 10 / 10 / 10 = n / 1000) by (rewrite !Z.div_div by lia; reflexivity).
  cbn [zpad]. rewrite E, !app_assoc_s. reflexivity.
Qed.

Lemma format_of_datetime y m d H M S us :
  0 <= us <= 999999 ->
  format_datetime_with_ms (mk_datetime y m d H M S us)
  = literal y m d H M S (zpad 3 (us / 1000)).
Proof.
  intros U.
  rewrite <- (int_zpad_small 6 us) at 1 by (cbn; lia).
  rewrite format_datetime_with_ms_digits;
    [|apply zpad_digits | apply zpad_length].
  rewrite zpad6_split. f_equal.
Qed.

Lemma literal_length y m d H M S f :
  String.length (literal y m d H M S f)
  = (String.length (str_int y) + 16 + String.length f)%nat.
Proof.
  unfold literal. rewrite !length_app_s, !zpad_length. cbn [String.length]. lia.
Qed.

(** X5.  The helper cuts the microseconds down to milliseconds, it does
    not round them: the literal shows the three digits of the whole
    milliseconds after the year in its own digits, so it is 23 characters
    long from the year 1000 on and shorter before, and it is the same for
    two instants of the same millisecond. *)
Theorem format_truncates (y m d H M S us us' : Z) (dt dt' : datetime) :
  datetime_new y m d H M S us = Ok dt ->
  datetime_new y m d H M S us' = Ok dt' ->
  format_datetime_with_ms dt = literal y m d H M S (zpad 3 (us / 1000)) /\
  String.length (format_datetime_with_ms dt)
  = (String.length (str_int y) + 19)%nat /\
  (1000 <= y -> String.length (format_datetime_with_ms dt) = 23%nat) /\
  (y < 1000 -> (String.length (format_datetime_with_ms dt) < 23)%nat) /\
  (us / 1000 = us' / 1000 ->
   format_datetime_with_ms dt = format_datetime_with_ms dt').
Proof.
  intros E E'.
  apply datetime_new_ok in E as (-> & V & U).
  apply datetime_new_ok in E' as (-> & _ & U').
  destruct (valid_clock_ranges y m d H M S V) as (Ry & _).
  rewrite !format_of_datetime by assumption.
  rewrite literal_length, zpad_length.
  split; [reflexivity|]. split; [lia|]. split; [|split].
  - intros Hy. rewrite str_int_year by lia. now rewrite zpad_length.
  - intros Hy. rewrite str_int_length by lia.
    destruct (y <? 10); [lia|]. destruct (y <? 100); [lia|].
    destruct (Z.ltb_spec y 1000); lia.
  - now intros ->.
Qed.

Lemma format_truncates_witness :
  format_datetime_with_ms (mk_datetime 2024 8 1 0 0 0 110999)
  = format_datetime_with_ms (mk_datetime 2024 8 1 0 0 0 110000).
Proof.
  exact (proj2 (proj2 (proj2 (proj2 (format_truncates 2024 8 1 0 0 0 110999 110000
                                       _ _ eq_refl eq_refl)))) eq_refl).
Defined.

End Timestamps.

Section RoundTrip.
Import Re Strptime.

(** X6.  Every datetime is the value of a text: the text YYYYMMDD
    HH:MM:SS of its wall-clock time, followed by a dot and its
    microseconds in six digits, parses to it, and so does the text
    without fraction when it has no microseconds. *)
Theorem every_datetime_is_parsed (y m d H M S us : Z) (dt : datetime) :
  datetime_new y m d H M S us = Ok dt ->
  parse_timestamp (stamp y m d H M S +:+ "." +:+ zpad 6 us) = Ok dt /\
  (us = 0 -> parse_timestamp (stamp y m d H M S) = Ok dt).
Proof.
  intros E. apply datetime_new_ok in E as (-> & V & U). split.
  - rewrite (parse_fraction_text y m d H M S (zpad 6 us) V (zpad_digits _ _))
      by (rewrite zpad_length; lia).
    rewrite zpad_length. cbn [Nat.sub zeros]. rewrite app_nil_r_s.
    now rewrite int_zpad_small by (cbn; lia).
  - intros ->. now apply parse_seconds_text.
Qed.

Lemma every_datetime_is_parsed_witness :
  parse_timestamp "20240801 13:05:09.000042"
  = Ok (mk_datetime 2024 8 1 13 5 9 42).
Proof. exact (proj1 (every_datetime_is_parsed 2024 8 1 13 5 9 42 _ eq_refl)). Defined.

Lemma matches_class_one p c s :
  one p (String c s) = Some (String c "", s) ->
  matches (Class p) (String c s) = [([], String c "", s)].
Proof. intros H. cbn [matches]. now rewrite H. Qed.

Lemma matches_seq_one r1 r2 s c1 m1 s1 :
  matches r1 s = [(c1, m1, s1)] ->
  matches (Seq r1 r2) s
  = List.map (fun '(c2, m2, s2) => (c1 ++ c2, m1 +:+ m2, s2)) (matches r2 s1).
Proof. intros H. cbn [matches]. rewrite H. cbn [List.flat_map]. apply app_nil_r. Qed.

Lemma matches_digit k s :
  matches (Class Digit) (String (digit_char (k mod 10)) s)
  = [([], String (digit_char (k mod 10)) "", s)].
Proof.
  apply matches_class_one, one_digit; [|now left].
  apply (digit_char_spec _ (mod10_bound k)).
Qed.

Lemma matches_group name r s :
  matches (Group name r) s
  = List.map (fun '(c, m, s') => ((name, m) :: c, m, s')) (matches r s).
Proof. reflexivity. Qed.

Lemma matches_seq_none r1 r2 s : matches r1 s = [] -> matches (Seq r1 r2) s = [].
Proof. intros H. cbn [matches]. now rewrite H. Qed.

(** the year of the parser is four digits: a text with a dash among its
    first four characters, or after them, goes no further *)
Lemma year_refuses_dash w y rest K :
  (1 <= w <= 4)%nat ->
  matches (Seq (Group "Y" (Seq (Class Digit) (Seq (Class Digit)
                           (Seq (Class Digit) (Class Digit)))))
               (Seq (Group "m" (Alt (Seq (Lit "1") (Class (Range "0" "2")))
                               (Alt (Seq (Lit "0") (Class (Range "1" "9")))
                                    (Class (Range "1" "9"))))) K))
          (zpad w y +:+ String "-" rest) = [].
Proof.
  intros Hw.
  assert (C : w = 1%nat \/ w = 2%nat \/ w = 3%nat \/ w = 4%nat) by lia.
  destruct C as [-> | [-> | [-> | ->]]].
  - apply matches_seq_none. rewrite matches_group.
    cbn [zpad String.append].
    rewrite (matches_seq_one _ _ _ _ _ _ (matches_digit _ _)).
    reflexivity.
  - apply matches_seq_none. rewrite matches_group.
    cbn [zpad String.append].
    rewrite (matches_seq_one _ _ _ _ _ _ (matches_digit _ _)).
    rewrite (matches_seq_one _ _ _ _ _ _ (matches_digit _ _)).
    reflexivity.
  - apply matches_seq_none. rewrite matches_group.
    cbn [zpad String.append].
    rewrite (matches_seq_one _ _ _ _ _ _ (matches_digit _ _)).
    rewrite (matches_seq_one _ _ _ _ _ _ (matches_digit _ _)).
    rewrite (matches_seq_one _ _ _ _ _ _ (matches_digit _ _)).
    reflexivity.
  - erewrite matches_seq_one.
    2:{ rewrite matches_group. cbn [zpad String.append].
        rewrite (matches_seq_one _ _ _ _ _ _ (matches_digit _ _)).
        rewrite (matches_seq_one _ _ _ _ _ _ (matches_digit _ _)).
        rewrite (matches_seq_one _ _ _ _ _ _ (matches_digit _ _)).
        rewrite matches_digit. reflexivity. }
    reflexivity.
Qed.

(** the text of the helper starts with the year and a dash: no format of
    the parser takes it *)
Lemma strptime_refuses_dash w y rest fmt :
  (1 <= w <= 4)%nat ->
  fmt = "%Y%m%d %H:%M:%S.%f" \/ fmt = "%Y%m%d %H:%M:%S" ->
  strptime (zpad w y +:+ String "-" rest) fmt = Raise ValueError.
Proof.
  intros Hw F. unfold strptime.
  destruct (pattern fmt) as [r|] eqn:E; [|reflexivity].
  assert (N : matches r (zpad w y +:+ String "-" rest) = []).
  { destruct F as [-> | ->]; vm_compute in E; injection E as <-;
      now apply year_refuses_dash. }
  unfold match_. now rewrite N.
Qed.

Lemma str_int_digits y :
  1 <= y <= 9999 -> exists w, (1 <= w <= 4)%nat /\ str_int y = zpad w y.
Proof.
  intros H.
  destruct (Z.ltb_spec y 10);
    [exists 1%nat; split; [lia | apply str_int_zpad; cbn; lia]|].
  destruct (Z.ltb_spec y 100);
    [exists 2%nat; split; [lia | apply str_int_zpad; cbn; lia]|].
  destruct (Z.ltb_spec y 1000);
    [exists 3%nat; split; [lia | apply str_int_zpad; cbn; lia]|].
  exists 4%nat; split; [lia | apply str_int_zpad; cbn; lia].
Qed.

(** X7.  The literal of the helper is no input of the parser: the date
    with dashes is refused by both formats, so a timestamp rendered by
    [format_datetime_with_ms] cannot be read back by [parse_timestamp]. *)
Theorem formatted_is_unparseable (y m d H M S us : Z) (dt : datetime) :
  datetime_new y m d H M S us = Ok dt ->
  parse_timestamp (format_datetime_with_ms dt) = Raise ValueError.
Proof.
  intros E. apply datetime_new_ok in E as (-> & V & U).
  destruct (valid_clock_ranges y m d H M S V) as (Ry & _).
  destruct (str_int_digits y Ry) as (w & Hw & Ey).
  rewrite format_of_datetime by exact U.
  unfold literal. rewrite Ey.
  change (zpad w y +:+ "-" +:+ ?x) with (zpad w y +:+ String "-" x).
  unfold parse_timestamp.
  rewrite (strptime_refuses_dash w y _ "%Y%m%d %H:%M:%S.%f" Hw) by now left.
  now rewrite (strptime_refuses_dash w y _ "%Y%m%d %H:%M:%S" Hw) by now right.
Qed.

Lemma formatted_is_unparseable_witness :
  parse_timestamp (format_datetime_with_ms (mk_datetime 2024 8 1 0 0 0 110500))
  = Raise ValueError.
Proof. exact (formatted_is_unparseable 2024 8 1 0 0 0 110500 _ eq_refl). Defined.

End RoundTrip.

(** ** Steps that respect a relation and a set of exceptions *)

Section Respects.

Variable R : world -> world -> Prop.
Variable E : exn -> Prop.

Hypothesis R_refl : forall w, R w w.
Hypothesis R_trans : forall w1 w2 w3, R w1 w2 -> R w2 w3 -> R w1 w3.
Hypothesis R_line : forall l w, R w (add_line l w).
Hypothesis R_event : forall ev w, R w (add_event ev w).
Hypothesis R_create : forall t w,
  R w (set_conn (mk_conn (ensure t (working (conn w)))
                         (ensure t (working (conn w)))) w).
Hypothesis R_insert : forall t values w,
  R w (set_conn (mk_conn (committed (conn w))
                         (load t values (working (conn w)))) w).
Hypothesis R_commit : forall w,
  R w (set_conn (mk_conn (working (conn w)) (working (conn w))) w).
Hypothesis R_close : forall w, R w (disconnect w).
Hypothesis E_index : E IndexError.
Hypothesis E_value : E ValueError.
Hypothesis E_type : E TypeError.
Hypothesis E_zip : E BadZipFile.
Hypothesis E_programming : E ProgrammingError.

Lemma respects_ret {A} (a : A) : respects R E (mret a).
Proof. intros w w' r [= <- <-]. split; [apply R_refl | exact I]. Qed.

Lemma respects_bind {A B} (m : M A) (k : A -> M B) :
  respects R E m -> (forall a, respects R E (k a)) -> respects R E (m ≫= k).
Proof.
  intros Hm Hk w w' r. rewrite bind_unfold.
  destruct (m w) as [w1 [a|e]] eqn:Em; destruct (Hm _ _ _ Em) as [R1 P1].
  - intros Ek. destruct (Hk a _ _ _ Ek) as [R2 P2].
    split; [eapply R_trans; eassumption | exact P2].
  - intros [= <- <-]. now split.
Qed.

Lemma respects_lift {A} (r : result A) :
  (forall e, r = Raise e -> E e) -> respects R E (lift r).
Proof.
  intros H w w' r' [= <- <-]. split; [apply R_refl|].
  destruct r; [exact I | now apply H].
Qed.

Lemma respects_for_each {A} (body : A -> M unit) l :
  (forall x, respects R E (body x)) -> respects R E (for_each l body).
Proof.
  intros H. induction l as [|x l IH]; cbn [for_each].
  - apply respects_ret.
  - apply respects_bind; [apply H | intros _; exact IH].
Qed.

Lemma respects_print line : respects R E (print line).
Proof. intros w w' r [= <- <-]. split; [apply R_line | exact I]. Qed.

Lemma respects_emit ev : respects R E (emit ev).
Proof. intros w w' r [= <- <-]. split; [apply R_event | exact I]. Qed.

Lemma respects_create t : respects R E (execute_create_table t).
Proof.
  intros w w' r. unfold execute_create_table.
  destruct (accepts (srv w) t); intros [= <- <-].
  - split; [|exact I]. eapply R_trans; [apply R_create | apply R_event].
  - split; [apply R_refl | exact E_programming].
Qed.

Lemma respects_executemany t values :
  respects R E (executemany_insert_ignore t values).
Proof.
  intros w w' r. destruct values as [|v values].
  { intros [= <- <-]. split; [apply R_refl | exact I]. }
  destruct (working (conn w) !! t) as [tb|] eqn:Et.
  - rewrite executemany_load by (rewrite Et; eauto). intros [= <- <-].
    split; [|exact I]. eapply R_trans; [apply R_insert | apply R_event].
  - unfold executemany_insert_ignore. rewrite Et. intros [= <- <-].
    split; [apply R_refl | exact E_programming].
Qed.

Lemma respects_commit : respects R E commit.
Proof.
  intros w w' r [= <- <-]. split; [|exact I].
  eapply R_trans; [apply R_commit | apply R_event].
Qed.

Lemma respects_process_chunk t chunk : respects R E (process_chunk t chunk).
Proof.
  unfold process_chunk. apply respects_bind.
  - apply respects_lift. intros e He.
    now destruct (to_values_raises _ _ He) as [-> | ->].
  - intros values. apply respects_bind; [apply respects_executemany|]. intros _.
    apply respects_bind; [apply respects_commit|]. intros _. apply respects_print.
Qed.

Lemma respects_process_entry t e : respects R E (process_entry t e).
Proof.
  unfold process_entry.
  destruct (Str.endswith (filename e) ".csv"); [|apply respects_ret].
  apply respects_bind; [apply respects_emit|]. intros _.
  apply respects_bind.
  - apply respects_lift. intros e0. unfold read_csv.
    destruct (payload e); discriminate.
  - intros frames. apply respects_for_each. intros c. apply respects_process_chunk.
Qed.

Lemma respects_open_zip path : respects R E (open_zip path).
Proof.
  intros w w' r. unfold open_zip. destruct (fs_zip (fs w) path); intros [= <- <-].
  - split; [apply R_event | exact I].
  - split; [apply R_refl | exact E_zip].
Qed.

Lemma respects_process_zip_file path : respects R E (process_zip_file path).
Proof.
  unfold process_zip_file. apply respects_bind.
  - apply respects_lift. intros e He.
    now rewrite (get_table_name_raises _ _ He).
  - intros t. apply respects_bind; [apply respects_print|]. intros _.
    apply respects_bind; [apply respects_create|]. intros _.
    apply respects_bind; [apply respects_open_zip|]. intros infolist.
    apply respects_bind;
      [apply respects_for_each; intros e; apply respects_process_entry|].
    intros _. apply respects_bind; [apply respects_print|]. intros _.
    apply respects_ret.
Qed.

Lemma respects_visit_files root files : forall processed,
  respects R E (visit_files root files processed).
Proof.
  induction files as [|file files IH]; intros processed; cbn [visit_files].
  - apply respects_ret.
  - destruct (admitted file); [|apply IH].
    apply respects_bind; [apply respects_process_zip_file|]. intros t. apply IH.
Qed.

Lemma respects_visit_dirs dirs : forall processed,
  respects R E (visit_dirs dirs processed).
Proof.
  induction dirs as [|[root files] dirs IH]; intros processed; cbn [visit_dirs].
  - apply respects_ret.
  - apply respects_bind; [apply respects_visit_files|]. intros p. apply IH.
Qed.

Hypothesis E_interface : E InterfaceError.

Lemma respects_process_data_directory data_dir cfg :
  respects R E (process_data_directory data_dir cfg).
Proof.
  unfold process_data_directory.
  apply respects_bind.
  { intros w w' r. unfold connect.
    destruct (reachable (srv w)); intros [= <- <-];
      (split; [apply R_refl | first [exact I | exact E_interface]]). }
  intros _. apply respects_bind.
  { intros w w' r. unfold create_database_if_not_exists.
    destruct (accepts (srv w) (database cfg)); [apply respects_print|].
    intros [= <- <-]. split; [apply R_refl | exact E_programming]. }
  intros _. apply respects_bind.
  { intros w w' r [= <- <-]. split; [apply R_refl | exact I]. }
  intros dirs. apply respects_bind; [apply respects_visit_dirs|]. intros p.
  apply respects_bind.
  { intros w w' r [= <- <-]. split; [apply R_close | exact I]. }
  intros _. apply respects_ret.
Qed.

End Respects.

(** ** What a run never does *)

Section Never.

Lemma extends_refl cat : extends cat cat.
Proof.
  intros t [sch rows] H. exists []. now rewrite app_nil_r.
Qed.

Lemma extends_trans c1 c2 c3 : extends c1 c2 -> extends c2 c3 -> extends c1 c3.
Proof.
  intros H12 H23 t tb H. destruct (H12 _ _ H) as [m1 H1].
  destruct (H23 _ _ H1) as [m2 H2]. cbn in H2.
  exists (m1 ++ m2). now rewrite app_assoc.
Qed.

Lemma extends_ensure t cat : extends cat (ensure t cat).
Proof.
  unfold ensure. destruct (cat !! t) eqn:Et; [apply extends_refl|].
  intros t' [sch rows] H. exists []. rewrite app_nil_r.
  rewrite lookup_insert_ne; [exact H|]. intros ->. congruence.
Qed.

Lemma extends_load t values cat : extends cat (load t values cat).
Proof.
  unfold load. destruct (cat !! t) as [tb|] eqn:Et; [|apply extends_refl].
  destruct (insert_ignore_appends values (t_rows tb)) as (added & -> & _).
  intros t' tb' H. destruct (decide (t = t')) as [<-|Hne].
  - rewrite lookup_insert_eq. rewrite Et in H. injection H as <-. now exists added.
  - rewrite lookup_insert_ne by exact Hne. destruct tb' as [sch rows].
    exists []. now rewrite app_nil_r.
Qed.

Lemma grows_refl w : grows w w.
Proof. intros base H1 H2. now split. Qed.

Lemma grows_trans w1 w2 w3 : grows w1 w2 -> grows w2 w3 -> grows w1 w3.
Proof.
  intros G1 G2 base H1 H2. destruct (G1 base H1 H2) as [H3 H4].
  exact (G2 base H3 H4).
Qed.

Lemma respects_grows data_dir cfg :
  respects grows (fun _ => True) (process_data_directory data_dir cfg).
Proof.
  apply respects_process_data_directory; try (intros; exact I).
  - apply grows_refl.
  - apply grows_trans.
  - intros l w base H1 H2. now split.
  - intros ev w base H1 H2. now split.
  - intros t w base H1 H2. cbn. split; [|apply extends_refl].
    eapply extends_trans; [exact H1|].
    eapply extends_trans; [exact H2 | apply extends_ensure].
  - intros t values w base H1 H2. cbn. split; [exact H1|].
    eapply extends_trans; [exact H2 | apply extends_load].
  - intros w base H1 H2. cbn. split; [|apply extends_refl].
    eapply extends_trans; eassumption.
  - intros w base H1 H2. cbn. split; [exact H1 | apply extends_refl].
Qed.

(** X8.  A run never drops a table, never changes its declaration and
    never removes, reorders or alters a committed row, whether it returns
    or raises: every table committed before is committed afterwards with
    the same rows in front. *)
Theorem run_keeps_committed_rows (data_dir : string) (cfg : db_config)
  (w w' : world) (r : result (list string)) :
  settled w ->
  process_data_directory data_dir cfg w = (w', r) ->
  forall t tb,
    committed (conn w) !! t = Some tb ->
    exists more,
      committed (conn w') !! t = Some (mk_table (t_schema tb) (t_rows tb ++ more)).
Proof.
  intros S H.
  destruct (respects_grows data_dir cfg _ _ _ H) as [G _].
  destruct (G (committed (conn w))) as [G1 _].
  - apply extends_refl.
  - unfold settled in S. rewrite <- S. apply extends_refl.
  - exact G1.
Qed.

(** X9.  A run never fails on a duplicate and never ends the process:
    whatever the store holds and the archives bring, neither
    IntegrityError nor SystemExit comes out of a run or of the import of
    one archive; a timestamp that is in the table already, or twice in a
    batch, is passed over by INSERT IGNORE. *)
Theorem run_errors (data_dir : string) (cfg : db_config) (zip_path : string)
  (w w' : world) (e : exn) :
  (process_data_directory data_dir cfg w = (w', Raise e) ->
   e <> IntegrityError /\ forall code, e <> SystemExit code) /\
  (process_zip_file zip_path w = (w', Raise e) ->
   e <> IntegrityError /\ forall code, e <> SystemExit code).
Proof.
  split; intros H.
  - assert (P : respects (fun _ _ => True)
                  (fun e => e <> IntegrityError /\ forall code, e <> SystemExit code)
                  (process_data_directory data_dir cfg))
      by (apply respects_process_data_directory; try (intros; exact I);
          split; intros; discriminate).
    exact (proj2 (P _ _ _ H)).
  - assert (P : respects (fun _ _ => True)
                  (fun e => e <> IntegrityError /\ forall code, e <> SystemExit code)
                  (process_zip_file zip_path))
      by (apply respects_process_zip_file; try (intros; exact I);
          split; intros; discriminate).
    exact (proj2 (P _ _ _ H)).
Qed.

End Never.

Lemma run_keeps_committed_rows_witness :
  let old := mk_tick (mk_datetime 2024 8 1 0 0 0 110000) "9.99999" "9.99999" in
  let cat : gmap string table := {["EURUSD_2024_08" := mk_table tick_schema [old]]} in
  let w := mk_world (sample_fs ["EURUSD-2024-08.zip"]
                       [(eurusd, [mk_entry "a.csv" [tick_110; tick_500]])])
             sample_server (mk_conn cat cat) [] [] in
  exists more,
    committed (conn (fst (process_data_directory "./data" (arg_config default_args) w)))
      !! "EURUSD_2024_08"
    = Some (mk_table tick_schema ([old] ++ more)).
Proof.
  intros old cat w.
  exact (run_keeps_committed_rows "./data" (arg_config default_args) w _ _
           eq_refl (surjective_pairing _) "EURUSD_2024_08"
           (mk_table tick_schema [old]) eq_refl).
Defined.

Lemma run_errors_witness :
  let old := mk_tick (mk_datetime 2024 8 1 0 0 0 110000) "9.99999" "9.99999" in
  let cat : gmap string table := {["EURUSD_2024_08" := mk_table tick_schema [old]]} in
  let w := mk_world (sample_fs ["EURUSD-2024-08.zip"]
                       [(eurusd, [mk_entry "a.csv" [tick_110; tick_500; tick_500];
                                  mk_entry "b.csv" [tick_bad]])])
             sample_server (mk_conn cat cat) [] [] in
  snd (process_zip_file eurusd w) = Raise ValueError /\
  ValueError <> IntegrityError.
Proof.
  intros old cat w.
  set (p := process_zip_file eurusd w).
  assert (Hp : p = (fst p, Raise ValueError)) by (vm_compute; reflexivity).
  split; [now rewrite Hp|].
  exact (proj1 (proj2 (run_errors "./data" (arg_config default_args) eurusd w
                         (fst p) ValueError) Hp)).
Defined.

(** ** Batches *)

Section Batches.

Lemma find_row_none ts rows : has_key ts rows = false -> find_row ts rows = None.
Proof.
  unfold has_key, find_row. induction rows as [|r rows IH]; [reflexivity|].
  cbn [existsb List.find]. intros H. apply orb_false_iff in H as [-> H].
  now apply IH.
Qed.

Lemma find_row_app_none ts a b :
  find_row ts a = None -> find_row ts (a ++ b) = find_row ts b.
Proof.
  unfold find_row. induction a as [|r a IH]; [reflexivity|].
  cbn [app List.find]. destruct (bool_decide (timestamp r = ts)); [discriminate|].
  exact IH.
Qed.

(** X10.  Of several rows of one batch with the same new timestamp the
    first is inserted and the later ones are ignored: the table ends up
    with the bid and ask of the first occurrence. *)
Theorem first_in_batch_wins (values : list tick) : forall (rows : list tick)
  (ts : datetime) (r : tick),
  has_key ts rows = false ->
  find_row ts values = Some r ->
  exists rows',
    insert_rows Ignore values rows = Ok rows' /\ find_row ts rows' = Some r.
Proof.
  induction values as [|v values IH]; intros rows ts r K F; [discriminate|].
  cbn [insert_rows]. unfold find_row in F. cbn [List.find] in F.
  destruct (bool_decide (timestamp v = ts)) eqn:Ev.
  - injection F as <-. apply bool_decide_eq_true in Ev. subst ts. rewrite K.
    destruct (insert_ignore_appends values (rows ++ [v])) as (added & -> & _).
    eexists. split; [reflexivity|].
    rewrite <- app_assoc. rewrite (find_row_app_none _ _ _ (find_row_none _ _ K)).
    cbn. now rewrite bool_decide_eq_true_2.
  - apply bool_decide_eq_false in Ev.
    destruct (has_key (timestamp v) rows); [now apply IH|].
    apply IH; [|exact F].
    rewrite has_key_app, K. cbn. now rewrite bool_decide_eq_false_2.
Qed.

Lemma first_in_batch_wins_witness :
  let ts := mk_datetime 2024 8 1 0 0 0 110000 in
  exists rows',
    insert_rows Ignore [mk_tick ts "1" "2"; mk_tick ts "3" "4"] [] = Ok rows' /\
    find_row ts rows' = Some (mk_tick ts "1" "2").
Proof.
  intros ts.
  exact (first_in_batch_wins [mk_tick ts "1" "2"; mk_tick ts "3" "4"] [] ts
           (mk_tick ts "1" "2") eq_refl eq_refl).
Defined.

Lemma load_batches_concat t batches : forall cat,
  load_batches t batches cat = load t (concat batches) cat.
Proof.
  unfold load_batches.
  induction batches as [|b batches IH]; intros cat; cbn [List.fold_left concat].
  - now rewrite load_nil.
  - now rewrite IH, load_app.
Qed.

Lemma chunks_fuel_bounds {A} n : forall fuel (l : list A),
  (0 < n)%nat ->
  Forall (fun c => (1 <= length c <= n)%nat) (chunks_fuel fuel n l).
Proof.
  induction fuel as [|fuel IH]; intros l Hn; [constructor|].
  destruct l as [|x l]; [constructor|].
  cbn [chunks_fuel]. constructor; [|now apply IH].
  rewrite length_firstn. cbn [length]. lia.
Qed.

(** X11.  Reading in batches loses, repeats and reorders nothing: the
    batches of an entry, put end to end, are its rows; no batch is empty
    or longer than the batch size; and an entry that fits is one batch. *)
Theorem read_csv_batches (rows : list csv_row) (n : nat) :
  (0 < n)%nat -> rows <> [] ->
  exists frames,
    read_csv rows n = Ok frames /\
    concat frames = rows /\
    Forall (fun c => (1 <= length c <= n)%nat) frames /\
    ((length rows <= n)%nat -> frames = [rows]).
Proof.
  intros Hn Hne. exists (chunks n rows). unfold read_csv.
  destruct rows as [|row rows]; [congruence|].
  split; [reflexivity|]. split; [now apply concat_chunks|].
  split; [now apply chunks_fuel_bounds|].
  intros Hl. unfold chunks. cbn [length chunks_fuel].
  rewrite firstn_all2 by exact Hl. rewrite skipn_all2 by exact Hl.
  now destruct (length rows).
Qed.

Lemma read_csv_batches_witness :
  exists frames,
    read_csv [tick_110; tick_500; tick_1105] 2 = Ok frames /\
    concat frames = [tick_110; tick_500; tick_1105].
Proof.
  destruct (read_csv_batches [tick_110; tick_500; tick_1105] 2
              ltac:(lia) ltac:(discriminate))
    as (frames & H1 & H2 & _).
  exists frames. now split.
Defined.

(** X12.  The size of the batches does not show in the table: inserting
    the rows batch after batch, for any batch size, gives the catalogue
    that one insert of all rows gives. *)
Theorem batch_size_is_irrelevant (t : string) (values : list tick) (n : nat)
  (cat : gmap string table) :
  (0 < n)%nat ->
  load_batches t (chunks n values) cat = load t values cat.
Proof.
  intros Hn. now rewrite load_batches_concat, concat_chunks.
Qed.

Lemma batch_size_is_irrelevant_witness :
  let ts := mk_datetime 2024 8 1 0 0 0 110000 in
  let vs := [mk_tick ts "1" "2"; mk_tick ts "3" "4"; mk_tick ts "5" "6"] in
  let cat : gmap string table := {["T" := mk_table tick_schema []]} in
  load_batches "T" (chunks 2 vs) cat = load "T" vs cat.
Proof.
  intros ts vs cat. exact (batch_size_is_irrelevant "T" vs 2 cat ltac:(lia)).
Defined.

(** X13.  A batch is converted as a whole or not at all: it converts
    exactly when every timestamp of it parses, and then it yields one
    value tuple per row, in order. *)
Theorem to_values_all_or_nothing (chunk : list csv_row) :
  is_ok (to_values chunk)
  = forallb (fun row => is_ok (parse_timestamp (c_timestamp row))) chunk /\
  (forall values, to_values chunk = Ok values -> length values = length chunk).
Proof.
  induction chunk as [|row chunk [IH1 IH2]]; [split; [reflexivity|]|].
  - now intros values [= <-].
  - cbn [to_values forallb].
    destruct (parse_timestamp (c_timestamp row)) as [dt|e]; cbn [is_ok andb];
      [|split; [reflexivity | discriminate]].
    destruct (to_values chunk) as [vs|e]; cbn [is_ok] in *.
    + split; [exact IH1|]. intros values [= <-]. cbn [length].
      now rewrite (IH2 vs eq_refl).
    + split; [exact IH1 | discriminate].
Qed.

Lemma to_values_all_or_nothing_witness :
  length [mk_tick (mk_datetime 2024 8 1 0 0 0 110000) "1.08423" "1.08431"]
  = length [tick_110].
Proof.
  exact (proj2 (to_values_all_or_nothing [tick_110]) _ eq_refl).
Defined.

End Batches.

(** ** Archives: loading, reruns, failures *)

Section Archives.

Lemma respects_constants path :
  respects (fun w w' => srv w' = srv w /\ fs w' = fs w) (fun _ => True)
           (process_zip_file path).
Proof.
  apply respects_process_zip_file; try (intros; exact I); try (intros; now split).
  intros w1 w2 w3 [S1 F1] [S2 F2]. split; congruence.
Qed.

Lemma keys_of_load t values cat :
  is_Some (cat !! t) ->
  forall v, In v values -> In (timestamp v) (keys_of t (load t values cat)).
Proof.
  intros [tb Et] v Hv. unfold keys_of, load. rewrite Et.
  destruct (insert_ignore_appends values (t_rows tb)) as (added & -> & _ & Hall & _).
  rewrite lookup_insert_eq. cbn [t_rows]. apply has_key_In. now apply Hall.
Qed.

Lemma process_zip_file_ok zip_path table_name w infolist values :
  get_table_name zip_path = Ok table_name ->
  accepts (srv w) table_name = true ->
  fs_zip (fs w) zip_path = Some infolist ->
  to_values (csv_rows infolist) = Ok values ->
  exists w',
    process_zip_file zip_path w = (w', Ok table_name) /\
    committed (conn w')
      = load table_name values (ensure table_name (working (conn w))) /\
    working (conn w') = committed (conn w').
Proof.
  intros Hn Ha Hz Hv.
  rewrite (process_zip_file_unfold _ _ _ Hn Ha).
  set (w0 := add_event _ _).
  assert (P0 : is_Some (working (conn w0) !! table_name)) by apply ensure_present.
  assert (S0 : settled w0) by reflexivity.
  rewrite bind_unfold. unfold open_zip. change (fs w0) with (fs w). rewrite Hz.
  set (w1 := add_event (EvOpenZip zip_path) w0).
  destruct (entries_ok table_name infolist values w1 Hv P0 S0)
    as (w2 & R2 & F2 & C2).
  eexists. rewrite bind_unfold, R2. split; [reflexivity|].
  cbn [conn add_line print mret M_ret]. rewrite C2. cbn.
  split; reflexivity.
Qed.

(** X14.  An archive whose table the store takes and whose timestamps
    all parse is loaded completely: the call returns the table
    identifier, the committed table is the one of before (created if
    absent) after INSERT IGNORE of all rows of all such entries in order,
    nothing is left uncommitted, and the timestamp of every row is in the
    table. *)
Theorem process_zip_file_loads (zip_path table_name : string) (w : world)
  (infolist : list zip_info) (values : list tick) :
  get_table_name zip_path = Ok table_name ->
  accepts (srv w) table_name = true ->
  fs_zip (fs w) zip_path = Some infolist ->
  to_values (csv_rows infolist) = Ok values ->
  exists w',
    process_zip_file zip_path w = (w', Ok table_name) /\
    committed (conn w')
      = load table_name values (ensure table_name (working (conn w))) /\
    working (conn w') = committed (conn w') /\
    (forall v, In v values ->
               In (timestamp v) (keys_of table_name (committed (conn w')))).
Proof.
  intros Hn Ha Hz Hv.
  destruct (process_zip_file_ok _ _ w _ _ Hn Ha Hz Hv) as (w' & R & C & S).
  exists w'. split; [exact R|]. split; [exact C|]. split; [exact S|].
  rewrite C. apply keys_of_load, ensure_present.
Qed.

Lemma process_zip_file_loads_witness :
  let w := blank (sample_fs ["EURUSD-2024-08.zip"]
                    [(eurusd, [mk_entry "a.csv" [tick_110];
                               mk_entry "notes.txt" [tick_bad];
                               mk_entry "empty.csv" [];
                               mk_entry "b.csv" [tick_500]])]) in
  exists w',
    process_zip_file eurusd w = (w', Ok "EURUSD_2024_08") /\
    keys_of "EURUSD_2024_08" (committed (conn w'))
    = [mk_datetime 2024 8 1 0 0 0 110000; mk_datetime 2024 8 1 0 0 0 500000].
Proof.
  intros w.
  destruct (process_zip_file_loads eurusd "EURUSD_2024_08" w
              [mk_entry "a.csv" [tick_110]; mk_entry "notes.txt" [tick_bad];
               mk_entry "empty.csv" []; mk_entry "b.csv" [tick_500]]
              [mk_tick (mk_datetime 2024 8 1 0 0 0 110000) "1.08423" "1.08431";
               mk_tick (mk_datetime 2024 8 1 0 0 0 500000) "1.08420" "1.08429"]
              eq_refl eq_refl eq_refl eq_refl)
    as (w' & R & C & _).
  exists w'. split; [exact R|]. rewrite C. reflexivity.
Defined.

Lemma insert_all_present values : forall rows,
  (forall v, In v values -> has_key (timestamp v) rows = true) ->
  insert_rows Ignore values rows = Ok rows.
Proof.
  induction values as [|v values IH]; intros rows H; [reflexivity|].
  cbn [insert_rows]. rewrite (H v) by now left.
  apply IH. intros v' Hv'. apply H. now right.
Qed.

Lemma load_twice t values (cat : gmap string table) :
  load t values (load t values cat) = load t values cat.
Proof.
  unfold load at 2 3. destruct (cat !! t) as [tb|] eqn:Et.
  - destruct (insert_ignore_appends values (t_rows tb)) as (added & Ei & _ & Hall & _).
    rewrite Ei. unfold load. rewrite lookup_insert_eq. cbn [t_rows t_schema].
    rewrite (insert_all_present _ _ Hall). now rewrite insert_insert_eq.
  - unfold load. now rewrite Et.
Qed.

Lemma ensure_present_id t (cat : gmap string table) :
  is_Some (cat !! t) -> ensure t cat = cat.
Proof. intros [tb E]. unfold ensure. now rewrite E. Qed.

(** X15.  Loading an archive a second time changes nothing in the store:
    the second call succeeds again and leaves the committed catalogue of
    the first. *)
Theorem process_zip_file_rerun (zip_path table_name : string) (w : world)
  (infolist : list zip_info) (values : list tick) :
  get_table_name zip_path = Ok table_name ->
  accepts (srv w) table_name = true ->
  fs_zip (fs w) zip_path = Some infolist ->
  to_values (csv_rows infolist) = Ok values ->
  exists w1 w2,
    process_zip_file zip_path w = (w1, Ok table_name) /\
    process_zip_file zip_path w1 = (w2, Ok table_name) /\
    committed (conn w2) = committed (conn w1).
Proof.
  intros Hn Ha Hz Hv.
  destruct (process_zip_file_ok _ _ w _ _ Hn Ha Hz Hv)
    as (w1 & R1 & C1 & S1).
  destruct (respects_constants zip_path _ _ _ R1) as [[Es Ef] _].
  destruct (process_zip_file_ok zip_path table_name w1 infolist values Hn)
    as (w2 & R2 & C2 & _); try assumption.
  - now rewrite Es.
  - now rewrite Ef.
  - exists w1, w2. split; [exact R1|]. split; [exact R2|].
    rewrite C2, S1, C1.
    rewrite ensure_present_id by (apply load_keeps, ensure_present).
    apply load_twice.
Qed.

Lemma process_zip_file_rerun_witness :
  let w := blank (sample_fs ["EURUSD-2024-08.zip"]
                    [(eurusd, [mk_entry "a.csv" [tick_110; tick_500]])]) in
  exists w1 w2,
    process_zip_file eurusd w = (w1, Ok "EURUSD_2024_08") /\
    process_zip_file eurusd w1 = (w2, Ok "EURUSD_2024_08") /\
    committed (conn w2) = committed (conn w1).
Proof.
  intros w.
  apply (process_zip_file_rerun eurusd "EURUSD_2024_08" w
           [mk_entry "a.csv" [tick_110; tick_500]]
           [mk_tick (mk_datetime 2024 8 1 0 0 0 110000) "1.08423" "1.08431";
            mk_tick (mk_datetime 2024 8 1 0 0 0 500000) "1.08420" "1.08429"]);
    reflexivity.
Defined.

(** X16.  A file that is no archive still leaves its table behind: the
    table is created and committed before the file is opened, so the call
    raises BadZipFile with the table, empty if it was absent, in the
    store. *)
Theorem bad_zip_leaves_table (zip_path table_name : string) (w : world) :
  get_table_name zip_path = Ok table_name ->
  accepts (srv w) table_name = true ->
  fs_zip (fs w) zip_path = None ->
  exists w',
    process_zip_file zip_path w = (w', Raise BadZipFile) /\
    committed (conn w') = ensure table_name (working (conn w)) /\
    is_Some (committed (conn w') !! table_name) /\
    (working (conn w) !! table_name = None ->
     committed (conn w') !! table_name = Some (mk_table tick_schema [])).
Proof.
  intros Hn Ha Hz. rewrite (process_zip_file_unfold _ _ _ Hn Ha).
  set (w0 := add_event _ _).
  rewrite bind_unfold. unfold open_zip. change (fs w0) with (fs w). rewrite Hz.
  exists w0. split; [reflexivity|]. split; [reflexivity|].
  split; [apply ensure_present|].
  intros Habs. cbn. unfold ensure. rewrite Habs. apply lookup_insert_eq.
Qed.

Lemma bad_zip_leaves_table_witness :
  let w := blank (sample_fs ["EURUSD-2024-08.zip"] []) in
  exists w',
    process_zip_file eurusd w = (w', Raise BadZipFile) /\
    committed (conn w') !! "EURUSD_2024_08" = Some (mk_table tick_schema []).
Proof.
  intros w.
  destruct (bad_zip_leaves_table eurusd "EURUSD_2024_08" w eq_refl eq_refl eq_refl)
    as (w' & R & _ & _ & T).
  exists w'. split; [exact R | now apply T].
Defined.

(** X17.  The entries of an archive whose name does not end in .csv play
    no part: processing the entries is processing the .csv entries only,
    with the same result and the same world, whatever the others hold. *)
Theorem other_entries_are_skipped (t : string) (infolist : list zip_info)
  (w : world) :
  for_each infolist (process_entry t) w
  = for_each (List.filter (fun e => Str.endswith (filename e) ".csv") infolist)
             (process_entry t) w.
Proof.
  revert w. induction infolist as [|e infolist IH]; intros w; [reflexivity|].
  cbn [List.filter]. destruct (Str.endswith (filename e) ".csv") eqn:Ee.
  - cbn [for_each]. rewrite !bind_unfold.
    destruct (process_entry t e w) as [w1 [[]|x]]; [apply IH | reflexivity].
  - cbn [for_each]. rewrite bind_unfold. unfold process_entry at 1. rewrite Ee.
    apply IH.
Qed.

(** X18.  The line printed after a batch reports the size of the batch,
    not the number of rows that were new: a batch whose timestamps are all
    in the table already leaves the table as it was and is still reported
    in full. *)
Theorem inserted_count_is_batch_size (t : string) (chunk : list csv_row)
  (values : list tick) (tb : table) (w : world) :
  to_values chunk = Ok values ->
  working (conn w) !! t = Some tb ->
  (forall v, In v values -> has_key (timestamp v) (t_rows tb) = true) ->
  exists w',
    process_chunk t chunk w = (w', Ok tt) /\
    stdout w' = stdout w ++ ["Inserted " +:+ str_nat (length chunk)
                             +:+ " records into " +:+ t] /\
    committed (conn w') !! t = Some tb.
Proof.
  intros Hv Ht Hall. unfold process_chunk.
  rewrite bind_unfold. unfold lift at 1. rewrite Hv.
  destruct (executemany_ok t values w (ex_intro _ tb Ht))
    as (w1 & R1 & _ & _ & O1 & C1).
  rewrite bind_unfold, R1.
  eexists. split; [reflexivity|]. cbn. rewrite O1, C1. cbn.
  assert (L : length values = length chunk).
  { clear -Hv. revert values Hv.
    induction chunk as [|row chunk IH]; intros values; cbn [to_values].
    - now intros [= <-].
    - destruct (parse_timestamp (c_timestamp row)); [|discriminate].
      destruct (to_values chunk) as [vs|]; [|discriminate].
      intros [= <-]. cbn. now rewrite (IH vs). }
  rewrite L. split; [reflexivity|].
  unfold load. rewrite Ht, (insert_all_present _ _ Hall), lookup_insert_eq.
  now destruct tb.
Qed.

Lemma inserted_count_is_batch_size_witness :
  let tb := mk_table tick_schema
              [mk_tick (mk_datetime 2024 8 1 0 0 0 110000) "1.0" "1.1";
               mk_tick (mk_datetime 2024 8 1 0 0 0 500000) "1.0" "1.1"] in
  let cat : gmap string table := <["EURUSD_2024_08" := tb]> ∅ in
  let w := mk_world (sample_fs [] []) sample_server (mk_conn cat cat) [] [] in
  exists w',
    process_chunk "EURUSD_2024_08" [tick_110; tick_500] w = (w', Ok tt) /\
    stdout w' = ["Inserted 2 records into EURUSD_2024_08"] /\
    committed (conn w') !! "EURUSD_2024_08" = Some tb.
Proof.
  intros tb cat w.
  destruct (inserted_count_is_batch_size "EURUSD_2024_08" [tick_110; tick_500]
              [mk_tick (mk_datetime 2024 8 1 0 0 0 110000) "1.08423" "1.08431";
               mk_tick (mk_datetime 2024 8 1 0 0 0 500000) "1.08420" "1.08429"]
              tb w eq_refl eq_refl)
    as (w' & R & O & C).
  - intros v [<- | [<- | []]]; reflexivity.
  - exists w'. split; [exact R|]. split; [exact O | exact C].
Defined.

End Archives.

(** ** The walk over the data directory *)

Section Directory.

Lemma visit_files_names root files : forall processed w w' result,
  visit_files root files processed w = (w', Ok result) ->
  exists more,
    result = processed ++ more /\
    Forall2 (fun p t => get_table_name p = Ok t)
            (List.map (path_join root) (List.filter admitted files)) more.
Proof.
  induction files as [|file files IH]; intros processed w w' result;
    cbn [visit_files List.filter].
  - intros [= _ <-]. exists []. rewrite app_nil_r. split; [reflexivity|constructor].
  - destruct (admitted file); [|apply IH].
    rewrite bind_unfold.
    destruct (process_zip_file (path_join root file) w) as [w1 [t|e]] eqn:E;
      [|discriminate].
    intros H. apply IH in H as (more & -> & F). exists (t :: more).
    split; [now rewrite <- app_assoc|].
    cbn [List.map]. constructor; [|exact F].
    eapply process_zip_file_returns, E.
Qed.

Lemma visit_dirs_names dirs : forall processed w w' result,
  visit_dirs dirs processed w = (w', Ok result) ->
  exists more,
    result = processed ++ more /\
    Forall2 (fun p t => get_table_name p = Ok t) (admitted_paths dirs) more.
Proof.
  induction dirs as [|[root files] dirs IH]; intros processed w w' result;
    cbn [visit_dirs admitted_paths flat_map].
  - intros [= _ <-]. exists []. rewrite app_nil_r. split; [reflexivity|constructor].
  - rewrite bind_unfold.
    destruct (visit_files root files processed w) as [w1 [p|e]] eqn:E; [|discriminate].
    intros H. apply IH in H as (more2 & -> & F2).
    apply visit_files_names in E as (more1 & -> & F1).
    exists (more1 ++ more2). split; [now rewrite app_assoc|].
    now apply Forall2_app.
Qed.

(** X19.  A run that returns lists one table identifier for every
    admitted file of the walk, in the order of the walk: the identifier
    computed from the path of that file.  Two archives of one table give
    two entries, so the count of the summary is the number of archives,
    and the connection ends with nothing uncommitted. *)
Theorem processed_tables_follow_walk (data_dir : string) (cfg : db_config)
  (w w' : world) (result : list string) :
  process_data_directory data_dir cfg w = (w', Ok result) ->
  Forall2 (fun p t => get_table_name p = Ok t)
          (admitted_paths (fs_walk (fs w) data_dir)) result /\
  length result = length (admitted_paths (fs_walk (fs w) data_dir)) /\
  working (conn w') = committed (conn w').
Proof.
  unfold process_data_directory.
  rewrite bind_unfold. unfold connect.
  destruct (reachable (srv w)); [|discriminate].
  rewrite bind_unfold. unfold create_database_if_not_exists.
  destruct (accepts (srv w) (database cfg)); [|discriminate].
  cbn [print]. rewrite bind_unfold. cbn [walk fs add_line].
  rewrite bind_unfold.
  match goal with |- context [visit_dirs ?d ?p ?x] =>
    destruct (visit_dirs d p x) as [w1 [tables|e]] eqn:E; [|discriminate] end.
  cbn. intros [= <- <-].
  apply visit_dirs_names in E as (more & -> & F). cbn [app].
  split; [exact F|]. split; [|reflexivity].
  symmetry. eapply Forall2_length, F.
Qed.

Lemma processed_tables_follow_walk_witness :
  let w := blank (mk_fs (fun _ => true)
                    (fun _ => [("./data", ["EURUSD-2024-08.zip"; "readme.zip"]);
                               ("./data/old", ["EURUSD-2024-08.zip"])])
                    (fun _ => Some [])) in
  snd (process_data_directory "./data" (mk_config "h" "u" "p" "forex") w)
  = Ok ["EURUSD_2024_08"; "EURUSD_2024_08"] /\
  Forall2 (fun p t => get_table_name p = Ok t)
          ["./data/EURUSD-2024-08.zip"; "./data/old/EURUSD-2024-08.zip"]
          ["EURUSD_2024_08"; "EURUSD_2024_08"].
Proof.
  intros w.
  set (p := process_data_directory "./data" (mk_config "h" "u" "p" "forex") w).
  assert (Hp : p = (fst p, Ok ["EURUSD_2024_08"; "EURUSD_2024_08"]))
    by (vm_compute; reflexivity).
  split; [now rewrite Hp|].
  exact (proj1 (processed_tables_follow_walk _ _ _ _ _ Hp)).
Defined.

Lemma visit_dirs_app dirs1 : forall dirs2 processed w,
  visit_dirs (dirs1 ++ dirs2) processed w
  = match visit_dirs dirs1 processed w with
    | (w1, Ok p1) => visit_dirs dirs2 p1 w1
    | (w1, Raise e) => (w1, Raise e)
    end.
Proof.
  induction dirs1 as [|[root files] dirs1 IH]; intros dirs2 processed w;
    [reflexivity|].
  cbn [app visit_dirs]. rewrite !bind_unfold.
  destruct (visit_files root files processed w) as [w1 [p|e]];
    [apply IH | reflexivity].
Qed.

(** X20.  The walk stops at the first archive that fails: the error of
    that archive is the error of the walk, the world is the one that
    archive left, and no file or directory that comes later in the walk is
    looked at, whatever it is. *)
Theorem walk_stops_at_first_failure
  (before after : list (string * list string)) (root file : string)
  (files1 files2 : list string) (processed p0 p1 : list string)
  (w w0 w1 w2 : world) (e : exn) :
  visit_dirs before processed w = (w0, Ok p0) ->
  visit_files root files1 p0 w0 = (w1, Ok p1) ->
  admitted file = true ->
  process_zip_file (path_join root file) w1 = (w2, Raise e) ->
  visit_dirs (before ++ (root, files1 ++ file :: files2) :: after) processed w
  = (w2, Raise e).
Proof.
  intros Hd Hf Ha Hz.
  rewrite visit_dirs_app, Hd. cbn [visit_dirs]. rewrite bind_unfold.
  rewrite visit_files_app, Hf. cbn [visit_files]. rewrite Ha, bind_unfold, Hz.
  reflexivity.
Qed.

Lemma walk_stops_at_first_failure_witness :
  let w := blank (sample_fs [] [(eurusd, [mk_entry "a.csv" [tick_110]])]) in
  exists w1 w2,
    visit_files "./data" ["EURUSD-2024-08.zip"] [] w = (w1, Ok ["EURUSD_2024_08"]) /\
    process_zip_file "./data/USD.zip" w1 = (w2, Raise IndexError) /\
    visit_dirs [("./data", ["EURUSD-2024-08.zip"; "USD.zip"; "GBPUSD-2024-08.zip"]);
                ("./data/more", ["EURUSD-2024-09.zip"])] [] w
    = (w2, Raise IndexError).
Proof.
  intros w.
  set (p := visit_files "./data" ["EURUSD-2024-08.zip"] [] w).
  assert (Hp : p = (fst p, Ok ["EURUSD_2024_08"])) by (vm_compute; reflexivity).
  set (q := process_zip_file "./data/USD.zip" (fst p)).
  assert (Hq : q = (fst q, Raise IndexError)) by (vm_compute; reflexivity).
  exists (fst p), (fst q). split; [exact Hp|]. split; [exact Hq|].
  exact (walk_stops_at_first_failure [] [("./data/more", ["EURUSD-2024-09.zip"])]
           "./data" "USD.zip" ["EURUSD-2024-08.zip"] ["GBPUSD-2024-08.zip"]
           [] [] ["EURUSD_2024_08"] w w (fst p) (fst q) IndexError
           eq_refl Hp eq_refl Hq).
Defined.

(** X21.  The primary key holds over a whole run: if no table of the
    store has two rows with one timestamp before the run, none has
    afterwards, in what is committed and in the open transaction, whether
    the run returns or raises. *)
Theorem run_keeps_primary_key (data_dir : string) (cfg : db_config)
  (w w' : world) (r : result (list string)) :
  pk_ok w ->
  process_data_directory data_dir cfg w = (w', r) ->
  forall t, NoDup (keys_of t (committed (conn w'))) /\
            NoDup (keys_of t (working (conn w'))).
Proof.
  intros Hpk H t.
  destruct (process_data_directory_keeps_key _ _ _ _ _ H Hpk) as [Hc Hw].
  unfold keys_of. split.
  - destruct (committed (conn w') !! t) as [tb|] eqn:E; [|constructor].
    exact (Hc t tb E).
  - destruct (working (conn w') !! t) as [tb|] eqn:E; [|constructor].
    exact (Hw t tb E).
Qed.

Lemma run_keeps_primary_key_witness :
  let w := blank (sample_fs ["EURUSD-2024-08.zip"]
                    [(eurusd, [mk_entry "a.csv" [tick_110; tick_110; tick_500]])]) in
  NoDup (keys_of "EURUSD_2024_08"
           (committed (conn (fst (process_data_directory "./data"
                                    (mk_config "h" "u" "p" "forex") w))))).
Proof.
  intros w.
  exact (proj1 (run_keeps_primary_key "./data" (mk_config "h" "u" "p" "forex") w
                  _ _ (blank_pk_ok _) (surjective_pairing _) "EURUSD_2024_08")).
Defined.

(** X22.  A run that cannot set up its database touches nothing: when the
    server cannot be reached it raises InterfaceError, when the server
    refuses the database name it raises ProgrammingError, and in both
    cases the world is unchanged: nothing is printed, the directory is not
    walked and no archive is opened. *)
Theorem setup_failure_touches_nothing (data_dir : string) (cfg : db_config)
  (w : world) :
  (reachable (srv w) = false ->
   process_data_directory data_dir cfg w = (w, Raise InterfaceError)) /\
  (reachable (srv w) = true -> accepts (srv w) (database cfg) = false ->
   process_data_directory data_dir cfg w = (w, Raise ProgrammingError)).
Proof.
  split.
  - intros Hr. unfold process_data_directory. rewrite bind_unfold.
    unfold connect. now rewrite Hr.
  - intros Hr Ha. unfold process_data_directory. rewrite bind_unfold.
    unfold connect. rewrite Hr. rewrite bind_unfold.
    unfold create_database_if_not_exists. now rewrite Ha.
Qed.

Lemma setup_failure_touches_nothing_witness :
  let f := sample_fs ["EURUSD-2024-08.zip"] [(eurusd, [mk_entry "a.csv" [tick_110]])] in
  let down := mk_world f (mk_server false plain_name) (mk_conn ∅ ∅) [] [] in
  process_data_directory "./data" (mk_config "h" "u" "p" "forex") down
  = (down, Raise InterfaceError) /\
  process_data_directory "./data" (mk_config "h" "u" "p" "forex-data") (blank f)
  = (blank f, Raise ProgrammingError).
Proof.
  intros f down. split.
  - exact (proj1 (setup_failure_touches_nothing "./data"
                    (mk_config "h" "u" "p" "forex") down) eq_refl).
  - exact (proj2 (setup_failure_touches_nothing "./data"
                    (mk_config "h" "u" "p" "forex-data") (blank f)) eq_refl eq_refl).
Defined.

End Directory.
